(** * document-summarizer: the chunking pipeline of [chunk_document.py]

    A shallow embedding of the extraction cascade, the section boundary
    detector, the sentence splitter and the two chunkers, followed by the
    properties of the specification that were checked against them.

    Conventions of the embedding.
    - A Python [str] is a [string]; a character is the code point of an
      [ascii] (the Latin-1 range, on which [\s], [\d], [str.strip],
      [str.upper] and case-insensitive matching are given below).
    - A Python [int] is a [Z]; an index produced by [enumerate] is a [nat].
    - A Python [float] is a binary64 number of [SpecFloat], with its
      operations rounded to nearest, ties to even.
    - The confidence weights are decimal literals that the code only
      compares and maximises, so they are exact rationals ([Q]).
    - A dict with a fixed key set (section, chunk, result) is a record. *)

From Stdlib Require Import ZArith QArith List String Ascii Bool Lia.
From Stdlib Require Import DecimalString DecimalNat Permutation SpecFloat.
Import ListNotations.

Open Scope string_scope.
Open Scope list_scope.
Open Scope Z_scope.

(** ** Characters and strings *)

Definition code (c : ascii) : N := N_of_ascii c.

Definition in_range (lo hi : N) (c : ascii) : bool :=
  (N.leb lo (code c) && N.leb (code c) hi)%bool.

(** [str.isspace] and the regex class [\s] on the Latin-1 range. *)
Definition isspace (c : ascii) : bool :=
  in_range 9 13 c || in_range 28 32 c || N.eqb (code c) 133 || N.eqb (code c) 160.

(** The regex class [\d]. *)
Definition isdigit (c : ascii) : bool := in_range 48 57 c.

(** The regex class [[A-Z]]. *)
Definition is_AZ (c : ascii) : bool := in_range 65 90 c.

Definition is_az (c : ascii) : bool := in_range 97 122 c.

(** [len(text)] *)
Definition len (s : string) : Z := Z.of_nat (String.length s).

Fixpoint lstrip (s : string) : string :=
  match s with
  | String c r => if isspace c then lstrip r else s
  | EmptyString => EmptyString
  end.

Fixpoint rstrip (s : string) : string :=
  match s with
  | EmptyString => EmptyString
  | String c r =>
      match rstrip r with
      | EmptyString => if isspace c then EmptyString else String c EmptyString
      | r' => String c r'
      end
  end.

(** [text.strip()] *)
Definition strip (s : string) : string := rstrip (lstrip s).

(** Truthiness of a [str]. *)
Definition nonempty (s : string) : bool :=
  match s with EmptyString => false | String _ _ => true end.

(** [sep.join(parts)] *)
Fixpoint join (sep : string) (parts : list string) : string :=
  match parts with
  | [] => ""
  | [p] => p
  | p :: rest => (p ++ sep ++ join sep rest)%string
  end.

Definition newline : string := String (ascii_of_nat 10) EmptyString.

(** ** Token Estimator

    [count_tokens] is bound once, when the module is loaded: to the length of
    the tokenizer's encoding when the tokenizer could be loaded, and otherwise
    to the definition below, the [except] branch. The pipeline that follows
    is written over an arbitrary binding of [count_tokens]. *)
Module Fallback.
Definition count_tokens (text : string) : Z := len text / 4.
End Fallback.

(** ** Data structures *)

(** [class TextBlock]; the constructor defaults are [page=0],
    [heading_level=0], [style=""], [confidence=0.0]. *)
Module TextBlock.
Record t := mk
  { text : string; page : Z; heading_level : Z; style : string;
    confidence : Q }.
End TextBlock.

(** [class SectionBoundary] *)
Module SectionBoundary.
Record t := mk
  { index : nat; heading : string; level : Z; confidence : Q; page : Z }.
End SectionBoundary.

(** [TextBlock(text=t, page=p)] *)
Definition page_block (t : string) (p : Z) : TextBlock.t :=
  TextBlock.mk t p 0 "" 0.

(** [sum(len(b.text) for b in blocks)] *)
Definition sum_chars (blocks : list TextBlock.t) : Z :=
  fold_right (fun b acc => len (TextBlock.text b) + acc) 0 blocks.

(** ** Text extraction: PDF

    What the three backends read from the outside world is a parameter of the
    model. A library call that raises is [None]; a backend that is not
    installed is [None] at the level of the library itself. *)
Record PdfWorld := mkPdfWorld
  { (** [fitz]: the page texts of [fitz.open(filepath)] *)
    fitz : option (string -> option (list string));
    (** [pdfplumber]: [page.extract_text()] of each page, which may be [None] *)
    pdfplumber : option (string -> option (list (option string)));
    (** [shutil.which("pdftotext")] *)
    which_pdftotext : bool;
    (** [subprocess.run(["pdftotext", "-layout", filepath, "-"], ...)]:
        the return code and the standard output; [None] when it raises,
        a timeout included *)
    run_pdftotext : string -> option (Z * string) }.

(** The blocks appended by
    [for i, t in enumerate(pages): if t.strip(): blocks.append(TextBlock(text=t, page=i + 1))],
    from page index [i] on. *)
Fixpoint pages_to_blocks (i : nat) (pages : list string) : list TextBlock.t :=
  match pages with
  | [] => []
  | t :: rest =>
      if nonempty (strip t)
      then page_block t (Z.of_nat i + 1) :: pages_to_blocks (S i) rest
      else pages_to_blocks (S i) rest
  end.

(** [result.stdout.split("\f")] *)
Fixpoint split_on (sep : ascii) (s : string) : list string :=
  match s with
  | EmptyString => [EmptyString]
  | String c r =>
      if Ascii.eqb c sep then EmptyString :: split_on sep r
      else match split_on sep r with
           | p :: ps => String c p :: ps
           | [] => [String c EmptyString]
           end
  end.

Definition form_feed : ascii := ascii_of_nat 12.

Definition extract_pdf_pymupdf (w : PdfWorld) (filepath : string)
  : list TextBlock.t :=
  match fitz w with
  | None => []
  | Some open =>
      match open filepath with
      | Some pages => pages_to_blocks 0 pages
      | None => []   (* except Exception *)
      end
  end.

Definition extract_pdf_pdfplumber (w : PdfWorld) (filepath : string)
  : list TextBlock.t :=
  match pdfplumber w with
  | None => []
  | Some open =>
      match open filepath with
      | Some pages =>
          (* [if text and text.strip()]: a [None] page is skipped like a blank one *)
          pages_to_blocks 0
            (map (fun t => match t with Some s => s | None => "" end) pages)
      | None => []
      end
  end.

Definition extract_pdf_pdftotext (w : PdfWorld) (filepath : string)
  : list TextBlock.t :=
  if negb (which_pdftotext w) then []
  else match run_pdftotext w filepath with
       | Some (returncode, stdout) =>
           if (returncode =? 0) && nonempty (strip stdout)
           then pages_to_blocks 0 (split_on form_feed stdout)
           else []
       | None => []
       end.

(** The [for extractor in (...)] loop of [extract_pdf]; [blocks] is the
    loop variable as the previous iteration left it. *)
Fixpoint extract_pdf_loop (extractors : list (string -> list TextBlock.t))
    (filepath : string) (blocks : list TextBlock.t) : list TextBlock.t :=
  match extractors with
  | [] => blocks
  | extractor :: rest =>
      let blocks := extractor filepath in
      if 100 <? sum_chars blocks then blocks
      else extract_pdf_loop rest filepath blocks
  end.

Definition extract_pdf (w : PdfWorld) (filepath : string) : list TextBlock.t :=
  extract_pdf_loop
    [extract_pdf_pymupdf w; extract_pdf_pdfplumber w; extract_pdf_pdftotext w]
    filepath [].

(** ** Section boundary detection: the patterns *)

Fixpoint take_while (p : ascii -> bool) (s : string) : string :=
  match s with
  | String c r => if p c then String c (take_while p r) else EmptyString
  | EmptyString => EmptyString
  end.

Fixpoint drop_while (p : ascii -> bool) (s : string) : string :=
  match s with
  | String c r => if p c then drop_while p r else s
  | EmptyString => EmptyString
  end.

Definition is_dot (c : ascii) : bool := Ascii.eqb c ".".

(** The class [[IVXLCDM]]. *)
Definition is_roman (c : ascii) : bool :=
  existsb (Ascii.eqb c) (list_ascii_of_string "IVXLCDM").

(** ASCII case folding, which is all that [re.IGNORECASE] does to the letters
    of the patterns below within the Latin-1 range. *)
Definition to_upper (c : ascii) : ascii :=
  if is_az c then ascii_of_N (code c - 32) else c.

(** The tail [\s+\S] of the outline patterns: greedy white space, then one
    character that is not. *)
Definition ws_then_nonws (s : string) : bool :=
  match s with
  | String c r => isspace c && nonempty (lstrip r)
  | EmptyString => false
  end.

(** The tail [\s+[...]+] of the section-word patterns. *)
Definition ws_then_class (cls : ascii -> bool) (s : string) : bool :=
  match s with
  | String c r =>
      isspace c && match lstrip r with String d _ => cls d | EmptyString => false end
  | EmptyString => false
  end.

(** [(\d+\.)+], scanned from the left: [in_digits] says that the scan is
    inside a digit run, [groups] counts the groups closed so far. The result
    is the number of groups and the text that follows them. *)
Fixpoint outline_groups (s : string) (in_digits : bool) (groups : nat)
  : option (nat * string) :=
  match s with
  | EmptyString =>
      if in_digits then None
      else if (0 <? groups)%nat then Some (groups, EmptyString) else None
  | String c r =>
      if isdigit c then outline_groups r true groups
      else if in_digits then
        (if is_dot c then outline_groups r false (S groups) else None)
      else if (0 <? groups)%nat then Some (groups, s) else None
  end.

(** [^\s*(\d+\.)+\s+\S]: the number of numeric groups when the text matches. *)
Definition numbered_outline (text : string) : option nat :=
  match outline_groups (lstrip text) false 0 with
  | Some (n, rest) => if ws_then_nonws rest then Some n else None
  | None => None
  end.

Definition pattern_numbered (text : string) : bool :=
  match numbered_outline text with Some _ => true | None => false end.

(** [^\s*[IVXLCDM]+\.\s+\S] *)
Definition pattern_roman (text : string) : bool :=
  match lstrip text with
  | String c r =>
      is_roman c &&
      match drop_while is_roman r with
      | String d r' => is_dot d && ws_then_nonws r'
      | EmptyString => false
      end
  | EmptyString => false
  end.

(** [^\s*[A-Z]\.\s+\S] *)
Definition pattern_letter (text : string) : bool :=
  match lstrip text with
  | String c (String d r) => is_AZ c && is_dot d && ws_then_nonws r
  | _ => false
  end.

(** The text after [word] when [s] starts with it, letters compared through
    [fold]. *)
Fixpoint after_prefix (fold : ascii -> ascii) (word s : string) : option string :=
  match word, s with
  | EmptyString, _ => Some s
  | String w word', String c s' =>
      if Ascii.eqb (fold w) (fold c) then after_prefix fold word' s' else None
  | String _ _, EmptyString => None
  end.

Definition section_word (fold : ascii -> ascii) (words : list string)
    (text : string) : bool :=
  existsb
    (fun w =>
       match after_prefix fold w (lstrip text) with
       | Some rest => ws_then_class (fun c => isdigit c || is_roman (fold c)) rest
       | None => false
       end)
    words.

(** [^\s*(Section|Article|Chapter|Part)\s+[\dIVXLCDM]+] with [re.IGNORECASE] *)
Definition pattern_word_ci : string -> bool :=
  section_word to_upper ["Section"; "Article"; "Chapter"; "Part"].

(** [^\s*(ARTICLE|SECTION|CHAPTER|PART)\s+[\dIVXLCDM]+] *)
Definition pattern_word_upper : string -> bool :=
  section_word (fun c => c) ["ARTICLE"; "SECTION"; "CHAPTER"; "PART"].

Definition SECTION_PATTERNS : list ((string -> bool) * Q) :=
  [ (pattern_numbered, 0.9%Q);
    (pattern_roman, 0.85%Q);
    (pattern_letter, 0.8%Q);
    (pattern_word_ci, 0.95%Q);
    (pattern_word_upper, 0.95%Q) ].

(** ** Section boundary detection: headings *)

(** [re.sub(r'\s+', ' ', text)]; [in_ws] says that the previous character
    belonged to a white-space run. *)
Fixpoint collapse_ws (s : string) (in_ws : bool) : string :=
  match s with
  | EmptyString => EmptyString
  | String c r =>
      if isspace c
      then (if in_ws then collapse_ws r true else String " " (collapse_ws r true))
      else String c (collapse_ws r false)
  end.

(** [re.sub(r'^[A-Z]?-?\d+\s+', '', text)] *)
Definition strip_page_prefix (s : string) : string :=
  let s1 := match s with String c r => if is_AZ c then r else s | EmptyString => s end in
  let s2 := match s1 with
            | String c r => if Ascii.eqb c "-" then r else s1
            | EmptyString => s1
            end in
  match s2 with
  | String c r =>
      if isdigit c then
        match drop_while isdigit r with
        | String d r' => if isspace d then lstrip r' else s
        | EmptyString => s
        end
      else s
  | EmptyString => s
  end.

Definition is_hash (c : ascii) : bool := Ascii.eqb c "#".

(** [re.sub(r'^#+\s*', '', text)] *)
Definition strip_hashes (s : string) : string :=
  match s with
  | String c r => if is_hash c then lstrip (drop_while is_hash r) else s
  | EmptyString => s
  end.

Definition clean_heading (text : string) : string :=
  let text := strip (collapse_ws text false) in
  let text := strip (strip_page_prefix text) in
  let text := strip (strip_hashes text) in
  if nonempty text then text else "Untitled Section".

(** ** Section boundary detection: the scan *)

(** Python's [max(a, b)] on two numbers: [b] when it is strictly larger. *)
Definition qmax (a b : Q) : Q := if Qle_bool b a then a else b.

(** [re.match(r"^\s*([\d.]+)", text)] followed by
    [min(group(1).rstrip(".").count(".") + 1, 4)]. *)
Fixpoint rstrip_dots (s : string) : string :=
  match s with
  | EmptyString => EmptyString
  | String c r =>
      match rstrip_dots r with
      | EmptyString => if is_dot c then EmptyString else String c EmptyString
      | r' => String c r'
      end
  end.

Fixpoint count_dots (s : string) : Z :=
  match s with
  | EmptyString => 0
  | String c r => (if is_dot c then 1 else 0) + count_dots r
  end.

Definition digit_or_dot (c : ascii) : bool := isdigit c || is_dot c.

Definition dot_level (text : string) : option Z :=
  let g := take_while digit_or_dot (lstrip text) in
  if nonempty g then Some (Z.min (count_dots (rstrip_dots g) + 1) 4) else None.

(** The [for pattern, conf in SECTION_PATTERNS] loop, which ends at the
    first pattern that matches ([break]). *)
Fixpoint match_patterns (patterns : list ((string -> bool) * Q)) (text : string)
    (best_confidence : Q) (detected_level : Z) : Q * Z :=
  match patterns with
  | [] => (best_confidence, detected_level)
  | (pattern, conf) :: rest =>
      if pattern text then
        (qmax best_confidence conf,
         match dot_level text with
         | Some l => l
         | None => detected_level
         end)
      else match_patterns rest text best_confidence detected_level
  end.

(** [len(text.split())]; [in_word] says that the previous character belonged
    to a word. *)
Fixpoint count_words (s : string) (in_word : bool) : Z :=
  match s with
  | EmptyString => 0
  | String c r =>
      if isspace c then count_words r false
      else (if in_word then 0 else 1) + count_words r true
  end.

(** The characters of the Latin-1 range that [str.upper] leaves alone. *)
Definition upper_fixed (c : ascii) : bool :=
  negb (is_az c || N.eqb (code c) 181 || in_range 223 246 c || in_range 248 255 c).

(** [text == text.upper()] *)
Fixpoint is_upper_text (s : string) : bool :=
  match s with
  | EmptyString => true
  | String c r => upper_fixed c && is_upper_text r
  end.

(** The ALL-CAPS test of [detect_boundaries]. *)
Definition all_caps_header (best_confidence : Q) (text : string) : bool :=
  Qeq_bool best_confidence 0
  && (len text <? 120)
  && (2 <=? count_words text false)
  && is_upper_text text
  && negb (String.prefix "[TABLE" text).

(** What [detect_boundaries] decides for a block that is neither marked as a
    heading nor blank: [best_confidence] and [detected_level] as they stand
    when [if best_confidence > 0] is reached. *)
Definition classify (text : string) (blank_count : Z) : Q * Z :=
  let '(best_confidence, detected_level) :=
    match_patterns SECTION_PATTERNS text 0 1 in
  let '(best_confidence, detected_level) :=
    if all_caps_header best_confidence text then (0.7%Q, 1)
    else (best_confidence, detected_level) in
  if (3 <=? blank_count) && Qeq_bool best_confidence 0 then (0.3%Q, 1)
  else (best_confidence, detected_level).

(** [block.confidence >= 0.9 and block.heading_level > 0] *)
Definition marked_heading (block : TextBlock.t) : bool :=
  Qle_bool 0.9 (TextBlock.confidence block) && (0 <? TextBlock.heading_level block).

(** The loop of [detect_boundaries] from block index [i] on, with the
    blank-run counter as the previous iterations left it; the result is the
    list of the boundaries appended from there on. *)
Fixpoint detect_from (i : nat) (blank_count : Z) (blocks : list TextBlock.t)
  : list SectionBoundary.t :=
  match blocks with
  | [] => []
  | block :: rest =>
      let text := strip (TextBlock.text block) in
      if marked_heading block then
        SectionBoundary.mk i (clean_heading text) (TextBlock.heading_level block)
          (TextBlock.confidence block) (TextBlock.page block)
        :: detect_from (S i) 0 rest
      else if negb (nonempty text) then
        detect_from (S i) (blank_count + 1) rest
      else
        let '(best_confidence, detected_level) := classify text blank_count in
        if negb (Qle_bool best_confidence 0) then
          SectionBoundary.mk i (clean_heading (substring 0 120 text))
            detected_level best_confidence (TextBlock.page block)
          :: detect_from (S i) 0 rest
        else detect_from (S i) 0 rest
  end.

Definition detect_boundaries (blocks : list TextBlock.t)
  : list SectionBoundary.t :=
  detect_from 0 0 blocks.

(** ** Chunking strategies: the sentence splitter *)

Definition blocks_to_text (blocks : list TextBlock.t) : string :=
  join newline (map TextBlock.text blocks).

(** The class [[.!?]] of the look-behind. *)
Definition is_sentence_end (c : ascii) : bool :=
  Ascii.eqb c "." || Ascii.eqb c "!" || Ascii.eqb c "?".

(** [re.split(r'(?<=[.!?])\s+', text)], scanned from the left. [prev_end]
    says that the previous character is one of [.!?]; [in_sep] says that the
    scan is inside a separator. The head of the result is the rest of the
    piece that is open at this point. *)
Fixpoint split_from (s : string) (prev_end in_sep : bool) : list string :=
  match s with
  | EmptyString => [EmptyString]
  | String c r =>
      if isspace c && (in_sep || prev_end) then
        if in_sep then split_from r false true
        else EmptyString :: split_from r false true
      else
        match split_from r (is_sentence_end c) false with
        | p :: ps => String c p :: ps
        | [] => [String c EmptyString]
        end
  end.

Definition split_sentences (text : string) : list string :=
  split_from text false false.

(** [str(n)] for a non-negative [n]. *)
Definition str_of_nat (n : nat) : string :=
  NilEmpty.string_of_uint (Nat.to_uint n).

(** [enumerate(l)], from [i] on. *)
Fixpoint enumerate_from {A : Type} (i : nat) (l : list A) : list (nat * A) :=
  match l with
  | [] => []
  | x :: r => (i, x) :: enumerate_from (S i) r
  end.

Module Sect.
(** The section dicts of [chunk_by_structure]. *)
Record t := mk
  { heading : string; level : Z; text : string; tokens : Z;
    start_page : Z; end_page : Z }.
End Sect.

Module Chunk.
(** The chunk dicts that both chunkers return. *)
Record t := mk
  { id : Z; heading : string; level : Z; text : string; tokens : Z;
    start_page : Z; end_page : Z }.
End Chunk.

Module Result.
(** The dict returned by [extract_and_chunk], without the three entries that
    only repeat the path. *)
Record t := mk
  { total_pages : Z; total_tokens : Z; total_chars : Z;
    chunking_mode : string;
    document_structure : list (string * Z * Z);
    chunks : list Chunk.t }.
End Result.

Section Pipeline.

(** The binding of [count_tokens] in force. *)
Variable count_tokens : string -> Z.

(** [int((char_offset / total_chars) * total_pages)] as the interpreter
    computes it in double precision, as a function of [char_offset],
    [total_chars] and [total_pages]. *)
Variable page_offset : Z -> Z -> Z -> Z.

(** The [for s in reversed(current)] loop: [rev_current] is what is left of
    [reversed(current)]. *)
Fixpoint overlap_walk (rev_current : list string) (overlap : Z)
    (overlap_parts : list string) (overlap_tokens : Z) : list string * Z :=
  match rev_current with
  | [] => (overlap_parts, overlap_tokens)
  | s :: rest =>
      let st := count_tokens s in
      if overlap <? overlap_tokens + st then (overlap_parts, overlap_tokens)
      else overlap_walk rest overlap (s :: overlap_parts) (overlap_tokens + st)
  end.

Definition overlap_seed (current : list string) (overlap : Z)
  : list string * Z :=
  overlap_walk (rev current) overlap [] 0.

Definition nonnil {A : Type} (l : list A) : bool :=
  match l with [] => false | _ :: _ => true end.

(** [current_tokens + stokens > max_tokens and current] *)
Definition finalizes (max_tokens : Z) (current : list string)
    (current_tokens : Z) (sentence : string) : bool :=
  (max_tokens <? current_tokens + count_tokens sentence) && nonnil current.

(** The state of the loop of [split_text_by_tokens]. *)
Record SplitState := mkSplit
  { sp_chunks : list string; sp_current : list string; sp_tokens : Z }.

(** One iteration of [for sentence in sentences]. *)
Definition split_step (max_tokens overlap : Z) (st : SplitState)
    (sentence : string) : SplitState :=
  let stokens := count_tokens sentence in
  let st :=
    if finalizes max_tokens (sp_current st) (sp_tokens st) sentence then
      let '(overlap_parts, overlap_tokens) :=
        overlap_seed (sp_current st) overlap in
      mkSplit (sp_chunks st ++ [join " " (sp_current st)])
        overlap_parts overlap_tokens
    else st in
  mkSplit (sp_chunks st) (sp_current st ++ [sentence]) (sp_tokens st + stokens).

Definition split_text_by_tokens (text : string) (max_tokens overlap : Z)
  : list string :=
  let sentences := split_sentences text in
  let st := fold_left (split_step max_tokens overlap) sentences
              (mkSplit [] [] 0) in
  let chunks :=
    if nonnil (sp_current st) then sp_chunks st ++ [join " " (sp_current st)]
    else sp_chunks st in
  if nonnil chunks then chunks else [text].

(** The same loop with the sentence lists kept as they are instead of being
    joined: every entry is the value of [current] at the moment
    [" ".join(current)] is appended to [chunks]. *)
Definition group_step (max_tokens overlap : Z)
    (st : list (list string) * list string * Z) (sentence : string)
  : list (list string) * list string * Z :=
  let '(groups, current, current_tokens) := st in
  let stokens := count_tokens sentence in
  let '(groups, current, current_tokens) :=
    if finalizes max_tokens current current_tokens sentence then
      let '(overlap_parts, overlap_tokens) := overlap_seed current overlap in
      (groups ++ [current], overlap_parts, overlap_tokens)
    else (groups, current, current_tokens) in
  (groups, current ++ [sentence], current_tokens + stokens).

Definition sentence_groups (text : string) (max_tokens overlap : Z)
  : list (list string) :=
  let '(groups, current, _) :=
    fold_left (group_step max_tokens overlap) (split_sentences text) ([], [], 0) in
  if nonnil current then groups ++ [current] else groups.

(** ** Chunking strategies: along section boundaries *)

(** [sorted(boundaries, key=lambda b: b.index)]: a stable sort. *)
Fixpoint insert_by_index (b : SectionBoundary.t) (l : list SectionBoundary.t)
  : list SectionBoundary.t :=
  match l with
  | [] => [b]
  | x :: r =>
      if (SectionBoundary.index b <=? SectionBoundary.index x)%nat then b :: l
      else x :: insert_by_index b r
  end.

Definition sorted_by_index (l : list SectionBoundary.t) : list SectionBoundary.t :=
  fold_right insert_by_index [] l.

(** [blocks[a:b]] for non-negative [a] and [b]. *)
Definition slice {A : Type} (l : list A) (a b : nat) : list A :=
  firstn (b - a) (skipn a l).

(** [[b.page for b in blocks if b.page > 0]] *)
Definition positive_pages (blocks : list TextBlock.t) : list Z :=
  filter (fun p => 0 <? p) (map TextBlock.page blocks).

(** [min(pages) if pages else 0] and [max(pages) if pages else 0] *)
Definition min_or (default : Z) (pages : list Z) : Z :=
  match pages with [] => default | p :: ps => fold_left Z.min ps p end.

Definition max_or (default : Z) (pages : list Z) : Z :=
  match pages with [] => default | p :: ps => fold_left Z.max ps p end.

Definition make_section (heading : string) (level : Z)
    (section_blocks : list TextBlock.t) : Sect.t :=
  let section_text := blocks_to_text section_blocks in
  let pages := positive_pages section_blocks in
  Sect.mk heading level section_text (count_tokens section_text)
    (min_or 0 pages) (max_or 0 pages).

(** The [for i, boundary in enumerate(boundaries)] loop that builds
    [sections]; [boundaries] is what is left of the sorted list. *)
Fixpoint build_sections (blocks : list TextBlock.t)
    (boundaries : list SectionBoundary.t) : list Sect.t :=
  match boundaries with
  | [] => []
  | boundary :: rest =>
      let start_idx := SectionBoundary.index boundary in
      let end_idx := match rest with
                     | next :: _ => SectionBoundary.index next
                     | [] => List.length blocks
                     end in
      make_section (SectionBoundary.heading boundary)
        (SectionBoundary.level boundary) (slice blocks start_idx end_idx)
      :: build_sections blocks rest
  end.

(** The sections with the preamble, when there is one, in front. *)
Definition with_preamble (blocks : list TextBlock.t)
    (boundaries : list SectionBoundary.t) (sections : list Sect.t)
  : list Sect.t :=
  match boundaries with
  | first :: _ =>
      if (0 <? SectionBoundary.index first)%nat then
        let preamble_blocks := firstn (SectionBoundary.index first) blocks in
        if nonempty (strip (blocks_to_text preamble_blocks))
        then make_section "Preamble" 0 preamble_blocks :: sections
        else sections
      else sections
  | [] => sections
  end.

Definition blank_line : string := (newline ++ newline)%string.

(** [section["heading"] + (f" (part {j+1})" if len(sub_chunks) > 1 else "")] *)
Definition part_heading (heading : string) (parts j : nat) : string :=
  if (1 <? parts)%nat
  then (heading ++ " (part " ++ str_of_nat (j + 1) ++ ")")%string
  else heading.

(** The sections appended to [merged] for an oversized section, one for each
    piece of [sub_chunks]. *)
Definition split_section (section : Sect.t) (sub_chunks : list string)
  : list Sect.t :=
  map (fun '(j, sub_text) =>
         Sect.mk (part_heading (Sect.heading section) (List.length sub_chunks) j)
           (Sect.level section) sub_text (count_tokens sub_text)
           (Sect.start_page section) (Sect.end_page section))
      (enumerate_from 0 sub_chunks).

(** The buffer after it has absorbed [section]. *)
Definition absorb (buffer section : Sect.t) : Sect.t :=
  let text := (Sect.text buffer ++ blank_line ++ Sect.text section)%string in
  let tokens := Sect.tokens buffer + Sect.tokens section in
  let heading :=
    if negb (String.eqb (Sect.heading buffer) "Preamble")
       || negb (String.eqb (Sect.heading section) "Preamble")
    then (if tokens <? 100 then Sect.heading section
          else (Sect.heading buffer ++ " / " ++ Sect.heading section)%string)
    else Sect.heading buffer in
  Sect.mk heading (Sect.level buffer) text tokens (Sect.start_page buffer)
    (Z.max (Sect.end_page buffer) (Sect.end_page section)).

(** One iteration of the merge and split loop over [sections]; the state is
    [merged] and [buffer]. The test against [max_tokens * 0.8] compares an
    integer with a double: for the magnitudes a token budget takes it is the
    comparison of [5 * (a + b)] with [4 * max_tokens]. *)
Definition merge_step (max_tokens overlap : Z)
    (st : list Sect.t * option Sect.t) (section : Sect.t)
  : list Sect.t * option Sect.t :=
  let '(merged, buffer) := st in
  if max_tokens <? Sect.tokens section then
    let '(prepend_text, merged) :=
      match buffer with
      | Some b =>
          if Sect.tokens b <? 100 then ((Sect.text b ++ blank_line)%string, merged)
          else ("", merged ++ [b])
      | None => ("", merged)
      end in
    let full_text := (prepend_text ++ Sect.text section)%string in
    let sub_chunks := split_text_by_tokens full_text max_tokens overlap in
    (merged ++ split_section section sub_chunks, None)
  else
    match buffer with
    | Some b =>
        if (Sect.tokens b <? 100)
           || (5 * (Sect.tokens b + Sect.tokens section) <? 4 * max_tokens)
        then (merged, Some (absorb b section))
        else (merged ++ [b], Some section)
    | None => (merged, Some section)
    end.

Definition merge_sections (sections : list Sect.t) (max_tokens overlap : Z)
  : list Sect.t :=
  let '(merged, buffer) :=
    fold_left (merge_step max_tokens overlap) sections ([], None) in
  match buffer with
  | Some b => merged ++ [b]
  | None => merged
  end.

(** The final [for i, section in enumerate(merged)] loop. *)
Definition number_chunks (merged : list Sect.t) : list Chunk.t :=
  map (fun '(i, section) =>
         Chunk.mk (Z.of_nat i + 1) (Sect.heading section) (Sect.level section)
           (Sect.text section) (Sect.tokens section)
           (Sect.start_page section) (Sect.end_page section))
      (enumerate_from 0 merged).

Definition chunk_by_structure (blocks : list TextBlock.t)
    (boundaries : list SectionBoundary.t) (max_tokens overlap : Z)
  : list Chunk.t :=
  match boundaries with
  | [] => []
  | _ :: _ =>
      let boundaries := sorted_by_index boundaries in
      let sections :=
        with_preamble blocks boundaries (build_sections blocks boundaries) in
      number_chunks (merge_sections sections max_tokens overlap)
  end.

(** ** Chunking strategies: the token-based fallback *)

(** The [for i, text in enumerate(sub_texts)] loop of [chunk_by_tokens] from
    index [i] on, with [char_offset] as the previous iterations left it. *)
Fixpoint token_chunks (total_chars total_pages pages_per_chunk : Z)
    (i : nat) (char_offset : Z) (sub_texts : list string) : list Chunk.t :=
  match sub_texts with
  | [] => []
  | text :: rest =>
      let est_page := Z.max 1 (page_offset char_offset total_chars total_pages + 1) in
      Chunk.mk (Z.of_nat i + 1) ("Section " ++ str_of_nat (i + 1))%string 1 text
        (count_tokens text) est_page
        (Z.min (est_page + pages_per_chunk) total_pages)
      :: token_chunks total_chars total_pages pages_per_chunk (S i)
           (char_offset + len text) rest
  end.

Definition chunk_by_tokens (blocks : list TextBlock.t) (max_tokens overlap : Z)
  : list Chunk.t :=
  let full_text := blocks_to_text blocks in
  let sub_texts := split_text_by_tokens full_text max_tokens overlap in
  let total_pages := max_or 1 (positive_pages blocks) in
  let total_chars := Z.max (len full_text) 1 in
  let pages_per_chunk :=
    Z.max 1 (total_pages / Z.max (Z.of_nat (List.length sub_texts)) 1) in
  token_chunks total_chars total_pages pages_per_chunk 0 0 sub_texts.

(** ** Core: extract and chunk a single file *)

Definition SUPPORTED_EXTENSIONS : list string :=
  [".pdf"; ".docx"; ".txt"; ".md"; ".markdown"].

(** [[b for b in boundaries if b.confidence >= 0.7]] *)
Definition high_confidence (boundaries : list SectionBoundary.t)
  : list SectionBoundary.t :=
  filter (fun b => Qle_bool 0.7 (SectionBoundary.confidence b)) boundaries.

(** [extract_and_chunk] from the point where the path has been taken apart:
    [ext] is the lower-cased suffix of the path and [blocks] is what
    [extract_file(filepath)] returned. [None] is the [return None] of the
    two skipped cases. *)
Definition extract_and_chunk (ext : string) (blocks : list TextBlock.t)
    (max_tokens overlap : Z) : option Result.t :=
  if negb (existsb (String.eqb ext) SUPPORTED_EXTENSIONS) then None
  else
    let total_chars := sum_chars blocks in
    if total_chars <? 50 then None
    else
      let total_tokens := count_tokens (blocks_to_text blocks) in
      let total_pages := max_or 0 (positive_pages blocks) in
      let boundaries := detect_boundaries blocks in
      let high_conf := high_confidence boundaries in
      let '(chunking_mode, chunks) :=
        if (3 <=? List.length high_conf)%nat
        then ("structure_aware",
              chunk_by_structure blocks high_conf max_tokens overlap)
        else ("token_based", chunk_by_tokens blocks max_tokens overlap) in
      let doc_structure :=
        map (fun b => (clean_heading (SectionBoundary.heading b),
                       SectionBoundary.level b, SectionBoundary.page b))
            (high_confidence (sorted_by_index boundaries)) in
      Some (Result.mk total_pages total_tokens total_chars chunking_mode
              doc_structure chunks).

End Pipeline.

(** ** Double precision

    [float(n)] for an [int]: the nearest binary64 number, ties to even. *)
Definition float_of_int (n : Z) : spec_float :=
  binary_normalize 53 1024 n 0 false.

(** [int(x)] for a finite [float]: the integer part, towards zero. An
    infinity or a NaN raises in Python; none arises below, where the divisor
    is at least 1. *)
Definition int_of_float (x : spec_float) : Z :=
  match x with
  | S754_finite s m e =>
      let v :=
        match e with
        | Zneg p => Z.shiftr (Zpos m) (Zpos p)
        | _ => Z.shiftl (Zpos m) e
        end in
      if s then - v else v
  | _ => 0
  end.

(** [int((char_offset / total_chars) * total_pages)]: the quotient of the
    two [int]s rounded to a double, its product with [total_pages] rounded
    again, and the integer part taken. The operands are lengths and page
    numbers, far below [2^53], so their conversion is exact and the rounded
    quotient of the converted operands is the correctly rounded quotient
    that [/] computes on [int]s. *)
Definition double_page_offset (char_offset total_chars total_pages : Z) : Z :=
  int_of_float
    (SFmul 53 1024
       (SFdiv 53 1024 (float_of_int char_offset) (float_of_int total_chars))
       (float_of_int total_pages)).

(** ** Text extraction: plain text and Markdown *)

Definition is_newline (c : ascii) : bool := Ascii.eqb c (ascii_of_nat 10).

(** [MD_HEADING_RE.match(text)], [^(#{1,6})\s+(.+)]: the length of the run of
    hashes when the line matches. *)
Definition MD_HEADING_RE (text : string) : option nat :=
  let n := String.length (take_while is_hash text) in
  if ((1 <=? n) && (n <=? 6))%nat then
    match drop_while is_hash text with
    | String c r =>
        if isspace c && nonempty (drop_while is_newline r) then Some n else None
    | EmptyString => None
    end
  else None.

(** The body of [for line in f]; [text] is the line without its newline. *)
Definition line_block (is_markdown : bool) (text : string) : TextBlock.t :=
  if negb (nonempty (strip text)) then TextBlock.mk newline 0 0 "blank" 0
  else
    let style := if is_markdown then "markdown" else "plain" in
    match (if is_markdown then MD_HEADING_RE text else None) with
    | Some n => TextBlock.mk text 0 (Z.of_nat n) style 1
    | None => TextBlock.mk text 0 0 style 0
    end.

(** [extract_text_file]: [lines] are the lines of the file, each without its
    newline, or [None] when reading the file raises. *)
Definition extract_text_file (is_markdown : bool) (lines : option (list string))
  : list TextBlock.t :=
  match lines with
  | Some ls => map (line_block is_markdown) ls
  | None => []
  end.

(** ** Vocabulary of the properties *)

(** The ids 1, 2, ..., n. *)
Definition ids_upto (n : nat) : list Z := map Z.of_nat (seq 1 n).

(** A block list is usable for the cascade when its characters sum to more
    than 100. *)
Definition usable (blocks : list TextBlock.t) : Prop := 100 < sum_chars blocks.

(** The three ways a backend fails: it is not installed, or its library
    raises. *)
Definition pymupdf_fails (w : PdfWorld) (filepath : string) : Prop :=
  match fitz w with Some open => open filepath = None | None => True end.

Definition pdfplumber_fails (w : PdfWorld) (filepath : string) : Prop :=
  match pdfplumber w with Some open => open filepath = None | None => True end.

Definition pdftotext_fails (w : PdfWorld) (filepath : string) : Prop :=
  which_pdftotext w = false \/ run_pdftotext w filepath = None.

(** A chunk records a fresh token count when [tokens] is the estimator's value
    on its [text]. *)
Definition tokens_fresh (count_tokens : string -> Z) (c : Chunk.t) : Prop :=
  Chunk.tokens c = count_tokens (Chunk.text c).

(** The page range of a chunk covers at least one page and stays within a
    document of [total] pages. *)
Definition page_range_within (total : Z) (c : Chunk.t) : Prop :=
  Chunk.start_page c <= Chunk.end_page c
  /\ Chunk.start_page c <= total
  /\ Chunk.end_page c <= total.

(** [max((b.page for b in blocks if b.page > 0), default=0)], the
    [total_pages] that [extract_and_chunk] reports. *)
Definition document_pages (blocks : list TextBlock.t) : Z :=
  max_or 0 (positive_pages blocks).

Section SplitterVocabulary.

Variable count_tokens : string -> Z.

(** The running count of the splitter: the sum of the estimates of the
    sentences of a list. *)
Definition sum_tokens (l : list string) : Z :=
  fold_right (fun s acc => count_tokens s + acc) 0 l.

(** [s] is made of the last elements of [l], in the order of [l]. *)
Definition is_suffix {A : Type} (s l : list A) : Prop := exists k, l = k ++ s.

(** The sentences carried into the chunk that follows [prev]; nothing is
    carried into the first chunk. *)
Definition carried (overlap : Z) (prev : option (list string)) : list string :=
  match prev with
  | Some p => fst (overlap_seed count_tokens p overlap)
  | None => []
  end.

(** A sentence list [g] is a well-formed chunk after [prev]: it is the
    carried overlap followed by at least one new sentence, and its running
    count is within [max_tokens] unless there is exactly one new sentence. *)
Definition group_ok (max_tokens overlap : Z) (prev : option (list string))
    (g : list string) : Prop :=
  exists more,
    more <> [] /\ g = carried overlap prev ++ more
    /\ (sum_tokens g <= max_tokens \/ exists s, more = [s]).

Fixpoint groups_ok (max_tokens overlap : Z) (prev : option (list string))
    (groups : list (list string)) : Prop :=
  match groups with
  | [] => True
  | g :: rest =>
      group_ok max_tokens overlap prev g
      /\ groups_ok max_tokens overlap (Some g) rest
  end.

(** The bound of the specification on a chunk [c] of a text whose sentences
    are [sentences]: the estimate of [c] is at most [max_tokens], unless [c]
    is a single sentence whose own estimate exceeds [max_tokens]. *)
Definition budget_respected (sentences : list string) (max_tokens : Z)
    (c : string) : Prop :=
  count_tokens c <= max_tokens
  \/ (In c sentences /\ max_tokens < count_tokens c).

(** The state of [split_step] and the state of [group_step] that go
    together. *)
Definition same_run (st : SplitState)
    (gs : list (list string) * list string * Z) : Prop :=
  let '(groups, current, current_tokens) := gs in
  sp_chunks st = map (join " ") groups
  /\ sp_current st = current
  /\ sp_tokens st = current_tokens.

(** What every iteration of the loop keeps true: the running count is the
    sum over [current]; once a sentence has been read, [current] is not
    empty, the finalized lists followed by [current] are well formed, and
    every sentence read so far is in one of them. *)
Definition run_invariant (max_tokens overlap : Z) (seen : list string)
    (gs : list (list string) * list string * Z) : Prop :=
  let '(groups, current, current_tokens) := gs in
  current_tokens = sum_tokens current
  /\ ((seen = [] /\ groups = [] /\ current = [])
      \/ (current <> []
          /\ groups_ok max_tokens overlap None (groups ++ [current])
          /\ forall s, In s seen -> exists g, In g (groups ++ [current]) /\ In s g)).

End SplitterVocabulary.

(** Whenever the loop of [split_text_by_tokens] on [text] finalizes a chunk,
    the seed of the next one is a suffix of the sentences of the finalized
    chunk, and the text carried over, the seed joined as the chunk will hold
    it, is estimated at no more than [overlap] tokens. *)
Definition carried_text_within_budget (count_tokens : string -> Z)
    (text : string) (max_tokens overlap : Z) : Prop :=
  forall before sentence after,
    split_sentences text = before ++ sentence :: after ->
    let st := fold_left (split_step count_tokens max_tokens overlap) before
                (mkSplit [] [] 0) in
    finalizes count_tokens max_tokens (sp_current st) (sp_tokens st) sentence
    = true ->
    let seed := fst (overlap_seed count_tokens (sp_current st) overlap) in
    is_suffix seed (sp_current st)
    /\ count_tokens (join " " seed) <= overlap.

(** The block indices of a boundary list increase strictly: every boundary
    lies at a smaller index than all the boundaries after it. *)
Fixpoint strictly_increasing (l : list nat) : Prop :=
  match l with
  | [] => True
  | x :: r => Forall (fun y => (x < y)%nat) r /\ strictly_increasing r
  end.

(** The trimmed text of the block is empty. *)
Definition blank (block : TextBlock.t) : bool :=
  negb (nonempty (strip (TextBlock.text block))).

(** No boundary of [detect_boundaries blocks] lies at a block whose trimmed
    text is empty. *)
Definition no_boundary_at_blank (blocks : list TextBlock.t) : Prop :=
  forall b block,
    In b (detect_boundaries blocks) ->
    nth_error blocks (SectionBoundary.index b) = Some block ->
    blank block = false.

(** The blank-run counter after the loop of [detect_boundaries] has gone
    through [blocks], having started with [blank_count]. *)
Fixpoint blank_after (blank_count : Z) (blocks : list TextBlock.t) : Z :=
  match blocks with
  | [] => blank_count
  | block :: rest =>
      if marked_heading block then blank_after 0 rest
      else if blank block then blank_after (blank_count + 1) rest
      else blank_after 0 rest
  end.

(** A block that is neither marked as a heading nor blank and that, taken
    without a blank run before it, gives no boundary. *)
Definition plain_text_block (block : TextBlock.t) : Prop :=
  marked_heading block = false
  /\ blank block = false
  /\ Qeq_bool (fst (classify (strip (TextBlock.text block)) 0)) 0 = true.

(** The boundary that a blank run of three or more puts at [block], found at
    index [i]. *)
Definition blank_run_boundary (i : nat) (block : TextBlock.t)
  : SectionBoundary.t :=
  SectionBoundary.mk i
    (clean_heading (substring 0 120 (strip (TextBlock.text block))))
    1 0.3%Q (TextBlock.page block).

(** The weights of the patterns that match [text], in priority order. *)
Definition matching_weights (text : string) : list Q :=
  map snd (filter (fun p => fst p text) SECTION_PATTERNS).

(** The maximum confidence weight over all the patterns that match [text]. *)
Definition max_weight (text : string) : Q :=
  fold_left qmax (matching_weights text) 0%Q.

(** At least one structural pattern matches [text]. *)
Definition matches_some (text : string) : bool :=
  existsb (fun p => fst p text) SECTION_PATTERNS.

(** The level inferred from the first pattern that matches: the number of
    numeric groups, capped at 4, for a numbered outline, which is first in
    priority order, and 1 for the other patterns. *)
Definition first_match_level (text : string) : Z :=
  match numbered_outline text with
  | Some n => Z.min (Z.of_nat n) 4
  | None => 1
  end.

(** The boundary that the pattern rule gives to [block], found at index
    [i]. *)
Definition pattern_boundary (i : nat) (block : TextBlock.t)
  : SectionBoundary.t :=
  let text := strip (TextBlock.text block) in
  SectionBoundary.mk i (clean_heading (substring 0 120 text))
    (first_match_level text) (max_weight text) (TextBlock.page block).

(** The pattern rule as the specification words it, for every non-blank
    block whose text matches a pattern. *)
Definition pattern_rule (blocks : list TextBlock.t) : Prop :=
  forall i block,
    nth_error blocks i = Some block ->
    blank block = false ->
    matches_some (strip (TextBlock.text block)) = true ->
    exists b,
      In b (detect_boundaries blocks)
      /\ SectionBoundary.index b = i
      /\ (SectionBoundary.confidence b == max_weight (strip (TextBlock.text block)))%Q
      /\ SectionBoundary.level b = first_match_level (strip (TextBlock.text block)).

(** The first and the second letter of the section words, whatever their
    case. *)
Definition word_first (c : ascii) : bool :=
  existsb (Ascii.eqb (to_upper c)) (list_ascii_of_string "SACP").

Definition word_second (c : ascii) : bool :=
  existsb (Ascii.eqb (to_upper c)) (list_ascii_of_string "ERHA").

(** ** Sample documents *)

(** Six sentences of nine characters each. *)
Definition sample_pdf_text : string :=
  "Aaaaaaaa. Bbbbbbbb. Cccccccc. Dddddddd. Eeeeeeee. Ffffffff.".

(** A machine on which pdfplumber is the only backend installed, and reads
    one page of 119 characters from any file. *)
Definition sample_world : PdfWorld :=
  mkPdfWorld None
    (Some (fun _ => Some [Some (sample_pdf_text ++ " " ++ sample_pdf_text)%string]))
    false (fun _ => None).

(** The blocks of a one-page PDF of six sentences. *)
Definition sample_pdf : list TextBlock.t := [page_block sample_pdf_text 1].

(** A paragraph of a word-processor document with the style "Heading 2" and
    a numbered title, as [extract_docx] returns it. *)
Definition docx_numbered_heading : TextBlock.t :=
  TextBlock.mk "1. Introduction" 0 2 "Heading 2" 1.

(** A block marked as a level-1 heading whose text is empty. *)
Definition marked_blank_block : TextBlock.t := TextBlock.mk "" 0 1 "" 1.

(** Three blank lines between two lines of a plain text file. *)
Definition sample_gap : list TextBlock.t :=
  extract_text_file false (Some ["first line"; ""; ""; ""; "second line"]).

(** A sentence of 89 characters, estimated at 22 tokens by the fallback. *)
Definition sample_sentence : string :=
  "The committee reviewed the quarterly figures and filed them with the yearly report today.".

(** A PDF of 20 pages of 18 such sentences each: 360 sentences, 32399
    characters with the newlines between the pages. *)
Definition sample_report : list TextBlock.t :=
  map (fun i => page_block (join " " (repeat sample_sentence 18)) (Z.of_nat i))
    (seq 1 20).

(** A Markdown file of three short sections. *)
Definition sample_markdown : list TextBlock.t :=
  extract_text_file true
    (Some ["# Alpha"; "First words here."; "# Beta"; "More words here.";
           "# Gamma"; "Last words here."]).

(** ** Vocabulary of the further properties *)

(** The block indices of a boundary list never decrease. *)
Fixpoint nondecreasing (l : list nat) : Prop :=
  match l with
  | [] => True
  | x :: r => Forall (fun y => (x <= y)%nat) r /\ nondecreasing r
  end.

(** The boundaries of [l] that lie at block index [k], in the order of [l]. *)
Definition at_index (k : nat) (l : list SectionBoundary.t)
  : list SectionBoundary.t :=
  filter (fun b => (SectionBoundary.index b =? k)%nat) l.

(** The entry of [document_structure] for a boundary. *)
Definition structure_entry (b : SectionBoundary.t) : string * Z * Z :=
  (clean_heading (SectionBoundary.heading b), SectionBoundary.level b,
   SectionBoundary.page b).

(** The confidences that the heuristics of [detect_boundaries] give. *)
Definition heuristic_confidences : list Q :=
  [0.3%Q; 0.7%Q; 0.8%Q; 0.85%Q; 0.9%Q; 0.95%Q].

(** The block that a boundary [b] was read from: its page, and either its
    heading mark, or one of the heuristic confidences with a level from 1
    to 4. *)
Definition boundary_of_block (b : SectionBoundary.t) (block : TextBlock.t)
  : Prop :=
  SectionBoundary.page b = TextBlock.page block
  /\ ((marked_heading block = true
       /\ SectionBoundary.confidence b = TextBlock.confidence block
       /\ SectionBoundary.level b = TextBlock.heading_level block
       /\ SectionBoundary.heading b
          = clean_heading (strip (TextBlock.text block)))
      \/ (marked_heading block = false
          /\ In (SectionBoundary.confidence b) heuristic_confidences
          /\ 1 <= SectionBoundary.level b <= 4
          /\ SectionBoundary.heading b
             = clean_heading (substring 0 120 (strip (TextBlock.text block))))).

(** A table block as [extract_docx] renders it. *)
Definition sample_table : TextBlock.t :=
  TextBlock.mk
    ("[TABLE]" ++ newline ++ "A | B" ++ newline ++ "[/TABLE]" ++ newline)%string
    0 0 "table" 0.

(** Every white-space character of [s] is a plain space, and no two of them
    are adjacent; [prev_ws] says that the character before [s] is white
    space. *)
Fixpoint tidy (s : string) (prev_ws : bool) : bool :=
  match s with
  | EmptyString => true
  | String c r =>
      if isspace c then Ascii.eqb c " " && negb prev_ws && tidy r true
      else tidy r false
  end.

(** [s], read after a character that is a sentence end or not according to
    [prev_end], ends with one of [.!?]. *)
Fixpoint ends_after (prev_end : bool) (s : string) : bool :=
  match s with
  | EmptyString => prev_end
  | String c r => ends_after (is_sentence_end c) r
  end.

(** [s] is not empty and its last character is one of [.!?]. *)
Definition ends_sentence (s : string) : bool := ends_after false s.

(** [s] does not start with white space. *)
Definition no_leading_space (s : string) : bool :=
  match s with
  | EmptyString => true
  | String c _ => negb (isspace c)
  end.

(** Every piece of [l] but the last ends a sentence; the first piece is read
    after a character described by [prev_end]. *)
Fixpoint non_last_end (prev_end : bool) (l : list string) : Prop :=
  match l with
  | [] => True
  | h :: rest =>
      match rest with
      | [] => True
      | _ :: _ => ends_after prev_end h = true /\ non_last_end false rest
      end
  end.

(** The summed lengths of the strings of [l]. *)
Definition total_len (l : list string) : Z :=
  fold_right (fun s acc => len s + acc) 0 l.

Section SplitterCoverage.

Variable count_tokens : string -> Z.

(** The sentences of the chunk [g] that are not carried over from [prev]. *)
Definition new_sentences (overlap : Z) (prev : option (list string))
    (g : list string) : list string :=
  skipn (List.length (carried count_tokens overlap prev)) g.

(** The new sentences of the chunks of [groups], chunk after chunk. *)
Fixpoint all_new (overlap : Z) (prev : option (list string))
    (groups : list (list string)) : list string :=
  match groups with
  | [] => []
  | g :: rest => new_sentences overlap prev g ++ all_new overlap (Some g) rest
  end.

End SplitterCoverage.

(** The summed token counts of a list of sections. *)
Definition section_tokens (l : list Sect.t) : Z :=
  fold_right (fun s acc => Sect.tokens s + acc) 0 l.

(** The first block index of a boundary list is where its sections start. *)
Definition first_index (boundaries : list SectionBoundary.t) : nat :=
  match boundaries with
  | b :: _ => SectionBoundary.index b
  | [] => 0
  end.

(** The blocks before the first boundary hold text that is not blank. *)
Definition has_preamble (blocks : list TextBlock.t)
    (boundaries : list SectionBoundary.t) : bool :=
  (0 <? first_index boundaries)%nat
  && nonempty (strip (blocks_to_text (firstn (first_index boundaries) blocks))).

(** A page range that is well formed within a document of [total] pages:
    both ends are 0 (no page known) or page numbers up to [total], in
    order. *)
Definition pages_in_order (total start_page end_page : Z) : Prop :=
  0 <= start_page <= end_page /\ end_page <= total.

(** The sections that the merge loop holds: the finished ones, then the
    buffer. *)
Definition held (st : list Sect.t * option Sect.t) : list Sect.t :=
  fst st ++ match snd st with Some b => [b] | None => [] end.

(** The sections of the Markdown sample. *)
Definition sample_sections : list Sect.t :=
  build_sections Fallback.count_tokens sample_markdown
    (detect_boundaries sample_markdown).

(** The page range of a section or of a chunk is well formed within the
    pages of [blocks]. *)
Definition section_pages_ok (blocks : list TextBlock.t) (s : Sect.t) : Prop :=
  pages_in_order (document_pages blocks) (Sect.start_page s) (Sect.end_page s).

Definition chunk_pages_ok (blocks : list TextBlock.t) (c : Chunk.t) : Prop :=
  pages_in_order (document_pages blocks) (Chunk.start_page c) (Chunk.end_page c).

(** [ext in SUPPORTED_EXTENSIONS] *)
Definition supported (ext : string) : bool :=
  existsb (String.eqb ext) SUPPORTED_EXTENSIONS.

(** ** Write output *)

(** ["0" * k] *)
Fixpoint zeros (k : nat) : string :=
  match k with
  | O => EmptyString
  | S k => String "0" (zeros k)
  end.

(** The format specification [0{width}d] of an f-string, as in
    [f"{n:03d}"]: the decimal digits, padded with zeros after the sign up
    to [width] characters. *)
Definition format_d (width : nat) (n : Z) : string :=
  let digits := str_of_nat (Z.abs_nat n) in
  if n <? 0
  then ("-" ++ zeros (width - 1 - String.length digits) ++ digits)%string
  else (zeros (width - String.length digits) ++ digits)%string.

(** [f"chunk_{chunk['id']:03d}.txt"] *)
Definition chunk_file (id : Z) : string :=
  ("chunk_" ++ format_d 3 id ++ ".txt")%string.

(** [f"f{file_idx:02d}_chunk_{chunk['id']:03d}.txt"] *)
Definition prefixed_chunk_file (file_idx id : Z) : string :=
  ("f" ++ format_d 2 file_idx ++ "_chunk_" ++ format_d 3 id ++ ".txt")%string.

(** [s.replace("\n", " ")] *)
Fixpoint replace_newlines (s : string) : string :=
  match s with
  | EmptyString => EmptyString
  | String c r =>
      String (if is_newline c then " "%char else c) (replace_newlines r)
  end.

(** [chunk["text"][:120].strip().replace("\n", " ")] *)
Definition first_line (text : string) : string :=
  replace_newlines (strip (substring 0 120 text)).

Module ChunkMeta.
(** The entries of [chunk_metadata] and [file_chunks]; the latter have the
    global chunk id as [id] and the id within the file as [local_id], a key
    that the former do not have. *)
Record t := mk
  { id : Z; local_id : option Z; file : string; token_count : Z;
    start_page : Z; end_page : Z; heading : string; first_line : string }.
End ChunkMeta.

(** A file written with [open(path, "w")]: its name within the [chunks]
    directory and its content. *)
Definition FileWrite : Type := (string * string)%type.

(** The content of the file [path] after the writes of [writes], made from
    left to right, in a directory that did not hold it. *)
Definition written (writes : list FileWrite) (path : string) : option string :=
  match find (fun w => String.eqb (fst w) path) (rev writes) with
  | Some w => Some (snd w)
  | None => None
  end.

(** The [for chunk in result["chunks"]] loop of [write_single_file_output]:
    the files written and the entries of [chunk_metadata]. *)
Definition single_writes (r : Result.t) : list FileWrite :=
  map (fun c => (chunk_file (Chunk.id c), Chunk.text c)) (Result.chunks r).

Definition single_metadata (r : Result.t) : list ChunkMeta.t :=
  map (fun c =>
         ChunkMeta.mk (Chunk.id c) None
           ("chunks/" ++ chunk_file (Chunk.id c))%string
           (Chunk.tokens c) (Chunk.start_page c) (Chunk.end_page c)
           (Chunk.heading c) (first_line (Chunk.text c)))
      (Result.chunks r).

(** The inner loop of [write_multi_file_output] for the file of index
    [file_idx], with [global_chunk_id] as the previous files left it: the
    files written, the entries of [file_chunks] and the counter at the
    end. *)
Fixpoint file_chunks (file_idx : Z) (global_chunk_id : Z) (chunks : list Chunk.t)
  : list FileWrite * list ChunkMeta.t * Z :=
  match chunks with
  | [] => ([], [], global_chunk_id)
  | c :: rest =>
      let global_chunk_id := global_chunk_id + 1 in
      let chunk_file := prefixed_chunk_file file_idx (Chunk.id c) in
      let '(ws, ms, final) := file_chunks file_idx global_chunk_id rest in
      ((chunk_file, Chunk.text c) :: ws,
       ChunkMeta.mk global_chunk_id (Some (Chunk.id c))
         ("chunks/" ++ chunk_file)%string
         (Chunk.tokens c) (Chunk.start_page c) (Chunk.end_page c)
         (Chunk.heading c) (first_line (Chunk.text c)) :: ms,
       final)
  end.

(** The outer loop, [for file_idx, result in enumerate(results, start=1)],
    from [file_idx] on: the files written, the chunk entries of each file
    and [total_chunks]. *)
Fixpoint multi_files (file_idx : Z) (global_chunk_id : Z)
    (results : list Result.t)
  : list FileWrite * list (list ChunkMeta.t) * Z :=
  match results with
  | [] => ([], [], global_chunk_id)
  | r :: rest =>
      let '(ws, ms, next) :=
        file_chunks file_idx global_chunk_id (Result.chunks r) in
      let '(wss, mss, total) := multi_files (file_idx + 1) next rest in
      (ws ++ wss, ms :: mss, total)
  end.

Definition write_multi_file_output (results : list Result.t)
  : list FileWrite * list (list ChunkMeta.t) * Z :=
  multi_files 1 0 results.

(** The number that a string of decimal digits stands for. *)
Definition decimal_value (s : string) : option nat :=
  option_map Nat.of_uint (NilEmpty.uint_of_string s).

Fixpoint all_digits (s : string) : bool :=
  match s with
  | EmptyString => true
  | String c r => isdigit c && all_digits r
  end.

(** The ids [first + 1], ..., [first + n]. *)
Definition ids_after (first : Z) (n : nat) : list Z :=
  map (fun k => first + Z.of_nat k) (seq 1 n).

(** The chunks of [r] carry the ids 1, 2, ..., as both chunkers number
    them. *)
Definition numbered (r : Result.t) : Prop :=
  map Chunk.id (Result.chunks r) = ids_upto (List.length (Result.chunks r)).

(** The chunks of all the files, in order. *)
Definition total_chunk_count (results : list Result.t) : nat :=
  List.length (List.concat (map Result.chunks results)).

(** No line feed in [s]. *)
Fixpoint no_newline (s : string) : bool :=
  match s with
  | EmptyString => true
  | String c r => negb (is_newline c) && no_newline r
  end.

(** Two processed files: the one-page PDF sample and the Markdown sample. *)
Definition sample_results : list Result.t :=
  match extract_and_chunk Fallback.count_tokens double_page_offset ".pdf"
          sample_pdf 4 2,
        extract_and_chunk Fallback.count_tokens double_page_offset ".md"
          sample_markdown 4000 200 with
  | Some r1, Some r2 => [r1; r2]
  | _, _ => []
  end.

(** The pages of the blocks go up strictly, from above [prev]. *)
Fixpoint pages_increasing (prev : Z) (blocks : list TextBlock.t) : Prop :=
  match blocks with
  | [] => True
  | b :: rest =>
      prev < TextBlock.page b /\ pages_increasing (TextBlock.page b) rest
  end.

(** [s.count(c)] *)
Fixpoint count_char (c : ascii) (s : string) : Z :=
  match s with
  | EmptyString => 0
  | String x r => (if Ascii.eqb x c then 1 else 0) + count_char c r
  end.

(** A machine with pdftotext only, which prints three pages of which the
    second is empty. *)
Definition sample_pdftotext_world : PdfWorld :=
  mkPdfWorld None None true
    (fun _ =>
       Some (0, ("Page one." ++ String form_feed (String form_feed "Page three."))%string)).

(** ** Text extraction: DOCX

    What python-docx reads from the file is a parameter of the model. *)

Module Docx.
(** [para.style]: [None], a style whose [name] is [None], or a named style. *)
Inductive Style := NoStyle | Unnamed | Named (name : string).
Record Paragraph := mkParagraph { text : string; style : Style }.
(** The rows of a table, each one the texts of its cells. *)
Definition Table : Type := list (list string).
Record Document := mkDocument
  { paragraphs : list Paragraph; tables : list Table }.
End Docx.

(** [s.replace(old, "")] for a non-empty [old], from left to right; [skip]
    characters of the occurrence found last are still to be dropped. *)
Fixpoint remove_from (old s : string) (skip : nat) : string :=
  match s with
  | EmptyString => EmptyString
  | String c r =>
      match skip with
      | S k => remove_from old r k
      | O =>
          if String.prefix old s
          then remove_from old r (String.length old - 1)
          else String c (remove_from old r 0)
      end
  end.

Definition remove_all (old s : string) : string := remove_from old s 0.

(** The digits of a decimal literal as [int] accepts it: digits, with single
    underscores between them; [prev_digit] says that the character before
    [s] is a digit. *)
Fixpoint digits_of (s : string) (prev_digit : bool) : option string :=
  match s with
  | EmptyString => if prev_digit then Some EmptyString else None
  | String c r =>
      if isdigit c then option_map (String c) (digits_of r true)
      else if Ascii.eqb c "_" && prev_digit then digits_of r false
      else None
  end.

(** [int(s)] for a [str]; [None] is [ValueError]. White space around the
    literal is allowed, then a sign, then the digits, of which there are at
    most 4300 (the interpreter's default limit for the conversion). *)
Definition int_of_str (s : string) : option Z :=
  let s := strip s in
  let '(negative, body) :=
    match s with
    | String "-" r => (true, r)
    | String "+" r => (false, r)
    | _ => (false, s)
    end in
  match digits_of body false with
  | Some ds =>
      if (String.length ds <=? 4300)%nat then
        match NilEmpty.uint_of_string ds with
        | Some d =>
            let n := Z.of_nat (Nat.of_uint d) in
            Some (if negative then - n else n)
        | None => None
        end
      else None
  | None => None
  end.

(** The body of [for para in doc.paragraphs]; [None] is the
    [AttributeError] of [style_name.startswith] on a style without name. *)
Definition paragraph_block (para : Docx.Paragraph) : option TextBlock.t :=
  let text := strip (Docx.text para) in
  if negb (nonempty text) then Some (TextBlock.mk newline 0 0 "blank" 0)
  else
    match (match Docx.style para with
           | Docx.Named name => Some name
           | Docx.NoStyle => Some ""
           | Docx.Unnamed => None
           end) with
    | None => None
    | Some style_name =>
        let '(heading_level, confidence) :=
          if String.prefix "Heading" style_name then
            (match int_of_str (strip (remove_all "Heading" style_name)) with
             | Some n => n
             | None => 1
             end, 1%Q)
          else if String.eqb style_name "Title" || String.eqb style_name "Subtitle"
          then ((if String.eqb style_name "Title" then 1 else 2), 1%Q)
          else (0, 0%Q) in
        Some (TextBlock.mk text 0 heading_level style_name confidence)
    end.

Fixpoint paragraph_blocks (paragraphs : list Docx.Paragraph)
  : option (list TextBlock.t) :=
  match paragraphs with
  | [] => Some []
  | para :: rest =>
      match paragraph_block para with
      | Some block => option_map (cons block) (paragraph_blocks rest)
      | None => None
      end
  end.

(** The body of [for table in doc.tables]. *)
Definition table_block (table : Docx.Table) : TextBlock.t :=
  let table_text :=
    fold_left
      (fun table_text cells =>
         (table_text ++ join " | " (map strip cells) ++ newline)%string)
      table ("[TABLE]" ++ newline)%string in
  TextBlock.mk (table_text ++ "[/TABLE]" ++ newline)%string 0 0 "table" 0.

(** [extract_docx]: [DocxDocument] is [None] when python-docx is not
    installed; opening or reading the file may raise, which is [None]. *)
Definition extract_docx (DocxDocument : option (string -> option Docx.Document))
    (filepath : string) : list TextBlock.t :=
  match DocxDocument with
  | None => []
  | Some open =>
      match open filepath with
      | Some doc =>
          match paragraph_blocks (Docx.paragraphs doc) with
          | Some blocks => blocks ++ map table_block (Docx.tables doc)
          | None => []   (* except Exception *)
          end
      | None => []
      end
  end.

(** The styles that mark a paragraph as a heading, with the level that each
    one gives. *)
Definition heading_style_level (name : string) (level : Z) : Prop :=
  (name = "Title" /\ level = 1)
  \/ (name = "Subtitle" /\ level = 2)
  \/ (exists k : nat,
         (1 <= k)%nat
         /\ (String.length (str_of_nat k) <= 4300)%nat
         /\ name = ("Heading " ++ str_of_nat k)%string
         /\ level = Z.of_nat k).

(** A document of a title, three headed paragraphs and a table. *)
Definition sample_docx : Docx.Document :=
  Docx.mkDocument
    [Docx.mkParagraph "Quarterly report" (Docx.Named "Title");
     Docx.mkParagraph "  " Docx.Unnamed;
     Docx.mkParagraph "Results" (Docx.Named "Heading 1");
     Docx.mkParagraph "The results of the quarter are in the table below."
       (Docx.Named "Normal");
     Docx.mkParagraph "Outlook" (Docx.Named "Heading 2");
     Docx.mkParagraph "Next quarter looks much the same." Docx.NoStyle]
    [[["Item"; " Amount "]; ["Sales"; "12"]]].

(** The same document with a last paragraph whose style has no name. *)
Definition sample_docx_unnamed : Docx.Document :=
  Docx.mkDocument
    (Docx.paragraphs sample_docx ++ [Docx.mkParagraph "Appendix" Docx.Unnamed])
    (Docx.tables sample_docx).

(** No character of [s] is white space. *)
Fixpoint no_space (s : string) : bool :=
  match s with
  | EmptyString => true
  | String c r => negb (isspace c) && no_space r
  end.

(** * Properties *)

(** ** Token Estimator *)

Lemma len_nonneg (s : string) : 0 <= len s.
Proof. unfold len. lia. Qed.

Lemma count_tokens_nonneg (s : string) : 0 <= Fallback.count_tokens s.
Proof.
  unfold Fallback.count_tokens. apply Z.div_pos; [apply len_nonneg | lia].
Qed.

(** C5, as stated, fails: on the empty string the approximate estimator
    returns 0, and [max(1, 0 // 4)] is 1. *)
Lemma count_tokens_empty_is_zero :
  Fallback.count_tokens "" = 0
  /\ Fallback.count_tokens "" <> Z.max 1 (len "" / 4).
Proof. split; [reflexivity | vm_compute; discriminate]. Qed.

(** C5, amended: the approximate estimator returns the floor of a quarter of
    the length in characters; the value is at least 1 exactly for the texts
    of four characters or more, and it is 0 on the empty string. *)
Theorem count_tokens_quarter_length :
  forall text : string,
    Fallback.count_tokens text = len text / 4
    /\ (1 <= Fallback.count_tokens text <-> 4 <= len text)
    /\ Fallback.count_tokens "" = 0.
Proof.
  intros text. unfold Fallback.count_tokens.
  pose proof (len_nonneg text) as Hl.
  split; [reflexivity | split; [| reflexivity]].
  split; intros H.
  - destruct (Z_lt_le_dec (len text) 4) as [Hlt | Hge]; [| exact Hge].
    rewrite Z.div_small in H by lia. lia.
  - apply Z.div_le_lower_bound; lia.
Qed.

(** ** The PDF cascade *)

Lemma failed_backends_empty (w : PdfWorld) (filepath : string) :
  (pymupdf_fails w filepath -> extract_pdf_pymupdf w filepath = [])
  /\ (pdfplumber_fails w filepath -> extract_pdf_pdfplumber w filepath = [])
  /\ (pdftotext_fails w filepath -> extract_pdf_pdftotext w filepath = []).
Proof.
  unfold pymupdf_fails, pdfplumber_fails, pdftotext_fails.
  unfold extract_pdf_pymupdf, extract_pdf_pdfplumber, extract_pdf_pdftotext.
  repeat split.
  - destruct (fitz w) as [open |]; [intros -> |]; reflexivity.
  - destruct (pdfplumber w) as [open |]; [intros -> |]; reflexivity.
  - intros [-> | ->]; [reflexivity |].
    destruct (which_pdftotext w); reflexivity.
Qed.

(** C7. The cascade runs the three backends in the fixed order PyMuPDF,
    pdfplumber, pdftotext; it returns the result of the first one whose blocks
    sum to more than 100 characters, and the result of the last one, whatever
    it is, when none does. It is a total function: a backend that is missing
    or whose library raises contributes the empty list, so when all three
    fail the caller gets the empty list and no exception. *)
Theorem extract_pdf_cascade :
  forall (w : PdfWorld) (filepath : string),
    let r1 := extract_pdf_pymupdf w filepath in
    let r2 := extract_pdf_pdfplumber w filepath in
    let r3 := extract_pdf_pdftotext w filepath in
    (usable r1 -> extract_pdf w filepath = r1)
    /\ (~ usable r1 -> usable r2 -> extract_pdf w filepath = r2)
    /\ (~ usable r1 -> ~ usable r2 -> extract_pdf w filepath = r3)
    /\ (pymupdf_fails w filepath -> pdfplumber_fails w filepath ->
        pdftotext_fails w filepath -> extract_pdf w filepath = []).
Proof.
  intros w filepath r1 r2 r3.
  destruct (failed_backends_empty w filepath) as (F1 & F2 & F3).
  unfold usable, extract_pdf. simpl. fold r1 r2 r3.
  repeat split.
  - intros H. apply Z.ltb_lt in H. now rewrite H.
  - intros H1 H2. apply Z.ltb_nlt in H1. apply Z.ltb_lt in H2.
    now rewrite H1, H2.
  - intros H1 H2. apply Z.ltb_nlt in H1. apply Z.ltb_nlt in H2.
    rewrite H1, H2. now destruct (100 <? sum_chars r3).
  - intros H1 H2 H3. subst r1 r2 r3.
    rewrite (F1 H1), (F2 H2), (F3 H3). reflexivity.
Qed.

Lemma extract_pdf_cascade_witness :
  ~ usable (extract_pdf_pymupdf sample_world "a.pdf")
  /\ usable (extract_pdf_pdfplumber sample_world "a.pdf")
  /\ extract_pdf sample_world "a.pdf" = extract_pdf_pdfplumber sample_world "a.pdf".
Proof.
  assert (H1 : ~ usable (extract_pdf_pymupdf sample_world "a.pdf"))
    by (unfold usable; vm_compute; discriminate).
  assert (H2 : usable (extract_pdf_pdfplumber sample_world "a.pdf"))
    by (unfold usable; vm_compute; reflexivity).
  split; [exact H1 | split; [exact H2 |]].
  exact (proj1 (proj2 (extract_pdf_cascade sample_world "a.pdf")) H1 H2).
Defined.

(** ** Chunk ids *)

Lemma ids_from_shift (i n : nat) :
  map (fun k => Z.of_nat k + 1) (seq i n) = map Z.of_nat (seq (S i) n).
Proof.
  revert i. induction n as [| n IH]; intros i; simpl; [reflexivity |].
  rewrite IH. f_equal. lia.
Qed.

Lemma enumerate_from_length {A : Type} (i : nat) (l : list A) :
  List.length (enumerate_from i l) = List.length l.
Proof.
  revert i. induction l as [| x l IH]; intros i; simpl; [| rewrite IH]; reflexivity.
Qed.

Lemma number_chunks_length (merged : list Sect.t) :
  List.length (number_chunks merged) = List.length merged.
Proof.
  unfold number_chunks. now rewrite length_map, enumerate_from_length.
Qed.

Lemma number_chunks_ids (merged : list Sect.t) :
  map Chunk.id (number_chunks merged) = ids_upto (List.length merged).
Proof.
  unfold number_chunks, ids_upto. rewrite <- ids_from_shift.
  generalize 0%nat. induction merged as [| x l IH]; intros i; simpl.
  - reflexivity.
  - now rewrite IH.
Qed.

Section ChunkIds.

Variable count_tokens : string -> Z.
Variable page_offset : Z -> Z -> Z -> Z.

Lemma token_chunks_length (tc tp ppc : Z) (i : nat) (off : Z) (l : list string) :
  List.length (token_chunks count_tokens page_offset tc tp ppc i off l)
  = List.length l.
Proof.
  revert i off. induction l as [| x l IH]; intros i off; simpl;
    [| rewrite IH]; reflexivity.
Qed.

Lemma token_chunks_ids (tc tp ppc : Z) (i : nat) (off : Z) (l : list string) :
  map Chunk.id (token_chunks count_tokens page_offset tc tp ppc i off l)
  = map (fun k => Z.of_nat k + 1) (seq i (List.length l)).
Proof.
  revert i off. induction l as [| x l IH]; intros i off; simpl.
  - reflexivity.
  - now rewrite IH.
Qed.

Lemma chunk_by_structure_ids blocks boundaries max_tokens overlap :
  let chunks := chunk_by_structure count_tokens blocks boundaries max_tokens overlap in
  map Chunk.id chunks = ids_upto (List.length chunks).
Proof.
  unfold chunk_by_structure. destruct boundaries as [| b bs]; [reflexivity |].
  cbv zeta. now rewrite number_chunks_length, number_chunks_ids.
Qed.

Lemma chunk_by_tokens_ids blocks max_tokens overlap :
  let chunks := chunk_by_tokens count_tokens page_offset blocks max_tokens overlap in
  map Chunk.id chunks = ids_upto (List.length chunks).
Proof.
  unfold chunk_by_tokens. cbv zeta.
  rewrite token_chunks_length, token_chunks_ids. apply ids_from_shift.
Qed.

Lemma extract_and_chunk_some ext blocks max_tokens overlap r :
  extract_and_chunk count_tokens page_offset ext blocks max_tokens overlap = Some r ->
  existsb (String.eqb ext) SUPPORTED_EXTENSIONS = true
  /\ 50 <= sum_chars blocks
  /\ let high_conf := high_confidence (detect_boundaries blocks) in
     (Result.chunking_mode r, Result.chunks r)
     = if (3 <=? List.length high_conf)%nat
       then ("structure_aware",
             chunk_by_structure count_tokens blocks high_conf max_tokens overlap)
       else ("token_based",
             chunk_by_tokens count_tokens page_offset blocks max_tokens overlap).
Proof.
  unfold extract_and_chunk.
  destruct (existsb (String.eqb ext) SUPPORTED_EXTENSIONS); cbn [negb];
    [| discriminate].
  destruct (Z.ltb_spec (sum_chars blocks) 50) as [H | H]; [discriminate |].
  destruct (3 <=? List.length (high_confidence (detect_boundaries blocks)))%nat;
    intros E; injection E as <-; cbn; repeat split; lia.
Qed.

(** C9. In both chunking modes the ids of the emitted chunks are
    1, 2, ..., n in list order, n being the number of chunks; so are the ids
    of the chunk list of every processed file. *)
Theorem chunk_ids_contiguous :
  forall (blocks : list TextBlock.t) (max_tokens overlap : Z),
    (forall boundaries,
        let chunks :=
          chunk_by_structure count_tokens blocks boundaries max_tokens overlap in
        map Chunk.id chunks = ids_upto (List.length chunks))
    /\ (let chunks :=
          chunk_by_tokens count_tokens page_offset blocks max_tokens overlap in
        map Chunk.id chunks = ids_upto (List.length chunks))
    /\ (forall ext r,
          extract_and_chunk count_tokens page_offset ext blocks max_tokens overlap
          = Some r ->
          map Chunk.id (Result.chunks r)
          = ids_upto (List.length (Result.chunks r))).
Proof.
  intros blocks max_tokens overlap. split; [| split].
  - intros boundaries. apply chunk_by_structure_ids.
  - apply chunk_by_tokens_ids.
  - intros ext r H. apply extract_and_chunk_some in H.
    destruct H as (_ & _ & H). cbv zeta in H.
    destruct (3 <=? List.length (high_confidence (detect_boundaries blocks)))%nat;
      injection H as _ ->.
    + apply chunk_by_structure_ids.
    + apply chunk_by_tokens_ids.
Qed.

(** C3. For every processed block sequence: when at least three of the
    detected boundaries have confidence 0.7 or more, the reported mode is
    "structure_aware" and the chunks are those of the structure-aware chunker
    on these boundaries; otherwise the mode is "token_based" and the chunks
    are those of the token-based chunker on the whole block sequence. *)
Theorem chunking_mode_selection :
  forall (ext : string) (blocks : list TextBlock.t) (max_tokens overlap : Z)
         (r : Result.t),
    extract_and_chunk count_tokens page_offset ext blocks max_tokens overlap
    = Some r ->
    let high_conf := high_confidence (detect_boundaries blocks) in
    ((3 <= List.length high_conf)%nat ->
       Result.chunking_mode r = "structure_aware"
       /\ Result.chunks r
          = chunk_by_structure count_tokens blocks high_conf max_tokens overlap)
    /\ ((List.length high_conf < 3)%nat ->
       Result.chunking_mode r = "token_based"
       /\ Result.chunks r
          = chunk_by_tokens count_tokens page_offset blocks max_tokens overlap).
Proof.
  intros ext blocks max_tokens overlap r H high_conf.
  apply extract_and_chunk_some in H. destruct H as (_ & _ & H).
  cbv zeta in H. fold high_conf in H.
  destruct (Nat.leb_spec 3 (List.length high_conf)) as [Hn | Hn];
    injection H as -> ->; split; intros Hc; try lia; split; reflexivity.
Qed.

End ChunkIds.

(** The witnesses of the two theorems above, on the Markdown sample. *)
Lemma chunk_ids_contiguous_witness :
  exists r,
    extract_and_chunk Fallback.count_tokens double_page_offset ".md"
      sample_markdown 4000 200 = Some r
    /\ map Chunk.id (Result.chunks r) = ids_upto (List.length (Result.chunks r)).
Proof.
  eexists. split; [vm_compute; reflexivity |].
  apply (proj2 (proj2 (chunk_ids_contiguous Fallback.count_tokens
                         double_page_offset sample_markdown 4000 200)))
    with (ext := ".md").
  vm_compute. reflexivity.
Defined.

Lemma chunking_mode_selection_witness :
  exists r,
    extract_and_chunk Fallback.count_tokens double_page_offset ".md"
      sample_markdown 4000 200 = Some r
    /\ (3 <= List.length (high_confidence (detect_boundaries sample_markdown)))%nat
    /\ Result.chunking_mode r = "structure_aware".
Proof.
  eexists. split; [vm_compute; reflexivity |].
  assert (H3 : (3 <= List.length
                       (high_confidence (detect_boundaries sample_markdown)))%nat)
    by (vm_compute; lia).
  split; [exact H3 |].
  refine (proj1 (proj1 (chunking_mode_selection Fallback.count_tokens
                          double_page_offset ".md" sample_markdown 4000 200 _ _)
                   H3)).
  vm_compute. reflexivity.
Defined.

(** ** Recorded token counts *)

Section Tokens.

Variable count_tokens : string -> Z.
Variable page_offset : Z -> Z -> Z -> Z.

(** The fallback chunker and the pieces of a split section record the
    estimator's value on the very text they emit. *)
Lemma token_chunks_fresh (tc tp ppc : Z) (i : nat) (off : Z) (l : list string) :
  Forall (tokens_fresh count_tokens)
    (token_chunks count_tokens page_offset tc tp ppc i off l).
Proof.
  revert i off. induction l as [| x l IH]; intros i off; simpl; constructor.
  - reflexivity.
  - apply IH.
Qed.

Lemma chunk_by_tokens_fresh blocks max_tokens overlap :
  Forall (tokens_fresh count_tokens)
    (chunk_by_tokens count_tokens page_offset blocks max_tokens overlap).
Proof. apply token_chunks_fresh. Qed.

Lemma split_section_fresh (section : Sect.t) (sub_chunks : list string) :
  Forall (fun s => Sect.tokens s = count_tokens (Sect.text s))
    (split_section count_tokens section sub_chunks).
Proof.
  unfold split_section. generalize (List.length sub_chunks). generalize 0%nat.
  induction sub_chunks as [| x l IH]; intros i n; simpl; constructor.
  - reflexivity.
  - apply IH.
Qed.

End Tokens.

(** C1, at a Markdown file of three short sections: the structure-aware
    chunker merges the three sections into one chunk whose text has 76
    characters, the two blank-line separators included, so that the
    estimator gives 19 for it; the chunk records 17, the sum of the three
    sections' counts. *)
Theorem merged_chunk_tokens_stale :
  exists r c,
    extract_and_chunk Fallback.count_tokens double_page_offset ".md"
      sample_markdown 4000 200 = Some r
    /\ Result.chunking_mode r = "structure_aware"
    /\ Result.chunks r = [c]
    /\ len (Chunk.text c) = 76
    /\ Chunk.tokens c = 17
    /\ Fallback.count_tokens (Chunk.text c) = 19
    /\ ~ tokens_fresh Fallback.count_tokens c.
Proof.
  eexists. eexists.
  split; [vm_compute; reflexivity |].
  repeat split; try (vm_compute; reflexivity).
  unfold tokens_fresh. vm_compute. discriminate.
Qed.

(** ** Page ranges of the token-based fallback *)

Lemma fold_left_max_ge (ps : list Z) (p : Z) : p <= fold_left Z.max ps p.
Proof.
  revert p. induction ps as [| q ps IH]; intros p; simpl; [lia |].
  specialize (IH (Z.max p q)). lia.
Qed.

Lemma max_or_one_positive (blocks : list TextBlock.t) :
  1 <= max_or 1 (positive_pages blocks).
Proof.
  unfold max_or. destruct (positive_pages blocks) as [| p ps] eqn:E; [lia |].
  assert (Hin : In p (positive_pages blocks)) by (rewrite E; now left).
  unfold positive_pages in Hin. apply filter_In in Hin.
  destruct Hin as [_ Hp]. apply Z.ltb_lt in Hp.
  pose proof (fold_left_max_ge ps p). lia.
Qed.

Lemma max_or_default (d d' : Z) (pages : list Z) :
  pages <> [] -> max_or d pages = max_or d' pages.
Proof. destruct pages; [congruence | reflexivity]. Qed.

(** C6. The 20-page sample, processed with the default budget
    ([max_tokens = 4000], [overlap = 200]) and the fallback estimator, is
    chunked in token-based mode into three chunks of 181, 181 and 16
    sentences, the second and the third starting with the nine sentences
    carried over. The start page of a chunk is scaled from the summed
    lengths of the chunks before it, 32578 characters for the third chunk,
    more than the 32399 characters of the document, and is not clamped to
    the page total as the end page is: the third chunk runs from page 21 to
    page 20 in a document of 20 pages. *)
Theorem token_chunk_start_page_unclamped :
  option_map
    (fun r =>
       (Result.chunking_mode r, Result.total_pages r,
        map (fun c => (Chunk.start_page c, Chunk.end_page c)) (Result.chunks r)))
    (extract_and_chunk Fallback.count_tokens double_page_offset ".pdf"
       sample_report 4000 200)
  = Some ("token_based", 20, [(1, 7); (11, 17); (21, 20)])
  /\ ~ Forall (page_range_within (document_pages sample_report))
         (chunk_by_tokens Fallback.count_tokens double_page_offset
            sample_report 4000 200).
Proof.
  split; [vm_compute; reflexivity |].
  intros H.
  apply Forall_forall with
    (x := nth 2 (chunk_by_tokens Fallback.count_tokens double_page_offset
                   sample_report 4000 200)
            (Chunk.mk 0 "" 0 "" 0 0 0)) in H.
  - vm_compute in H. destruct H as (H & _). apply H. reflexivity.
  - apply nth_In. vm_compute. reflexivity.
Qed.

Lemma token_chunks_page_range (count_tokens : string -> Z)
    (page_offset : Z -> Z -> Z -> Z) (tc T ppc : Z) (i : nat) (off : Z)
    (l : list string) :
  1 <= ppc ->
  Forall (fun c =>
            1 <= Chunk.start_page c
            /\ Chunk.end_page c <= T
            /\ (Chunk.start_page c <= T -> Chunk.start_page c <= Chunk.end_page c))
    (token_chunks count_tokens page_offset tc T ppc i off l).
Proof.
  intros Hppc. revert i off.
  induction l as [| x l IH]; intros i off; simpl; constructor.
  - simpl. repeat split; lia.
  - apply IH.
Qed.

(** What the loop does keep, whatever the rounding of the page estimate:
    with T the largest positive page number among the blocks, or 1 when no
    block carries one, every chunk has a start page of at least 1 and an end
    page of at most T, the clamped end, and its range is in order whenever
    the start page is within T. Nothing bounds the start page from above. *)
Lemma token_chunk_end_page_clamped :
  forall (count_tokens : string -> Z) (page_offset : Z -> Z -> Z -> Z)
         (blocks : list TextBlock.t) (max_tokens overlap : Z),
    let T := max_or 1 (positive_pages blocks) in
    1 <= T
    /\ (positive_pages blocks <> [] -> T = document_pages blocks)
    /\ Forall (fun c =>
                 1 <= Chunk.start_page c
                 /\ Chunk.end_page c <= T
                 /\ (Chunk.start_page c <= T ->
                     Chunk.start_page c <= Chunk.end_page c))
         (chunk_by_tokens count_tokens page_offset blocks max_tokens overlap).
Proof.
  intros count_tokens page_offset blocks max_tokens overlap T.
  split; [apply max_or_one_positive |].
  split; [intros H; apply max_or_default; exact H |].
  unfold chunk_by_tokens. cbv zeta. fold T.
  apply token_chunks_page_range. lia.
Qed.

(** ** The sentence splitter *)

Section Splitter.

Variable count_tokens : string -> Z.

Lemma sum_tokens_app (l1 l2 : list string) :
  sum_tokens count_tokens (l1 ++ l2) = sum_tokens count_tokens l1 + sum_tokens count_tokens l2.
Proof.
  induction l1 as [| x l1 IH]; simpl; [reflexivity | rewrite IH; lia].
Qed.

Lemma sum_tokens_rev (l : list string) : sum_tokens count_tokens (rev l) = sum_tokens count_tokens l.
Proof.
  induction l as [| x l IH]; simpl; [reflexivity |].
  rewrite sum_tokens_app, IH. simpl. lia.
Qed.

(** The backward walk takes a prefix [taken] of the reversed list and stops
    either at its end or at the first sentence that would exceed the
    budget. *)
Lemma overlap_walk_spec (rev_current : list string) (overlap : Z) :
  forall parts toks parts' toks',
    overlap_walk count_tokens rev_current overlap parts toks = (parts', toks') ->
    exists taken rest,
      rev_current = taken ++ rest
      /\ parts' = rev taken ++ parts
      /\ toks' = toks + sum_tokens count_tokens taken
      /\ (taken = [] \/ toks' <= overlap)
      /\ (rest = [] \/ exists s rest', rest = s :: rest'
                                       /\ overlap < toks' + count_tokens s).
Proof.
  induction rev_current as [| s l IH]; intros parts toks parts' toks' H; simpl in H.
  - injection H as <- <-. exists [], []. simpl. repeat split; auto; lia.
  - destruct (Z.ltb_spec overlap (toks + count_tokens s)) as [Hlt | Hge].
    + injection H as <- <-. exists [], (s :: l). simpl.
      repeat split; auto; try lia. right. now exists s, l.
    + apply IH in H. destruct H as (taken & rest & -> & -> & -> & Hb & Hr).
      exists (s :: taken), rest. simpl. rewrite <- app_assoc. simpl.
      repeat split; auto; try lia.
      right. destruct Hb as [-> | Hb]; simpl in *; lia.
Qed.

Lemma overlap_seed_spec (current : list string) (overlap : Z) :
  forall seed toks,
    overlap_seed count_tokens current overlap = (seed, toks) ->
    is_suffix seed current
    /\ toks = sum_tokens count_tokens seed
    /\ (seed = [] \/ toks <= overlap)
    /\ (seed = current
        \/ exists before s, current = before ++ s :: seed
                            /\ overlap < toks + count_tokens s).
Proof.
  intros seed toks H. unfold overlap_seed in H.
  apply overlap_walk_spec in H.
  destruct H as (taken & rest & Hrev & -> & -> & Hb & Hr).
  rewrite app_nil_r in *.
  assert (Hcur : current = rev rest ++ rev taken).
  { rewrite <- rev_app_distr, <- Hrev. now rewrite rev_involutive. }
  repeat split.
  - now exists (rev rest).
  - rewrite sum_tokens_rev. lia.
  - destruct Hb as [-> | Hb]; [now left | right; lia].
  - destruct Hr as [-> | (s & rest' & -> & Hs)].
    + left. now rewrite Hcur.
    + right. exists (rev rest'), s. split; [| lia].
      rewrite Hcur. simpl. now rewrite <- app_assoc.
Qed.

(** C4, as stated, fails. With the default budget the splitter carries
    nine sentences of the 20-page sample into the second chunk: their
    estimates, 22 tokens each, sum to 198, within the 200 of the budget, but
    the text carried, 809 characters, is estimated at 202 tokens. And with a
    negative [overlap] nothing is carried, which is 0 tokens, above the
    budget. *)
Lemma overlap_text_over_budget :
  ~ carried_text_within_budget Fallback.count_tokens
      (blocks_to_text sample_report) 4000 200
  /\ ~ carried_text_within_budget Fallback.count_tokens
         "abcd. efgh. ijkl." 2 (-1).
Proof.
  split; intros H.
  - specialize (H (repeat sample_sentence 181) sample_sentence
                  (repeat sample_sentence 178)).
    cbv zeta in H. destruct H as [_ H].
    + vm_compute. reflexivity.
    + vm_compute. reflexivity.
    + vm_compute in H. apply H. reflexivity.
  - specialize (H ["abcd."; "efgh."] "ijkl." []).
    cbv zeta in H. destruct H as [_ H].
    + reflexivity.
    + vm_compute. reflexivity.
    + vm_compute in H. apply H. reflexivity.
Qed.

(** C4, amended. Whenever an iteration of the splitter finalizes a chunk, the
    seed of the next chunk is made of the last sentences of the finalized
    chunk, in their original order; the new chunk is this seed followed by
    the incoming sentence, and its running count starts from the estimates
    of the seed's sentences, taken one by one. Either the seed is empty or
    these estimates sum to at most [overlap]; so they do for every [overlap]
    that is not negative. The walk stops only at the first sentence, going
    backward, that would exceed [overlap]. *)
Theorem overlap_seed_within_budget :
  forall (max_tokens overlap : Z) (st : SplitState) (sentence : string),
    finalizes count_tokens max_tokens (sp_current st) (sp_tokens st) sentence
    = true ->
    let st' := split_step count_tokens max_tokens overlap st sentence in
    exists seed,
      is_suffix seed (sp_current st)
      /\ sp_chunks st' = sp_chunks st ++ [join " " (sp_current st)]
      /\ sp_current st' = seed ++ [sentence]
      /\ sp_tokens st' = sum_tokens count_tokens seed + count_tokens sentence
      /\ (seed = [] \/ sum_tokens count_tokens seed <= overlap)
      /\ (0 <= overlap -> sum_tokens count_tokens seed <= overlap)
      /\ (seed = sp_current st
          \/ exists before s, sp_current st = before ++ s :: seed
                              /\ overlap < sum_tokens count_tokens seed + count_tokens s).
Proof.
  intros max_tokens overlap st sentence Hfin st'.
  subst st'. unfold split_step. rewrite Hfin.
  destruct (overlap_seed count_tokens (sp_current st) overlap) as [seed toks] eqn:E.
  apply overlap_seed_spec in E.
  destruct E as (Hsuf & -> & Hb & Hr).
  exists seed. simpl. split; [exact Hsuf |]. split; [reflexivity |].
  split; [reflexivity |]. split; [reflexivity |]. split; [exact Hb |].
  split; [| exact Hr].
  intros Hov. destruct Hb as [-> | Hb]; simpl; lia.
Qed.

(** *** The chunks as sentence lists *)

Lemma split_from_nonnil (s : string) (prev_end in_sep : bool) :
  split_from s prev_end in_sep <> [].
Proof.
  revert prev_end in_sep. induction s as [| c r IH]; intros prev_end in_sep; simpl.
  - discriminate.
  - destruct (isspace c && (in_sep || prev_end)).
    + destruct in_sep; [apply IH | discriminate].
    + destruct (split_from r (is_sentence_end c) false); discriminate.
Qed.

Lemma same_run_step (max_tokens overlap : Z) st gs (sentence : string) :
  same_run st gs ->
  same_run (split_step count_tokens max_tokens overlap st sentence)
           (group_step count_tokens max_tokens overlap gs sentence).
Proof.
  destruct gs as [[groups current] toks]. intros (Hc & Hcur & Ht).
  unfold split_step, group_step. rewrite Hcur, Ht.
  destruct (finalizes count_tokens max_tokens current toks sentence).
  - destruct (overlap_seed count_tokens current overlap) as [seed t'].
    simpl. rewrite Hc, map_app. simpl. repeat split; reflexivity.
  - simpl. rewrite Hc, Hcur, Ht. repeat split; reflexivity.
Qed.

Lemma same_run_fold (max_tokens overlap : Z) (sentences : list string) :
  forall st gs,
    same_run st gs ->
    same_run (fold_left (split_step count_tokens max_tokens overlap) sentences st)
             (fold_left (group_step count_tokens max_tokens overlap) sentences gs).
Proof.
  induction sentences as [| s l IH]; intros st gs H; simpl; [exact H |].
  apply IH. now apply same_run_step.
Qed.

Lemma groups_ok_replace_last (max_tokens overlap : Z) (g g' : list string) :
  (forall prev, group_ok count_tokens max_tokens overlap prev g ->
                group_ok count_tokens max_tokens overlap prev g') ->
  forall l prev,
    groups_ok count_tokens max_tokens overlap prev (l ++ [g]) ->
    groups_ok count_tokens max_tokens overlap prev (l ++ [g']).
Proof.
  intros Hg. induction l as [| x l IH]; intros prev; simpl.
  - intros [H _]. split; [now apply Hg | exact I].
  - intros [Hx H]. split; [exact Hx | now apply IH].
Qed.

Lemma groups_ok_extend (max_tokens overlap : Z) (g g' : list string) :
  group_ok count_tokens max_tokens overlap (Some g) g' ->
  forall l prev,
    groups_ok count_tokens max_tokens overlap prev (l ++ [g]) ->
    groups_ok count_tokens max_tokens overlap prev ((l ++ [g]) ++ [g']).
Proof.
  intros Hg. induction l as [| x l IH]; intros prev; simpl.
  - intros [H _]. repeat split; assumption.
  - intros [Hx H]. split; [exact Hx | now apply IH].
Qed.

Lemma run_invariant_step (max_tokens overlap : Z) seen gs (sentence : string) :
  run_invariant count_tokens max_tokens overlap seen gs ->
  run_invariant count_tokens max_tokens overlap (seen ++ [sentence])
    (group_step count_tokens max_tokens overlap gs sentence).
Proof.
  destruct gs as [[groups current] toks]. intros (Ht & Hinv).
  unfold group_step, finalizes.
  destruct Hinv as [(-> & -> & ->) | (Hne & Hok & Hseen)].
  - (* the first sentence *)
    rewrite andb_false_r. simpl. split; [simpl in Ht; lia |]. right.
    split; [discriminate |]. split.
    + simpl. split; [| exact I]. exists [sentence]. simpl.
      split; [discriminate |]. split; [reflexivity |]. right. now exists sentence.
    + intros s [<- | []]. exists [sentence]. simpl. auto.
  - destruct current as [| c0 cur]; [congruence |]. cbn [nonnil]. rewrite andb_true_r.
    destruct (Z.ltb_spec max_tokens (toks + count_tokens sentence)) as [Hlt | Hge].
    + (* a chunk is finalized *)
      destruct (overlap_seed count_tokens (c0 :: cur) overlap) as [seed t'] eqn:E.
      pose proof (overlap_seed_spec _ _ _ _ E) as (_ & Ht' & _).
      split; [rewrite sum_tokens_app; simpl; lia |]. right.
      split; [now destruct seed |]. split.
      * apply groups_ok_extend; [| exact Hok].
        exists [sentence]. split; [discriminate |]. split.
        -- simpl. now rewrite E.
        -- right. now exists sentence.
      * intros s Hs. apply in_app_or in Hs. destruct Hs as [Hs | [<- | []]].
        -- destruct (Hseen s Hs) as (g & Hg & Hsg). exists g. split; [| exact Hsg].
           apply in_or_app. now left.
        -- exists (seed ++ [sentence]). split; apply in_or_app; right; now left.
    + (* the sentence joins the current chunk *)
      split; [rewrite sum_tokens_app, <- Ht; simpl; lia |]. right.
      split; [discriminate |]. split.
      * apply groups_ok_replace_last with (g := c0 :: cur); [| exact Hok].
        intros prev (more & Hm & Hg & _). exists (more ++ [sentence]).
        split; [now destruct more |]. split.
        -- rewrite Hg. now rewrite <- app_assoc.
        -- left. rewrite sum_tokens_app, <- Ht. simpl. lia.
      * intros s Hs. apply in_app_or in Hs. destruct Hs as [Hs | [<- | []]].
        -- destruct (Hseen s Hs) as (g & Hg & Hsg).
           apply in_app_or in Hg. destruct Hg as [Hg | [<- | []]].
           ++ exists g. split; [apply in_or_app; now left | exact Hsg].
           ++ exists ((c0 :: cur) ++ [sentence]).
              split; [apply in_or_app; right; now left |].
              apply in_or_app. now left.
        -- exists ((c0 :: cur) ++ [sentence]).
           split; apply in_or_app; right; now left.
Qed.

Lemma run_invariant_fold (max_tokens overlap : Z) (sentences : list string) :
  forall seen gs,
    run_invariant count_tokens max_tokens overlap seen gs ->
    run_invariant count_tokens max_tokens overlap (seen ++ sentences)
      (fold_left (group_step count_tokens max_tokens overlap) sentences gs).
Proof.
  induction sentences as [| s l IH]; intros seen gs H; simpl.
  - now rewrite app_nil_r.
  - replace (seen ++ s :: l) with ((seen ++ [s]) ++ l)
      by (now rewrite <- app_assoc).
    apply IH. now apply run_invariant_step.
Qed.

(** C2, amended. The splitter is a total function that returns at least one
    chunk. Every chunk is the single-space join of a sentence list made of
    the overlap carried from the previous chunk (nothing for the first chunk)
    followed by at least one new sentence; the running count of the list, the
    sum of the estimates of its sentences, is at most [max_tokens] unless
    exactly one new sentence follows the carried overlap. Every sentence of
    the text is in one of the chunks. *)
Theorem split_chunks_running_budget :
  forall (text : string) (max_tokens overlap : Z),
    let groups := sentence_groups count_tokens text max_tokens overlap in
    split_text_by_tokens count_tokens text max_tokens overlap
    = map (join " ") groups
    /\ groups <> []
    /\ groups_ok count_tokens max_tokens overlap None groups
    /\ (forall s, In s (split_sentences text) ->
                  exists g, In g groups /\ In s g).
Proof.
  intros text max_tokens overlap.
  unfold sentence_groups, split_text_by_tokens. cbv zeta.
  pose proof (split_from_nonnil text false false) as Hne.
  fold (split_sentences text) in Hne.
  assert (Hsim : same_run (mkSplit [] [] 0) ([], [], 0))
    by (simpl; repeat split; reflexivity).
  assert (Hinv : run_invariant count_tokens max_tokens overlap [] ([], [], 0))
    by (simpl; split; [reflexivity | left; repeat split; reflexivity]).
  apply (same_run_fold max_tokens overlap (split_sentences text)) in Hsim.
  apply (run_invariant_fold max_tokens overlap (split_sentences text)) in Hinv.
  simpl app in Hinv.
  destruct (fold_left (group_step count_tokens max_tokens overlap)
              (split_sentences text) ([], [], 0)) as [[groups current] toks].
  destruct Hsim as (Hc & Hcur & _). destruct Hinv as (_ & Hinv).
  destruct Hinv as [(Hnil & _) | (Hcne & Hok & Hseen)]; [congruence |].
  rewrite Hcur, Hc.
  destruct current as [| c0 cur]; [congruence |]. cbn [nonnil].
  replace (map (join " ") groups ++ [join " " (c0 :: cur)])
    with (map (join " ") (groups ++ [c0 :: cur]))
    by (rewrite map_app; reflexivity).
  destruct (groups ++ [c0 :: cur]) as [| g gs] eqn:E.
  - now destruct groups.
  - cbn [map nonnil]. split; [reflexivity |]. split; [discriminate |].
    split; [exact Hok | exact Hseen].
Qed.

End Splitter.

Lemma overlap_seed_within_budget_witness :
  exists seed,
    is_suffix seed ["abcd."; "efgh."]
    /\ sp_current
         (split_step Fallback.count_tokens 2 1
            (mkSplit [] ["abcd."; "efgh."] 2) "ijkl.")
       = seed ++ ["ijkl."]
    /\ (seed = [] \/ sum_tokens Fallback.count_tokens seed <= 1).
Proof.
  destruct (overlap_seed_within_budget Fallback.count_tokens 2 1
              (mkSplit [] ["abcd."; "efgh."] 2) "ijkl.")
    as (seed & H1 & _ & H3 & _ & H5 & _).
  - vm_compute. reflexivity.
  - exists seed. repeat split; assumption.
Defined.

(** C2, as stated, fails, in two ways. With [max_tokens = 1] the two
    sentences of ["abc. de."] have estimates 1 and 0, so both go into one
    chunk, whose eight characters are estimated at 2. With [max_tokens = 2]
    and [overlap = 0] the sentence ["abcdefghijkl."], estimated at 3, is
    emitted together with the two sentences before it, which are estimated
    at 0 and are carried as overlap. *)
Lemma split_chunk_over_budget :
  ~ Forall (budget_respected Fallback.count_tokens (split_sentences "abc. de.") 1)
      (split_text_by_tokens Fallback.count_tokens "abc. de." 1 0)
  /\ ~ Forall (budget_respected Fallback.count_tokens
                 (split_sentences "Hi. Yo. abcdefghijkl. Go.") 2)
         (split_text_by_tokens Fallback.count_tokens
            "Hi. Yo. abcdefghijkl. Go." 2 0).
Proof.
  split; intros H; rewrite Forall_forall in H.
  - specialize (H "abc. de.").
    destruct H as [H | [H _]].
    + vm_compute. tauto.
    + vm_compute in H. apply H. reflexivity.
    + vm_compute in H. destruct H as [H | [H | []]]; discriminate.
  - specialize (H "Hi. Yo. abcdefghijkl.").
    destruct H as [H | [H _]].
    + vm_compute. tauto.
    + vm_compute in H. apply H. reflexivity.
    + vm_compute in H. destruct H as [H | [H | [H | [H | []]]]]; discriminate.
Qed.

(** ** The boundary scan *)

Lemma detect_from_app (l1 l2 : list TextBlock.t) :
  forall i blank_count,
    detect_from i blank_count (l1 ++ l2)
    = detect_from i blank_count l1
      ++ detect_from (i + List.length l1) (blank_after blank_count l1) l2.
Proof.
  induction l1 as [| block l1 IH]; intros i bc; simpl.
  - now rewrite Nat.add_0_r.
  - unfold blank.
    replace (i + S (List.length l1))%nat with (S i + List.length l1)%nat by lia.
    destruct (marked_heading block); [simpl; now rewrite IH |].
    destruct (nonempty (strip (TextBlock.text block))); simpl; [| now rewrite IH].
    destruct (classify (strip (TextBlock.text block)) bc) as [conf lvl].
    destruct (Qle_bool conf 0); simpl; now rewrite IH.
Qed.

Lemma blank_after_nonneg (l : list TextBlock.t) :
  forall blank_count, 0 <= blank_count -> 0 <= blank_after blank_count l.
Proof.
  induction l as [| block l IH]; intros bc Hbc; simpl; [exact Hbc |].
  destruct (marked_heading block); [apply IH; lia |].
  destruct (blank block); apply IH; lia.
Qed.

(** A run of unmarked blank blocks gives no boundary and adds its length to
    the counter. *)
Lemma detect_from_blanks (blanks : list TextBlock.t) :
  Forall (fun b => marked_heading b = false /\ blank b = true) blanks ->
  forall i blank_count,
    detect_from i blank_count blanks = []
    /\ blank_after blank_count blanks
       = blank_count + Z.of_nat (List.length blanks).
Proof.
  induction 1 as [| block blanks [Hm Hb] _ IH]; intros i bc; simpl.
  - split; [reflexivity | lia].
  - rewrite Hm, Hb. unfold blank in Hb. rewrite Hb.
    destruct (IH (S i) (bc + 1)) as [-> ->]. split; [reflexivity | lia].
Qed.

(** Every boundary found from index [i] on lies at an index from [i] on,
    at a block that is marked as a heading or is not blank. *)
Lemma detect_from_sound (blocks : list TextBlock.t) :
  forall i blank_count b,
    In b (detect_from i blank_count blocks) ->
    exists block,
      (i <= SectionBoundary.index b)%nat
      /\ nth_error blocks (SectionBoundary.index b - i) = Some block
      /\ (marked_heading block = true \/ blank block = false).
Proof.
  induction blocks as [| block rest IH]; intros i bc b Hin; simpl in Hin.
  - contradiction.
  - assert (Hrest : forall bc', In b (detect_from (S i) bc' rest) ->
              exists block0,
                (i <= SectionBoundary.index b)%nat
                /\ nth_error (block :: rest) (SectionBoundary.index b - i)
                   = Some block0
                /\ (marked_heading block0 = true \/ blank block0 = false)).
    { intros bc' H. apply IH in H. destruct H as (block0 & Hi & Hn & Hb).
      exists block0. split; [lia |]. split; [| exact Hb].
      replace (SectionBoundary.index b - i)%nat
        with (S (SectionBoundary.index b - S i)) by lia.
      exact Hn. }
    assert (Hhere : SectionBoundary.index b = i ->
              marked_heading block = true \/ blank block = false ->
              exists block0,
                (i <= SectionBoundary.index b)%nat
                /\ nth_error (block :: rest) (SectionBoundary.index b - i)
                   = Some block0
                /\ (marked_heading block0 = true \/ blank block0 = false)).
    { intros -> Hb. exists block. rewrite Nat.sub_diag. auto. }
    destruct (marked_heading block) eqn:Hm.
    + destruct Hin as [<- | Hin]; [apply Hhere; auto | eauto].
    + destruct (nonempty (strip (TextBlock.text block))) eqn:Hne; simpl in Hin;
        [| eauto].
      destruct (classify (strip (TextBlock.text block)) bc) as [conf lvl].
      destruct (Qle_bool conf 0); simpl in Hin; [eauto |].
      destruct Hin as [<- | Hin]; [| eauto].
      apply Hhere; [reflexivity |]. right. unfold blank. now rewrite Hne.
Qed.

Lemma detect_from_increasing (blocks : list TextBlock.t) :
  forall i blank_count,
    strictly_increasing
      (map SectionBoundary.index (detect_from i blank_count blocks)).
Proof.
  induction blocks as [| block rest IH]; intros i bc; simpl; [exact I |].
  assert (Hcons : forall bc' b,
             SectionBoundary.index b = i ->
             strictly_increasing
               (map SectionBoundary.index (b :: detect_from (S i) bc' rest))).
  { intros bc' b Hb. simpl. split; [| apply IH].
    rewrite Forall_forall. intros y Hy. apply in_map_iff in Hy.
    destruct Hy as (b' & <- & Hb'). apply detect_from_sound in Hb'.
    destruct Hb' as (_ & Hle & _). lia. }
  destruct (marked_heading block); [now apply Hcons |].
  destruct (nonempty (strip (TextBlock.text block))); cbn [negb]; [| apply IH].
  destruct (classify (strip (TextBlock.text block)) bc) as [conf lvl].
  destruct (Qle_bool conf 0); cbn [negb]; [apply IH | now apply Hcons].
Qed.

Lemma classify_blank_run (text : string) (blank_count : Z) :
  Qeq_bool (fst (classify text 0)) 0 = true ->
  3 <= blank_count ->
  classify text blank_count = (0.3%Q, 1).
Proof.
  unfold classify.
  destruct (match_patterns SECTION_PATTERNS text 0 1) as [best lvl].
  destruct (if all_caps_header best text then (0.7%Q, 1) else (best, lvl))
    as [best' lvl'].
  simpl. intros H Hbc. rewrite H.
  destruct (Z.leb_spec 3 blank_count); [reflexivity | lia].
Qed.

(** The text extractor never marks a blank block as a heading. *)
Lemma text_file_marked_not_blank (is_markdown : bool)
    (lines : option (list string)) :
  Forall (fun block => marked_heading block = true -> blank block = false)
    (extract_text_file is_markdown lines).
Proof.
  destruct lines as [ls |]; simpl; [| constructor].
  rewrite Forall_forall. intros block Hin. apply in_map_iff in Hin.
  destruct Hin as (text & <- & _). unfold line_block.
  destruct (nonempty (strip text)) eqn:Hne; cbn [negb].
  - destruct (if is_markdown then MD_HEADING_RE text else None);
      intros _; unfold blank; simpl; now rewrite Hne.
  - intros H. vm_compute in H. discriminate.
Qed.

(** Neither do the PDF backends, which mark no block at all. *)
Lemma pdf_pages_not_marked (i : nat) (pages : list string) :
  Forall (fun block => marked_heading block = false) (pages_to_blocks i pages).
Proof.
  revert i. induction pages as [| t rest IH]; intros i; simpl; [constructor |].
  destruct (nonempty (strip t)); [constructor; [reflexivity |] |]; apply IH.
Qed.

(** C10, as stated, fails: a block that is marked as a heading gets its
    boundary whatever its text is, an empty text included. *)
Lemma boundary_at_marked_blank_block :
  ~ no_boundary_at_blank [marked_blank_block].
Proof.
  intros H.
  specialize (H (SectionBoundary.mk 0 "Untitled Section" 1 1 0) marked_blank_block).
  assert (Hb : blank marked_blank_block = false).
  { apply H; [vm_compute; tauto | reflexivity]. }
  vm_compute in Hb. discriminate.
Qed.

(** C10, amended. For every block sequence the boundary list has strictly
    increasing block indices, so at most one boundary for a block, in scan
    order. Every boundary lies at a block that is marked as a heading or
    whose trimmed text is not empty; when no marked block is blank, as in
    what the text extractor returns, no boundary lies at a blank block. A
    run of three or more unmarked blank blocks puts its boundary, of
    confidence 0.3 and level 1, at the block that follows the run, when that
    block is not marked, not blank and gives no boundary by itself, and it
    puts no boundary at a block of the run. *)
Theorem boundaries_increasing_and_placed :
  forall blocks : list TextBlock.t,
    strictly_increasing (map SectionBoundary.index (detect_boundaries blocks))
    /\ (forall b,
          In b (detect_boundaries blocks) ->
          exists block,
            nth_error blocks (SectionBoundary.index b) = Some block
            /\ (marked_heading block = true \/ blank block = false))
    /\ (Forall (fun block => marked_heading block = true -> blank block = false)
          blocks ->
        no_boundary_at_blank blocks)
    /\ (forall pre blanks block post,
          blocks = pre ++ blanks ++ block :: post ->
          (3 <= List.length blanks)%nat ->
          Forall (fun b => marked_heading b = false /\ blank b = true) blanks ->
          plain_text_block block ->
          In (blank_run_boundary (List.length pre + List.length blanks) block)
             (detect_boundaries blocks)
          /\ forall b,
               In b (detect_boundaries blocks) ->
               ~ (List.length pre <= SectionBoundary.index b
                  < List.length pre + List.length blanks)%nat).
Proof.
  intros blocks.
  assert (Hsound : forall b,
             In b (detect_boundaries blocks) ->
             exists block,
               nth_error blocks (SectionBoundary.index b) = Some block
               /\ (marked_heading block = true \/ blank block = false)).
  { intros b Hb. apply detect_from_sound in Hb.
    destruct Hb as (block & _ & Hn & Hok). rewrite Nat.sub_0_r in Hn. eauto. }
  split; [apply detect_from_increasing |]. split; [exact Hsound |]. split.
  - intros Hall b block Hb Hn.
    destruct (Hsound b Hb) as (block' & Hn' & Hok).
    rewrite Hn in Hn'. injection Hn' as <-.
    destruct Hok as [Hm | Hnb]; [| exact Hnb].
    rewrite Forall_forall in Hall. apply Hall; [| exact Hm].
    eapply nth_error_In; eassumption.
  - intros pre blanks block post -> Hlen Hblanks (Hm & Hnb & Hplain). split.
    + unfold detect_boundaries. rewrite detect_from_app. apply in_or_app. right.
      rewrite detect_from_app. apply in_or_app. right.
      destruct (detect_from_blanks blanks Hblanks (0 + List.length pre)
                  (blank_after 0 pre)) as [_ ->].
      pose proof (blank_after_nonneg pre 0 (Z.le_refl 0)) as Hpos.
      simpl. rewrite Hm. unfold blank in Hnb.
      apply negb_false_iff in Hnb. rewrite Hnb. cbn [negb].
      rewrite classify_blank_run by (assumption || lia).
      left. reflexivity.
    + intros b Hb Hrange.
      destruct (Hsound b Hb) as (block' & Hn & Hok).
      rewrite nth_error_app2 in Hn by lia.
      rewrite nth_error_app1 in Hn by lia.
      apply nth_error_In in Hn. rewrite Forall_forall in Hblanks.
      destruct (Hblanks _ Hn) as [Hm' Hb']. destruct Hok; congruence.
Qed.

Lemma boundaries_increasing_and_placed_witness :
  no_boundary_at_blank sample_gap
  /\ In (blank_run_boundary 4 (TextBlock.mk "second line" 0 0 "plain" 0))
        (detect_boundaries sample_gap).
Proof.
  destruct (boundaries_increasing_and_placed sample_gap) as (_ & _ & H3 & H4).
  split.
  - apply H3. repeat constructor; intros H; vm_compute in H; discriminate.
  - apply (H4 [TextBlock.mk "first line" 0 0 "plain" 0]
              [TextBlock.mk newline 0 0 "blank" 0;
               TextBlock.mk newline 0 0 "blank" 0;
               TextBlock.mk newline 0 0 "blank" 0]
              (TextBlock.mk "second line" 0 0 "plain" 0) []).
    + reflexivity.
    + simpl. lia.
    + repeat constructor.
    + repeat split; vm_compute; reflexivity.
Defined.

(** ** The structural patterns *)

Ltac by_char c :=
  destruct c as [[] [] [] [] [] [] [] []]; vm_compute;
  repeat split; intros; congruence.

Lemma digit_not_letter (c : ascii) :
  isdigit c = true ->
  is_roman c = false /\ is_AZ c = false /\ word_first c = false.
Proof. by_char c. Qed.

Lemma word_second_not_outline (c : ascii) :
  word_second c = true -> is_roman c = false /\ is_dot c = false.
Proof. by_char c. Qed.

Lemma letter_not_digit_or_dot (c : ascii) :
  is_roman c = true \/ is_AZ c = true \/ word_first c = true \/ isspace c = true ->
  digit_or_dot c = false.
Proof.
  destruct c as [[] [] [] [] [] [] [] []]; vm_compute; intuition congruence.
Qed.

Lemma numbered_head (text : string) :
  pattern_numbered text = true ->
  exists c r, lstrip text = String c r /\ isdigit c = true.
Proof.
  unfold pattern_numbered, numbered_outline.
  destruct (lstrip text) as [| c r]; simpl; [discriminate |].
  destruct (isdigit c) eqn:Hd; [eauto | discriminate].
Qed.

Lemma roman_head (text : string) :
  pattern_roman text = true ->
  exists c d r,
    lstrip text = String c (String d r)
    /\ is_roman c = true /\ (is_roman d = true \/ is_dot d = true).
Proof.
  unfold pattern_roman. destruct (lstrip text) as [| c [| d r]]; simpl.
  - discriminate.
  - rewrite andb_false_r. discriminate.
  - intros H. apply andb_true_iff in H. destruct H as [Hc H].
    exists c, d, r. split; [reflexivity |]. split; [exact Hc |].
    destruct (is_roman d); [now left |].
    apply andb_true_iff in H. now right.
Qed.

Lemma letter_head (text : string) :
  pattern_letter text = true ->
  exists c d r,
    lstrip text = String c (String d r) /\ is_AZ c = true /\ is_dot d = true.
Proof.
  unfold pattern_letter. destruct (lstrip text) as [| c [| d r]];
    try discriminate.
  intros H. apply andb_true_iff in H. destruct H as [H _].
  apply andb_true_iff in H. destruct H as [Hc Hd]. now exists c, d, r.
Qed.

Lemma after_prefix_head (fold : ascii -> ascii) (w1 w2 : ascii) (w s : string)
    (rest : string) :
  after_prefix fold (String w1 (String w2 w)) s = Some rest ->
  exists c d r,
    s = String c (String d r) /\ fold c = fold w1 /\ fold d = fold w2.
Proof.
  destruct s as [| c [| d r]]; simpl; try discriminate.
  - destruct (Ascii.eqb (fold w1) (fold c)); discriminate.
  - destruct (Ascii.eqb (fold w1) (fold c)) eqn:H1; [| discriminate].
    destruct (Ascii.eqb (fold w2) (fold d)) eqn:H2; [| discriminate].
    apply Ascii.eqb_eq in H1. apply Ascii.eqb_eq in H2. intros _.
    now exists c, d, r.
Qed.

Ltac word_case H :=
  match type of H with
  | match after_prefix ?f ?w ?s with _ => _ end = true =>
      let E := fresh "E" in
      destruct (after_prefix f w s) as [rest |] eqn:E; [| discriminate H];
      apply after_prefix_head in E;
      destruct E as (c & d & r & Es & Hc & Hd);
      exists c, d, r; split; [exact Es |];
      unfold word_first, word_second; cbv beta in Hc, Hd;
      try rewrite Hc; try rewrite Hd; split; reflexivity
  end.

Lemma word_ci_head (text : string) :
  pattern_word_ci text = true ->
  exists c d r,
    lstrip text = String c (String d r)
    /\ word_first c = true /\ word_second d = true.
Proof.
  unfold pattern_word_ci, section_word. cbn [existsb].
  intros H. repeat (apply orb_true_iff in H; destruct H as [H | H]);
    try discriminate H; word_case H.
Qed.

Lemma word_upper_head (text : string) :
  pattern_word_upper text = true ->
  exists c d r,
    lstrip text = String c (String d r)
    /\ word_first c = true /\ word_second d = true.
Proof.
  unfold pattern_word_upper, section_word. cbn [existsb].
  intros H. repeat (apply orb_true_iff in H; destruct H as [H | H]);
    try discriminate H; word_case H.
Qed.

(** The patterns that can match the same text: the Roman and the letter
    outline, and the two section-word patterns. *)
Lemma patterns_exclusive (text : string) :
  (pattern_numbered text = true ->
   pattern_roman text = false /\ pattern_letter text = false
   /\ pattern_word_ci text = false /\ pattern_word_upper text = false)
  /\ (pattern_roman text = true \/ pattern_letter text = true ->
      pattern_word_ci text = false /\ pattern_word_upper text = false).
Proof.
  split.
  - intros H. apply numbered_head in H. destruct H as (c & r & Es & Hd).
    apply digit_not_letter in Hd. destruct Hd as (Hr & Ha & Hw).
    repeat split.
    + destruct (pattern_roman text) eqn:E; [| reflexivity].
      apply roman_head in E. destruct E as (c' & d & r' & Es' & Hc & _).
      congruence.
    + destruct (pattern_letter text) eqn:E; [| reflexivity].
      apply letter_head in E. destruct E as (c' & d & r' & Es' & Hc & _).
      congruence.
    + destruct (pattern_word_ci text) eqn:E; [| reflexivity].
      apply word_ci_head in E. destruct E as (c' & d & r' & Es' & Hc & _).
      congruence.
    + destruct (pattern_word_upper text) eqn:E; [| reflexivity].
      apply word_upper_head in E. destruct E as (c' & d & r' & Es' & Hc & _).
      congruence.
  - intros H.
    assert (Hsecond : exists c d r,
               lstrip text = String c (String d r)
               /\ (is_roman d = true \/ is_dot d = true)).
    { destruct H as [H | H].
      - apply roman_head in H. destruct H as (c & d & r & Es & _ & Hd). eauto.
      - apply letter_head in H. destruct H as (c & d & r & Es & _ & Hd). eauto 6. }
    destruct Hsecond as (c & d & r & Es & Hd). split.
    + destruct (pattern_word_ci text) eqn:E; [| reflexivity].
      apply word_ci_head in E. destruct E as (c' & d' & r' & Es' & _ & Hd').
      rewrite Es in Es'. injection Es' as <- <- <-.
      apply word_second_not_outline in Hd'. destruct Hd, Hd'; congruence.
    + destruct (pattern_word_upper text) eqn:E; [| reflexivity].
      apply word_upper_head in E. destruct E as (c' & d' & r' & Es' & _ & Hd').
      rewrite Es in Es'. injection Es' as <- <- <-.
      apply word_second_not_outline in Hd'. destruct Hd, Hd'; congruence.
Qed.

(** A text that starts, after white space, with a letter has no leading run
    of digits and dots. *)
Lemma dot_level_none (text : string) :
  pattern_roman text = true \/ pattern_letter text = true
  \/ pattern_word_ci text = true \/ pattern_word_upper text = true ->
  dot_level text = None.
Proof.
  intros H.
  assert (Hhead : exists c r, lstrip text = String c r /\ digit_or_dot c = false).
  { destruct H as [H | [H | [H | H]]].
    - apply roman_head in H. destruct H as (c & d & r & Es & Hc & _).
      exists c, (String d r). split; [exact Es |].
      apply letter_not_digit_or_dot. auto.
    - apply letter_head in H. destruct H as (c & d & r & Es & Hc & _).
      exists c, (String d r). split; [exact Es |].
      apply letter_not_digit_or_dot. auto.
    - apply word_ci_head in H. destruct H as (c & d & r & Es & Hc & _).
      exists c, (String d r). split; [exact Es |].
      apply letter_not_digit_or_dot. auto.
    - apply word_upper_head in H. destruct H as (c & d & r & Es & Hc & _).
      exists c, (String d r). split; [exact Es |].
      apply letter_not_digit_or_dot. auto. }
  destruct Hhead as (c & r & Es & Hc).
  unfold dot_level. rewrite Es. simpl. now rewrite Hc.
Qed.

Lemma rstrip_dots_cons (c : ascii) (s : string) :
  rstrip_dots (String c s)
  = if is_dot c && negb (nonempty (rstrip_dots s)) then EmptyString
    else String c (rstrip_dots s).
Proof.
  simpl. destruct (rstrip_dots s); destruct (is_dot c); reflexivity.
Qed.

(** The leading run of digits and dots of a numbered outline, its trailing
    dot removed, holds one dot less than there are groups. *)
Lemma outline_groups_dots (s : string) :
  forall in_digits g n rest,
    outline_groups s in_digits g = Some (n, rest) ->
    take_while digit_or_dot rest = EmptyString ->
    (0 < n)%nat
    /\ ((n = g /\ in_digits = false
         /\ rstrip_dots (take_while digit_or_dot s) = EmptyString)
        \/ ((g < n)%nat
            /\ count_dots (rstrip_dots (take_while digit_or_dot s))
               = Z.of_nat n - Z.of_nat g - 1
            /\ (in_digits = false ->
                nonempty (rstrip_dots (take_while digit_or_dot s)) = true))).
Proof.
  induction s as [| c r IH]; intros in_digits g n rest H Hrest; simpl in H.
  - destruct in_digits; [discriminate |].
    destruct (Nat.ltb_spec 0 g) as [Hg | Hg]; [| discriminate].
    injection H as <- <-. split; [exact Hg |]. left. auto.
  - destruct (isdigit c) eqn:Hd.
    + (* a digit *)
      apply IH in H; [| exact Hrest].
      destruct H as (Hn & [(_ & Hf & _) | (Hg & Hcount & _)]); [discriminate |].
      assert (Hdot : is_dot c = false).
      { destruct c as [[] [] [] [] [] [] [] []]; vm_compute in Hd |- *; congruence. }
      split; [exact Hn |]. right. split; [exact Hg |].
      cbn [take_while]. unfold digit_or_dot at 1 3. rewrite Hd. cbn [orb].
      rewrite rstrip_dots_cons, Hdot. cbn [andb count_dots nonempty].
      rewrite Hdot. split; [lia | reflexivity].
    + destruct in_digits.
      * (* the dot that closes a group *)
        destruct (is_dot c) eqn:Hdot; [| discriminate].
        apply IH in H; [| exact Hrest].
        cbn [take_while]. unfold digit_or_dot at 1 3 5. rewrite Hd, Hdot. cbn [orb].
        rewrite rstrip_dots_cons, Hdot. cbn [andb].
        destruct H as (Hn & [(-> & _ & Hf) | (Hg & Hcount & Hne)]).
        -- split; [exact Hn |]. right. rewrite Hf. cbn [nonempty negb count_dots].
           split; [lia |]. split; [lia | discriminate].
        -- split; [exact Hn |]. right. rewrite (Hne eq_refl).
           cbn [negb count_dots]. rewrite Hdot.
           split; [lia |]. split; [lia | discriminate].
      * (* the end of the groups *)
        destruct (Nat.ltb_spec 0 g) as [Hg | Hg]; [| discriminate].
        injection H as <- <-. split; [exact Hg |]. left.
        rewrite Hrest. auto.
Qed.

Lemma numbered_dot_level (text : string) (n : nat) :
  numbered_outline text = Some n ->
  dot_level text = Some (Z.min (Z.of_nat n) 4).
Proof.
  unfold numbered_outline, dot_level.
  destruct (outline_groups (lstrip text) false 0) as [[n' rest] |] eqn:E;
    [| discriminate].
  destruct (ws_then_nonws rest) eqn:Hws; [| discriminate].
  intros [= ->].
  assert (Hrest : take_while digit_or_dot rest = EmptyString).
  { destruct rest as [| c r]; [reflexivity |]. simpl in Hws.
    apply andb_true_iff in Hws. destruct Hws as [Hc _]. simpl.
    rewrite letter_not_digit_or_dot; auto. }
  apply outline_groups_dots in E; [| exact Hrest].
  destruct E as (Hn & [(-> & _) | (_ & Hcount & Hne)]); [lia |].
  specialize (Hne eq_refl).
  destruct (take_while digit_or_dot (lstrip text)) as [| c r] eqn:Et;
    [discriminate |].
  cbn [nonempty]. rewrite Hcount. f_equal. lia.
Qed.

Lemma classify_of_match (text : string) (blank_count : Z) (conf : Q) (lvl : Z) :
  match_patterns SECTION_PATTERNS text 0 1 = (conf, lvl) ->
  Qeq_bool conf 0 = false ->
  classify text blank_count = (conf, lvl).
Proof.
  intros H Hq. unfold classify. rewrite H. unfold all_caps_header.
  rewrite Hq. cbn [andb]. now rewrite Hq, andb_false_r.
Qed.

(** On a text that matches a pattern, the loop that stops at the first match
    ends with the largest weight among all the patterns that match, and with
    the level of the first one; nothing after the loop changes them. *)
Lemma classify_matched (text : string) :
  matches_some text = true ->
  forall blank_count,
    classify text blank_count = (max_weight text, first_match_level text)
    /\ Qle_bool (max_weight text) 0 = false.
Proof.
  unfold matches_some, SECTION_PATTERNS. cbn [existsb fst].
  intros Hm bc.
  destruct (patterns_exclusive text) as [Hnum Hout].
  unfold max_weight, matching_weights, first_match_level, SECTION_PATTERNS.
  cbn [filter fst].
  destruct (pattern_numbered text) eqn:P1.
  - (* a numbered outline *)
    destruct (Hnum eq_refl) as (-> & -> & -> & ->).
    unfold pattern_numbered in P1.
    destruct (numbered_outline text) as [n |] eqn:En; [| discriminate].
    split; [| reflexivity].
    apply classify_of_match; [| reflexivity].
    unfold SECTION_PATTERNS. cbn [match_patterns].
    unfold pattern_numbered at 1. rewrite En.
    now rewrite (numbered_dot_level _ _ En).
  - assert (Hnone : numbered_outline text = None).
    { unfold pattern_numbered in P1. now destruct (numbered_outline text). }
    rewrite Hnone.
    assert (Hlvl : dot_level text = None).
    { apply dot_level_none.
      destruct (pattern_roman text); [auto |].
      destruct (pattern_letter text); [auto |].
      destruct (pattern_word_ci text); [auto |].
      destruct (pattern_word_upper text); [auto | discriminate]. }
    assert (Hloop : forall conf,
               match_patterns SECTION_PATTERNS text 0 1 = (qmax 0 conf, 1) ->
               Qeq_bool (qmax 0 conf) 0 = false ->
               classify text bc = (qmax 0 conf, 1))
      by (intros conf; apply classify_of_match).
    unfold SECTION_PATTERNS in Hloop. cbn [match_patterns] in Hloop.
    rewrite P1, Hlvl in Hloop.
    destruct (pattern_roman text) eqn:P2.
    + destruct (Hout (or_introl eq_refl)) as (-> & ->).
      split; [| destruct (pattern_letter text); reflexivity].
      rewrite (Hloop 0.85%Q) by reflexivity.
      destruct (pattern_letter text); reflexivity.
    + destruct (pattern_letter text) eqn:P3.
      * destruct (Hout (or_intror eq_refl)) as (-> & ->).
        split; [| reflexivity]. now rewrite (Hloop 0.8%Q).
      * destruct (pattern_word_ci text) eqn:P4.
        -- split; [| destruct (pattern_word_upper text); reflexivity].
           rewrite (Hloop 0.95%Q) by reflexivity.
           destruct (pattern_word_upper text); reflexivity.
        -- destruct (pattern_word_upper text) eqn:P5; [| discriminate].
           split; [| reflexivity]. now rewrite (Hloop 0.95%Q).
Qed.

(** A block that is neither marked nor blank, and that [classify] gives a
    positive confidence whatever the blank run, has its boundary in the
    result. *)
Lemma detect_from_unmarked (blocks : list TextBlock.t) :
  forall i0 blank_count k block conf lvl,
    nth_error blocks k = Some block ->
    marked_heading block = false ->
    blank block = false ->
    (forall bc, classify (strip (TextBlock.text block)) bc = (conf, lvl)) ->
    Qle_bool conf 0 = false ->
    In (SectionBoundary.mk (i0 + k)
          (clean_heading (substring 0 120 (strip (TextBlock.text block))))
          lvl conf (TextBlock.page block))
       (detect_from i0 blank_count blocks).
Proof.
  induction blocks as [| x rest IH]; intros i0 bc k block conf lvl Hn Hm Hb Hc Hq.
  - destruct k; discriminate.
  - destruct k as [| k]; simpl in Hn.
    + injection Hn as ->. simpl. rewrite Hm. unfold blank in Hb.
      apply negb_false_iff in Hb. rewrite Hb. cbn [negb].
      rewrite Hc, Hq. cbn [negb]. left. f_equal. lia.
    + assert (Htail : forall bc',
                 In (SectionBoundary.mk (i0 + S k)
                       (clean_heading
                          (substring 0 120 (strip (TextBlock.text block))))
                       lvl conf (TextBlock.page block))
                    (detect_from (S i0) bc' rest)).
      { intros bc'. replace (i0 + S k)%nat with (S i0 + k)%nat by lia.
        now apply IH. }
      simpl. destruct (marked_heading x); [right; apply Htail |].
      destruct (nonempty (strip (TextBlock.text x))); cbn [negb]; [| apply Htail].
      destruct (classify (strip (TextBlock.text x)) bc) as [conf' lvl'].
      destruct (Qle_bool conf' 0); cbn [negb]; [apply Htail | right; apply Htail].
Qed.

Lemma unique_index (l : list SectionBoundary.t) :
  strictly_increasing (map SectionBoundary.index l) ->
  forall a b,
    In a l -> In b l ->
    SectionBoundary.index a = SectionBoundary.index b -> a = b.
Proof.
  induction l as [| x l IH]; intros Hinc a b Ha Hb Hidx; [contradiction |].
  simpl in Hinc. destruct Hinc as [Hlt Hinc]. rewrite Forall_forall in Hlt.
  assert (Hlater : forall y, In y l ->
            (SectionBoundary.index x < SectionBoundary.index y)%nat)
    by (intros y Hy; apply Hlt; now apply in_map).
  destruct Ha as [<- | Ha], Hb as [<- | Hb].
  - reflexivity.
  - specialize (Hlater _ Hb). lia.
  - specialize (Hlater _ Ha). lia.
  - now apply IH.
Qed.

(** C8, as stated, fails: a block that extraction has marked as a heading
    keeps the confidence and the level of its mark, whatever pattern its
    text matches. The paragraph "1. Introduction" of style "Heading 2"
    matches the numbered outline, of weight 0.9 and level 1, and gets a
    boundary of confidence 1.0 and level 2. *)
Lemma marked_heading_overrides_patterns :
  ~ pattern_rule [docx_numbered_heading].
Proof.
  intros H. specialize (H 0%nat docx_numbered_heading eq_refl eq_refl eq_refl).
  destruct H as (b & Hb & _ & _ & Hl).
  vm_compute in Hb. destruct Hb as [<- | []].
  vm_compute in Hl. discriminate.
Qed.

(** C8, amended. For every block that is not blank, that extraction has not
    marked as a heading (confidence at least 0.9 and a positive heading
    level), and whose trimmed text matches at least one structural pattern,
    the boundary detector puts exactly one boundary at the block; its
    confidence is the maximum weight over all the patterns that match the
    text, and its level is that of the first matching pattern: the number of
    numeric groups, capped at 4, for a numbered outline, and 1 otherwise. *)
Theorem pattern_confidence_and_level :
  forall (blocks : list TextBlock.t) (i : nat) (block : TextBlock.t),
    nth_error blocks i = Some block ->
    marked_heading block = false ->
    blank block = false ->
    matches_some (strip (TextBlock.text block)) = true ->
    In (pattern_boundary i block) (detect_boundaries blocks)
    /\ forall b,
         In b (detect_boundaries blocks) ->
         SectionBoundary.index b = i ->
         b = pattern_boundary i block.
Proof.
  intros blocks i block Hn Hm Hb Hp.
  assert (Hin : In (pattern_boundary i block) (detect_boundaries blocks)).
  { unfold pattern_boundary, detect_boundaries. cbv zeta.
    change i with (0 + i)%nat at 1.
    apply detect_from_unmarked; try assumption.
    - intros bc. now apply classify_matched.
    - now apply (classify_matched _ Hp 0). }
  split; [exact Hin |].
  intros b Hbin Hidx.
  apply (unique_index (detect_boundaries blocks)); try assumption.
  apply detect_from_increasing.
Qed.

Lemma pattern_confidence_and_level_witness :
  In (SectionBoundary.mk 1 "2.1.3. Scope of work" 3 0.9%Q 0)
     (detect_boundaries
        [TextBlock.mk "Contract" 0 0 "plain" 0;
         TextBlock.mk "2.1.3. Scope of work" 0 0 "plain" 0]).
Proof.
  apply (pattern_confidence_and_level
           [TextBlock.mk "Contract" 0 0 "plain" 0;
            TextBlock.mk "2.1.3. Scope of work" 0 0 "plain" 0]
           1 (TextBlock.mk "2.1.3. Scope of work" 0 0 "plain" 0));
    vm_compute; reflexivity.
Defined.

(** * Further properties *)

(** ** Sorting the boundaries *)

Lemma insert_by_index_perm (b : SectionBoundary.t) (l : list SectionBoundary.t) :
  Permutation (insert_by_index b l) (b :: l).
Proof.
  induction l as [| x l IH]; simpl; [apply Permutation_refl |].
  destruct (SectionBoundary.index b <=? SectionBoundary.index x)%nat.
  - apply Permutation_refl.
  - eapply Permutation_trans; [apply perm_skip, IH | apply perm_swap].
Qed.

Lemma sorted_by_index_perm (l : list SectionBoundary.t) :
  Permutation (sorted_by_index l) l.
Proof.
  induction l as [| x l IH]; simpl; [constructor |].
  eapply Permutation_trans; [apply insert_by_index_perm | now constructor].
Qed.

Lemma insert_by_index_nondecreasing (b : SectionBoundary.t)
    (l : list SectionBoundary.t) :
  nondecreasing (map SectionBoundary.index l) ->
  nondecreasing (map SectionBoundary.index (insert_by_index b l)).
Proof.
  induction l as [| x l IH]; simpl; intros H.
  - split; [constructor | exact I].
  - destruct H as [Hx Hl].
    destruct (Nat.leb_spec (SectionBoundary.index b) (SectionBoundary.index x))
      as [Hle | Hlt]; simpl.
    + split; [| split; assumption].
      constructor; [exact Hle |].
      rewrite Forall_forall in *. intros y Hy. specialize (Hx y Hy). lia.
    + split; [| now apply IH].
      rewrite Forall_forall in *. intros y Hy.
      apply in_map_iff in Hy. destruct Hy as (z & <- & Hz).
      apply (Permutation_in _ (insert_by_index_perm b l)) in Hz.
      destruct Hz as [<- | Hz]; [lia |].
      apply Hx. now apply in_map.
Qed.

Lemma insert_by_index_front (b : SectionBoundary.t) (l : list SectionBoundary.t) :
  Forall (fun y => (SectionBoundary.index b <= y)%nat)
    (map SectionBoundary.index l) ->
  insert_by_index b l = b :: l.
Proof.
  destruct l as [| x l]; simpl; [reflexivity |].
  intros H. inversion H as [| ? ? Hx _]; subst.
  apply Nat.leb_le in Hx. now rewrite Hx.
Qed.

Lemma sorted_by_index_fixed (l : list SectionBoundary.t) :
  nondecreasing (map SectionBoundary.index l) -> sorted_by_index l = l.
Proof.
  induction l as [| x l IH]; simpl; [reflexivity |].
  intros [Hx Hl]. rewrite (IH Hl). now apply insert_by_index_front.
Qed.

Lemma insert_by_index_at_index (k : nat) (b : SectionBoundary.t)
    (l : list SectionBoundary.t) :
  at_index k (insert_by_index b l) = at_index k (b :: l).
Proof.
  unfold at_index. induction l as [| x l IH]; simpl; [reflexivity |].
  destruct (Nat.leb_spec (SectionBoundary.index b) (SectionBoundary.index x))
    as [Hle | Hlt]; simpl; [reflexivity |].
  rewrite IH. simpl.
  destruct (Nat.eqb_spec (SectionBoundary.index x) k) as [Hx | Hx];
    destruct (Nat.eqb_spec (SectionBoundary.index b) k) as [Hb | Hb];
    try reflexivity.
  lia.
Qed.

(** X1. [sorted(boundaries, key=lambda b: b.index)] returns the same
    boundaries, ordered by block index; boundaries at the same index keep the
    order they had; a list that is already ordered is returned as it is. *)
Theorem sorted_by_index_stable_sort :
  forall l : list SectionBoundary.t,
    Permutation (sorted_by_index l) l
    /\ nondecreasing (map SectionBoundary.index (sorted_by_index l))
    /\ (forall k, at_index k (sorted_by_index l) = at_index k l)
    /\ (nondecreasing (map SectionBoundary.index l) -> sorted_by_index l = l).
Proof.
  intros l. split; [apply sorted_by_index_perm |]. split; [| split].
  - induction l as [| x l IH]; simpl; [exact I |].
    now apply insert_by_index_nondecreasing.
  - intros k. induction l as [| x l IH]; simpl; [reflexivity |].
    rewrite insert_by_index_at_index. unfold at_index in *. simpl.
    now rewrite IH.
  - apply sorted_by_index_fixed.
Qed.

(** ** The boundaries in the pipeline *)

Lemma strictly_increasing_nondecreasing (l : list nat) :
  strictly_increasing l -> nondecreasing l.
Proof.
  induction l as [| x l IH]; simpl; [trivial |].
  intros [Hx Hl]. split; [| now apply IH].
  rewrite Forall_forall in *. intros y Hy. specialize (Hx y Hy). lia.
Qed.

Lemma strictly_increasing_filter (f : SectionBoundary.t -> bool)
    (l : list SectionBoundary.t) :
  strictly_increasing (map SectionBoundary.index l) ->
  strictly_increasing (map SectionBoundary.index (filter f l)).
Proof.
  induction l as [| x l IH]; simpl; [trivial |].
  intros [Hx Hl]. destruct (f x); simpl; [| now apply IH].
  split; [| now apply IH].
  rewrite Forall_forall in *. intros y Hy. apply Hx.
  apply in_map_iff in Hy. destruct Hy as (z & <- & Hz).
  apply filter_In in Hz. apply in_map. tauto.
Qed.

Lemma high_confidence_sorted (blocks : list TextBlock.t) :
  sorted_by_index (high_confidence (detect_boundaries blocks))
  = high_confidence (detect_boundaries blocks).
Proof.
  apply sorted_by_index_fixed, strictly_increasing_nondecreasing.
  apply strictly_increasing_filter, detect_from_increasing.
Qed.

Lemma detect_boundaries_sorted (blocks : list TextBlock.t) :
  sorted_by_index (detect_boundaries blocks) = detect_boundaries blocks.
Proof.
  apply sorted_by_index_fixed, strictly_increasing_nondecreasing.
  apply detect_from_increasing.
Qed.

(** X2. The two sorts of the pipeline leave the detector's output as it is:
    the structure-aware chunker works on the high-confidence boundaries in
    detection order, and [document_structure] lists exactly these boundaries,
    in that order, one entry each. *)
Theorem document_structure_in_detection_order :
  forall (count_tokens : string -> Z) (page_offset : Z -> Z -> Z -> Z)
         (ext : string) (blocks : list TextBlock.t) (max_tokens overlap : Z)
         (r : Result.t),
    extract_and_chunk count_tokens page_offset ext blocks max_tokens overlap
    = Some r ->
    sorted_by_index (high_confidence (detect_boundaries blocks))
    = high_confidence (detect_boundaries blocks)
    /\ Result.document_structure r
       = map structure_entry (high_confidence (detect_boundaries blocks)).
Proof.
  intros count_tokens page_offset ext blocks max_tokens overlap r H.
  split; [apply high_confidence_sorted |].
  unfold extract_and_chunk in H.
  destruct (existsb (String.eqb ext) SUPPORTED_EXTENSIONS); cbn [negb] in H;
    [| discriminate].
  destruct (sum_chars blocks <? 50); [discriminate |].
  rewrite detect_boundaries_sorted in H.
  destruct (3 <=? List.length (high_confidence (detect_boundaries blocks)))%nat;
    injection H as <-; reflexivity.
Qed.

Lemma document_structure_in_detection_order_witness :
  exists r,
    extract_and_chunk Fallback.count_tokens double_page_offset ".md"
      sample_markdown 4000 200 = Some r
    /\ Result.document_structure r
       = map structure_entry (high_confidence (detect_boundaries sample_markdown)).
Proof.
  eexists. split; [vm_compute; reflexivity |].
  refine (proj2 (document_structure_in_detection_order Fallback.count_tokens
                   double_page_offset ".md" sample_markdown 4000 200 _ _)).
  vm_compute. reflexivity.
Defined.

(** ** What a boundary records *)

Lemma count_dots_nonneg (s : string) : 0 <= count_dots s.
Proof.
  induction s as [| c s IH]; simpl; [lia |]. destruct (is_dot c); lia.
Qed.

Lemma dot_level_range (text : string) (l : Z) :
  dot_level text = Some l -> 1 <= l <= 4.
Proof.
  unfold dot_level.
  destruct (nonempty (take_while digit_or_dot (lstrip text))); [| discriminate].
  intros [= <-].
  pose proof (count_dots_nonneg
                (rstrip_dots (take_while digit_or_dot (lstrip text)))).
  lia.
Qed.

Lemma match_patterns_range (text : string) (conf : Q) (lvl : Z) :
  match_patterns SECTION_PATTERNS text 0 1 = (conf, lvl) ->
  In conf [0%Q; 0.8%Q; 0.85%Q; 0.9%Q; 0.95%Q] /\ 1 <= lvl <= 4.
Proof.
  unfold SECTION_PATTERNS. cbn [match_patterns].
  assert (Hl : 1 <= match dot_level text with Some l => l | None => 1 end <= 4).
  { destruct (dot_level text) as [l |] eqn:E; [| lia].
    now apply dot_level_range in E. }
  destruct (pattern_numbered text); [intros [= <- <-]; split; [simpl; tauto | exact Hl] |].
  destruct (pattern_roman text); [intros [= <- <-]; split; [simpl; tauto | exact Hl] |].
  destruct (pattern_letter text); [intros [= <- <-]; split; [simpl; tauto | exact Hl] |].
  destruct (pattern_word_ci text); [intros [= <- <-]; split; [simpl; tauto | exact Hl] |].
  destruct (pattern_word_upper text); [intros [= <- <-]; split; [simpl; tauto | exact Hl] |].
  intros [= <- <-]. split; [simpl; tauto | lia].
Qed.

(** What [classify] can return: no boundary (confidence 0), or one of the
    heuristic confidences, with a level from 1 to 4. *)
Lemma classify_range (text : string) (blank_count : Z) (conf : Q) (lvl : Z) :
  classify text blank_count = (conf, lvl) ->
  (conf = 0%Q \/ In conf heuristic_confidences) /\ 1 <= lvl <= 4.
Proof.
  unfold classify.
  destruct (match_patterns SECTION_PATTERNS text 0 1) as [best l0] eqn:E.
  apply match_patterns_range in E. destruct E as [Hbest Hl0].
  destruct (all_caps_header best text).
  - destruct ((3 <=? blank_count) && Qeq_bool 0.7 0); intros [= <- <-];
      (split; [right; simpl; tauto | lia]).
  - destruct ((3 <=? blank_count) && Qeq_bool best 0); intros [= <- <-].
    + split; [right; simpl; tauto | lia].
    + split; [| exact Hl0].
      simpl in Hbest. unfold heuristic_confidences. simpl.
      intuition auto.
Qed.

Lemma detect_from_classified (blocks : list TextBlock.t) :
  forall i blank_count b,
    In b (detect_from i blank_count blocks) ->
    exists block,
      nth_error blocks (SectionBoundary.index b - i) = Some block
      /\ (i <= SectionBoundary.index b)%nat
      /\ SectionBoundary.page b = TextBlock.page block
      /\ ((marked_heading block = true
           /\ SectionBoundary.confidence b = TextBlock.confidence block
           /\ SectionBoundary.level b = TextBlock.heading_level block
           /\ SectionBoundary.heading b
              = clean_heading (strip (TextBlock.text block)))
          \/ (marked_heading block = false
              /\ blank block = false
              /\ SectionBoundary.heading b
                 = clean_heading
                     (substring 0 120 (strip (TextBlock.text block)))
              /\ Qle_bool (SectionBoundary.confidence b) 0 = false
              /\ exists bc,
                   classify (strip (TextBlock.text block)) bc
                   = (SectionBoundary.confidence b, SectionBoundary.level b))).
Proof.
  induction blocks as [| block rest IH]; intros i bc b Hin; simpl in Hin;
    [contradiction |].
  assert (Hrest : forall bc', In b (detect_from (S i) bc' rest) ->
            exists block0,
              nth_error (block :: rest) (SectionBoundary.index b - i)
              = Some block0
              /\ (i <= SectionBoundary.index b)%nat
              /\ SectionBoundary.page b = TextBlock.page block0
              /\ ((marked_heading block0 = true
                   /\ SectionBoundary.confidence b = TextBlock.confidence block0
                   /\ SectionBoundary.level b = TextBlock.heading_level block0
                   /\ SectionBoundary.heading b
                      = clean_heading (strip (TextBlock.text block0)))
                  \/ (marked_heading block0 = false
                      /\ blank block0 = false
                      /\ SectionBoundary.heading b
                         = clean_heading
                             (substring 0 120 (strip (TextBlock.text block0)))
                      /\ Qle_bool (SectionBoundary.confidence b) 0 = false
                      /\ exists bc0,
                           classify (strip (TextBlock.text block0)) bc0
                           = (SectionBoundary.confidence b,
                              SectionBoundary.level b)))).
  { intros bc' H. apply IH in H. destruct H as (block0 & Hn & Hi & Hb).
    exists block0. split; [| split; [lia | exact Hb]].
    replace (SectionBoundary.index b - i)%nat
      with (S (SectionBoundary.index b - S i)) by lia.
    exact Hn. }
  destruct (marked_heading block) eqn:Hm.
  - destruct Hin as [<- | Hin]; [| eauto].
    exists block. simpl. rewrite Nat.sub_diag. split; [reflexivity |].
    split; [lia |]. split; [reflexivity |]. left. auto.
  - destruct (nonempty (strip (TextBlock.text block))) eqn:Hne;
      cbn [negb] in Hin; [| eauto].
    destruct (classify (strip (TextBlock.text block)) bc) as [conf lvl] eqn:Ec.
    destruct (Qle_bool conf 0) eqn:Hq; cbn [negb] in Hin; [eauto |].
    destruct Hin as [<- | Hin]; [| eauto].
    exists block. simpl. rewrite Nat.sub_diag. split; [reflexivity |].
    split; [lia |]. split; [reflexivity |]. right.
    split; [exact Hm |]. split; [unfold blank; now rewrite Hne |].
    split; [reflexivity |]. split; [exact Hq |]. now exists bc.
Qed.

(** X3. Every boundary lies at a block of the sequence and carries the page
    of that block. When the block is marked as a heading the boundary has
    the block's confidence and heading level; otherwise its confidence is one
    of 0.3, 0.7, 0.8, 0.85, 0.9 and 0.95 and its level is between 1 and 4. *)
Theorem boundary_attributes :
  forall (blocks : list TextBlock.t) (b : SectionBoundary.t),
    In b (detect_boundaries blocks) ->
    exists block,
      nth_error blocks (SectionBoundary.index b) = Some block
      /\ boundary_of_block b block.
Proof.
  intros blocks b Hb. apply detect_from_classified in Hb.
  destruct Hb as (block & Hn & _ & Hp & Hattr). rewrite Nat.sub_0_r in Hn.
  exists block. split; [exact Hn |]. split; [exact Hp |].
  destruct Hattr as [Hmarked | (Hm & _ & Hh & Hq & bc & Hc)]; [now left |].
  right. apply classify_range in Hc. destruct Hc as [[Hz | Hc] Hl].
  - rewrite Hz in Hq. discriminate Hq.
  - auto.
Qed.

Lemma boundary_attributes_witness :
  exists block,
    nth_error sample_markdown 2 = Some block
    /\ boundary_of_block (SectionBoundary.mk 2 "Beta" 1 1 0) block.
Proof.
  apply (boundary_attributes sample_markdown (SectionBoundary.mk 2 "Beta" 1 1 0)).
  vm_compute. tauto.
Defined.

(** ** Blocks that the heuristics leave alone or pick up *)

Lemma match_patterns_none (text : string) :
  matches_some text = false ->
  match_patterns SECTION_PATTERNS text 0 1 = (0%Q, 1).
Proof.
  unfold matches_some, SECTION_PATTERNS. cbn [existsb fst match_patterns].
  destruct (pattern_numbered text); [discriminate |].
  destruct (pattern_roman text); [discriminate |].
  destruct (pattern_letter text); [discriminate |].
  destruct (pattern_word_ci text); [discriminate |].
  destruct (pattern_word_upper text); [discriminate | reflexivity].
Qed.

Lemma table_matches_nothing (text : string) :
  String.prefix "[TABLE" text = true -> matches_some text = false.
Proof.
  destruct text as [| c text]; [discriminate |].
  change (String.prefix "[TABLE" (String c text))
    with (if ascii_dec "[" c then String.prefix "TABLE" text else false).
  destruct (ascii_dec "[" c) as [<- | Hc]; [| discriminate].
  intros _. destruct text; reflexivity.
Qed.

Lemma classify_table (text : string) (blank_count : Z) :
  String.prefix "[TABLE" text = true ->
  classify text blank_count = (0%Q, 1) \/ classify text blank_count = (0.3%Q, 1).
Proof.
  intros H. unfold classify.
  rewrite (match_patterns_none _ (table_matches_nothing _ H)).
  unfold all_caps_header. rewrite H. cbn [negb]. rewrite !andb_false_r.
  destruct (3 <=? blank_count); simpl; auto.
Qed.

(** X4. A block whose trimmed text starts with [[TABLE], as the word-processor
    tables do, and that is not marked as a heading, never gets a
    high-confidence boundary: if it gets one at all, after a blank run, its
    confidence is 0.3. So a table never opens a section of the
    structure-aware chunker. *)
Theorem table_block_never_high_confidence :
  forall (blocks : list TextBlock.t) (b : SectionBoundary.t)
         (block : TextBlock.t),
    In b (detect_boundaries blocks) ->
    nth_error blocks (SectionBoundary.index b) = Some block ->
    marked_heading block = false ->
    String.prefix "[TABLE" (strip (TextBlock.text block)) = true ->
    SectionBoundary.confidence b = 0.3%Q
    /\ ~ In b (high_confidence (detect_boundaries blocks)).
Proof.
  intros blocks b block Hb Hn Hm Ht.
  assert (Hconf : SectionBoundary.confidence b = 0.3%Q).
  { apply detect_from_classified in Hb.
    destruct Hb as (block' & Hn' & _ & _ & Hattr).
    rewrite Nat.sub_0_r, Hn in Hn'. injection Hn' as <-.
    destruct Hattr as [(Hm' & _) | (_ & _ & _ & Hq & bc & Hc)]; [congruence |].
    destruct (classify_table _ bc Ht) as [E | E]; rewrite E in Hc;
      injection Hc as Hc _; [| now symmetry].
    rewrite <- Hc in Hq. discriminate Hq. }
  split; [exact Hconf |].
  unfold high_confidence. intros H. apply filter_In in H. destruct H as [_ H].
  rewrite Hconf in H. discriminate H.
Qed.

Lemma table_block_never_high_confidence_witness :
  SectionBoundary.confidence (SectionBoundary.mk 3 "[TABLE] A | B [/TABLE]" 1 0.3 0)
  = 0.3%Q
  /\ ~ In (SectionBoundary.mk 3 "[TABLE] A | B [/TABLE]" 1 0.3 0)
          (high_confidence
             (detect_boundaries
                (extract_text_file false (Some [""; ""; ""]) ++ [sample_table]))).
Proof.
  apply (table_block_never_high_confidence
           (extract_text_file false (Some [""; ""; ""]) ++ [sample_table])
           (SectionBoundary.mk 3 "[TABLE] A | B [/TABLE]" 1 0.3 0) sample_table).
  - vm_compute. tauto.
  - reflexivity.
  - reflexivity.
  - reflexivity.
Defined.

(** X5. A block that is neither marked nor blank, whose trimmed text matches
    no structural pattern and passes the ALL-CAPS test (under 120
    characters, two words or more, unchanged by upper-casing, not a table
    marker), gets a boundary of confidence 0.7 and level 1, so a
    high-confidence one, whatever the blank run before it. *)
Theorem all_caps_line_is_boundary :
  forall (blocks : list TextBlock.t) (i : nat) (block : TextBlock.t),
    nth_error blocks i = Some block ->
    marked_heading block = false ->
    blank block = false ->
    matches_some (strip (TextBlock.text block)) = false ->
    all_caps_header 0 (strip (TextBlock.text block)) = true ->
    In (SectionBoundary.mk i
          (clean_heading (substring 0 120 (strip (TextBlock.text block))))
          1 0.7%Q (TextBlock.page block))
       (high_confidence (detect_boundaries blocks)).
Proof.
  intros blocks i block Hn Hm Hb Hp Hcaps.
  unfold high_confidence. apply filter_In. split; [| reflexivity].
  unfold detect_boundaries. change i with (0 + i)%nat.
  apply detect_from_unmarked; try assumption; [| reflexivity].
  intros bc. unfold classify. rewrite (match_patterns_none _ Hp), Hcaps.
  now rewrite andb_false_r.
Qed.

Lemma all_caps_line_is_boundary_witness :
  In (SectionBoundary.mk 1 "TERMS AND CONDITIONS" 1 0.7%Q 3)
     (high_confidence
        (detect_boundaries
           [page_block "Some text on page two." 2;
            page_block "TERMS AND CONDITIONS" 3])).
Proof.
  apply (all_caps_line_is_boundary
           [page_block "Some text on page two." 2;
            page_block "TERMS AND CONDITIONS" 3]
           1 (page_block "TERMS AND CONDITIONS" 3));
    vm_compute; reflexivity.
Defined.

(** ** Normalized headings *)

Lemma lstrip_fixed (s : string) :
  no_leading_space s = true -> lstrip s = s.
Proof.
  destruct s as [| c r]; simpl; [reflexivity |].
  intros H. apply negb_true_iff in H. now rewrite H.
Qed.

Lemma lstrip_no_leading_space (s : string) : no_leading_space (lstrip s) = true.
Proof.
  induction s as [| c r IH]; simpl; [reflexivity |].
  destruct (isspace c) eqn:E; [exact IH |]. simpl. now rewrite E.
Qed.

Lemma rstrip_no_leading_space (s : string) :
  no_leading_space s = true -> no_leading_space (rstrip s) = true.
Proof.
  destruct s as [| c r]; simpl; [reflexivity |].
  intros H. apply negb_true_iff in H.
  destruct (rstrip r); rewrite ?H; simpl; now rewrite H.
Qed.

Lemma rstrip_cons (c : ascii) (r : string) :
  rstrip (String c r)
  = match rstrip r with
    | EmptyString => if isspace c then EmptyString else String c EmptyString
    | r' => String c r'
    end.
Proof. reflexivity. Qed.

Lemma rstrip_idempotent (s : string) : rstrip (rstrip s) = rstrip s.
Proof.
  induction s as [| c r IH]; [reflexivity |].
  rewrite rstrip_cons.
  destruct (rstrip r) as [| d r'] eqn:E.
  - destruct (isspace c) eqn:Hc; simpl; [reflexivity | now rewrite Hc].
  - rewrite rstrip_cons, IH. reflexivity.
Qed.

Lemma strip_idempotent (s : string) : strip (strip s) = strip s.
Proof.
  unfold strip.
  rewrite (lstrip_fixed (rstrip (lstrip s))).
  - apply rstrip_idempotent.
  - apply rstrip_no_leading_space, lstrip_no_leading_space.
Qed.

Lemma tidy_weaken (s : string) : tidy s true = true -> tidy s false = true.
Proof.
  destruct s as [| c r]; simpl; [trivial |].
  destruct (isspace c); [| trivial].
  rewrite andb_false_r. discriminate.
Qed.

Lemma tidy_prev (s : string) (p : bool) : tidy s p = true -> tidy s false = true.
Proof. destruct p; [apply tidy_weaken | trivial]. Qed.

Lemma tidy_tail (c : ascii) (r : string) (p : bool) :
  tidy (String c r) p = true -> tidy r false = true.
Proof.
  simpl. destruct (isspace c).
  - intros H. apply andb_true_iff in H. destruct H as [_ H].
    now apply tidy_weaken.
  - trivial.
Qed.

Lemma tidy_collapse_ws (s : string) (in_ws : bool) :
  tidy (collapse_ws s in_ws) in_ws = true.
Proof.
  revert in_ws. induction s as [| c r IH]; intros in_ws; simpl; [reflexivity |].
  destruct (isspace c) eqn:Hc.
  - destruct in_ws; [apply IH |]. simpl. apply IH.
  - simpl. rewrite Hc. apply tidy_prev with (p := false). apply IH.
Qed.

Lemma tidy_lstrip (s : string) : tidy s false = true -> tidy (lstrip s) false = true.
Proof.
  induction s as [| c r IH]; simpl; [trivial |].
  destruct (isspace c) eqn:Hc; [| simpl; now rewrite Hc].
  intros H. apply IH. apply andb_true_iff in H. destruct H as [_ H].
  now apply tidy_weaken.
Qed.

Lemma tidy_drop_while (f : ascii -> bool) (s : string) :
  tidy s false = true -> tidy (drop_while f s) false = true.
Proof.
  induction s as [| c r IH]; simpl; [trivial |].
  destruct (f c); [| trivial].
  intros H. apply IH. change (tidy (String c r) false = true) in H.
  now apply tidy_tail in H.
Qed.

Lemma tidy_rstrip (s : string) (p : bool) :
  tidy s p = true -> tidy (rstrip s) p = true.
Proof.
  revert p. induction s as [| c r IH]; intros p; simpl; [trivial |].
  destruct (isspace c) eqn:Hc.
  - intros H. apply andb_true_iff in H. destruct H as [Hp H].
    specialize (IH true H).
    destruct (rstrip r) as [| d r']; [reflexivity |].
    simpl. rewrite Hc. simpl in IH. now rewrite Hp, IH.
  - intros H. specialize (IH false H).
    destruct (rstrip r) as [| d r']; simpl; rewrite Hc; [reflexivity | exact IH].
Qed.

Lemma tidy_strip (s : string) : tidy s false = true -> tidy (strip s) false = true.
Proof. intros H. unfold strip. now apply tidy_rstrip, tidy_lstrip. Qed.

Lemma tidy_strip_page_prefix (s : string) :
  tidy s false = true -> tidy (strip_page_prefix s) false = true.
Proof.
  intros H. unfold strip_page_prefix.
  set (s1 := match s with
             | String c r => if is_AZ c then r else s
             | EmptyString => s
             end).
  assert (H1 : tidy s1 false = true).
  { subst s1. destruct s as [| c r]; [exact H |].
    destruct (is_AZ c); [now apply tidy_tail in H | exact H]. }
  set (s2 := match s1 with
             | String c r => if Ascii.eqb c "-" then r else s1
             | EmptyString => s1
             end).
  assert (H2 : tidy s2 false = true).
  { subst s2. destruct s1 as [| c r]; [exact H1 |].
    destruct (Ascii.eqb c "-"); [now apply tidy_tail in H1 | exact H1]. }
  destruct s2 as [| c r]; [exact H |].
  destruct (isdigit c); [| exact H].
  apply tidy_tail in H2. apply (tidy_drop_while isdigit) in H2.
  destruct (drop_while isdigit r) as [| d r']; [exact H |].
  destruct (isspace d); [| exact H].
  apply tidy_lstrip. now apply tidy_tail in H2.
Qed.

Lemma tidy_strip_hashes (s : string) :
  tidy s false = true -> tidy (strip_hashes s) false = true.
Proof.
  intros H. unfold strip_hashes. destruct s as [| c r]; [exact H |].
  destruct (is_hash c); [| exact H].
  apply tidy_lstrip, tidy_drop_while. now apply tidy_tail in H.
Qed.

(** X6. A normalized heading is never empty, has no white space at either
    end, and holds no white space but single plain spaces: no line break,
    no tab, no run of spaces. *)
Theorem clean_heading_normal_form :
  forall text : string,
    nonempty (clean_heading text) = true
    /\ strip (clean_heading text) = clean_heading text
    /\ tidy (clean_heading text) false = true.
Proof.
  intros text. unfold clean_heading.
  set (t1 := strip (collapse_ws text false)).
  set (t2 := strip (strip_page_prefix t1)).
  set (t3 := strip (strip_hashes t2)).
  assert (H1 : tidy t1 false = true)
    by (apply tidy_strip, tidy_collapse_ws).
  assert (H2 : tidy t2 false = true)
    by (apply tidy_strip, tidy_strip_page_prefix, H1).
  assert (H3 : tidy t3 false = true)
    by (apply tidy_strip, tidy_strip_hashes, H2).
  destruct (nonempty t3) eqn:E.
  - split; [exact E |]. split; [apply strip_idempotent | exact H3].
  - repeat split; reflexivity.
Qed.

(** ** Sentences *)

Lemma split_from_non_last_end (s : string) :
  forall prev_end in_sep,
    non_last_end (prev_end && negb in_sep) (split_from s prev_end in_sep).
Proof.
  induction s as [| c r IH]; intros prev_end in_sep; simpl; [exact I |].
  destruct (isspace c && (in_sep || prev_end)) eqn:Hsep.
  - destruct in_sep.
    + rewrite andb_false_r. apply (IH false true).
    + simpl in Hsep. apply andb_true_iff in Hsep. destruct Hsep as [_ ->].
      pose proof (split_from_nonnil r false true) as Hne.
      pose proof (IH false true) as H. simpl in H.
      destruct (split_from r false true) as [| h' t']; [congruence |].
      split; [reflexivity | exact H].
  - pose proof (IH (is_sentence_end c) false) as H.
    destruct (split_from r (is_sentence_end c) false) as [| p ps]; [exact I |].
    destruct ps as [| q ps]; [exact I |].
    rewrite andb_true_r in H. destruct H as [Hp Hrest].
    split; [exact Hp | exact Hrest].
Qed.

Lemma non_last_end_removelast (l : list string) (prev_end : bool) :
  non_last_end prev_end l ->
  match l with
  | [] => True
  | h :: rest =>
      (rest <> [] -> ends_after prev_end h = true)
      /\ Forall (fun p => ends_sentence p = true) (removelast rest)
  end.
Proof.
  revert prev_end. induction l as [| h rest IH]; intros prev_end H; [exact I |].
  destruct rest as [| q rest]; [split; [congruence | constructor] |].
  destruct H as [Hh Hrest]. split; [intros _; exact Hh |].
  specialize (IH false Hrest). destruct IH as [Hq Hall].
  destruct rest as [| q' rest]; [constructor |].
  change (removelast (q :: q' :: rest)) with (q :: removelast (q' :: rest)).
  constructor; [apply Hq; discriminate | exact Hall].
Qed.

Lemma split_from_leading (s : string) :
  forall prev_end in_sep,
    match split_from s prev_end in_sep with
    | [] => True
    | h :: t =>
        (in_sep = true -> no_leading_space h = true)
        /\ Forall (fun p => no_leading_space p = true) t
    end.
Proof.
  induction s as [| c r IH]; intros prev_end in_sep; simpl;
    [split; [reflexivity | constructor] |].
  destruct (isspace c && (in_sep || prev_end)) eqn:Hsep.
  - destruct in_sep; [apply (IH false true) |].
    pose proof (IH false true) as H.
    destruct (split_from r false true) as [| h' t'];
      [split; [discriminate | constructor] |].
    destruct H as [Hh Ht]. split; [discriminate |].
    constructor; [now apply Hh | exact Ht].
  - pose proof (IH (is_sentence_end c) false) as H.
    destruct (split_from r (is_sentence_end c) false) as [| p ps].
    + split; [| constructor]. intros ->. simpl in *.
      rewrite andb_true_r in Hsep. now rewrite Hsep.
    + destruct H as [_ Ht]. split; [| exact Ht].
      intros ->. simpl in *. rewrite andb_true_r in Hsep. now rewrite Hsep.
Qed.

Lemma len_String (c : ascii) (s : string) : len (String c s) = len s + 1.
Proof. unfold len. simpl. lia. Qed.

Lemma len_append (a b : string) : len (a ++ b)%string = len a + len b.
Proof.
  unfold len. induction a as [| c a IH]; simpl String.length; [lia |].
  change ((String c a ++ b)%string) with (String c (a ++ b)%string).
  simpl String.length. lia.
Qed.

Lemma join_len (sep : string) (l : list string) :
  l <> [] ->
  len (join sep l) = total_len l + len sep * (Z.of_nat (List.length l) - 1).
Proof.
  induction l as [| p l IH]; [congruence |]. intros _.
  destruct l as [| q l].
  - simpl. lia.
  - change (join sep (p :: q :: l)) with (p ++ sep ++ join sep (q :: l))%string.
    rewrite !len_append, IH by discriminate.
    change (total_len (p :: q :: l)) with (len p + total_len (q :: l)).
    change (List.length (p :: q :: l)) with (S (List.length (q :: l))).
    lia.
Qed.

Lemma split_from_length (s : string) :
  forall prev_end in_sep,
    let l := split_from s prev_end in_sep in
    total_len l + (Z.of_nat (List.length l) - 1) <= len s.
Proof.
  induction s as [| c r IH]; intros prev_end in_sep; cbv zeta; simpl;
    [unfold len; simpl; lia |].
  rewrite len_String.
  destruct (isspace c && (in_sep || prev_end)).
  - destruct in_sep.
    + specialize (IH false true). cbv zeta in IH. lia.
    + specialize (IH false true). cbv zeta in IH.
      change (total_len (EmptyString :: split_from r false true))
        with (len EmptyString + total_len (split_from r false true)).
      change (List.length (EmptyString :: split_from r false true))
        with (S (List.length (split_from r false true))).
      unfold len at 1. simpl String.length. lia.
  - specialize (IH (is_sentence_end c) false). cbv zeta in IH.
    destruct (split_from r (is_sentence_end c) false) as [| p ps].
    + simpl in *. unfold len in *. simpl. lia.
    + change (total_len (String c p :: ps)) with (len (String c p) + total_len ps).
      change (total_len (p :: ps)) with (len p + total_len ps) in IH.
      rewrite len_String. simpl List.length in *. lia.
Qed.

(** X7. The sentence split never returns an empty list; every piece but the
    last is non-empty and ends with one of [.!?]; no piece after the first
    starts with white space; and the pieces joined by single spaces are
    never longer than the text. *)
Theorem split_sentences_shape :
  forall text : string,
    let pieces := split_sentences text in
    pieces <> []
    /\ Forall (fun p => ends_sentence p = true) (removelast pieces)
    /\ Forall (fun p => no_leading_space p = true) (tl pieces)
    /\ len (join " " pieces) <= len text.
Proof.
  intros text pieces. subst pieces. unfold split_sentences.
  pose proof (split_from_nonnil text false false) as Hne.
  pose proof (split_from_non_last_end text false false) as Hend.
  pose proof (split_from_leading text false false) as Hlead.
  pose proof (split_from_length text false false) as Hlen.
  cbv zeta in Hlen. simpl andb in Hend.
  split; [exact Hne |].
  rewrite (join_len " " _ Hne).
  destruct (split_from text false false) as [| h rest]; [congruence |].
  apply non_last_end_removelast in Hend. destruct Hend as [Hh Hall].
  destruct Hlead as [_ Hlead].
  split; [| split; [exact Hlead | change (len " ") with 1; lia]].
  destruct rest as [| q rest]; [constructor |].
  change (removelast (h :: q :: rest)) with (h :: removelast (q :: rest)).
  constructor; [apply Hh; discriminate | exact Hall].
Qed.

(** ** What the splitter keeps of the text *)

Section SplitterCoverageProofs.

Variable count_tokens : string -> Z.

Lemma all_new_extend (overlap : Z) (g g' : list string) :
  forall l prev,
    all_new count_tokens overlap prev ((l ++ [g]) ++ [g'])
    = all_new count_tokens overlap prev (l ++ [g])
      ++ new_sentences count_tokens overlap (Some g) g'.
Proof.
  induction l as [| x l IH]; intros prev; simpl.
  - now rewrite !app_nil_r.
  - rewrite IH. now rewrite app_assoc.
Qed.

Lemma all_new_grow (max_tokens overlap : Z) (g : list string) (s : string) :
  forall l prev,
    groups_ok count_tokens max_tokens overlap prev (l ++ [g]) ->
    all_new count_tokens overlap prev (l ++ [g ++ [s]])
    = all_new count_tokens overlap prev (l ++ [g]) ++ [s].
Proof.
  induction l as [| x l IH]; intros prev H; simpl in *.
  - destruct H as [(more & _ & Hg & _) _]. rewrite !app_nil_r.
    unfold new_sentences. rewrite Hg, <- app_assoc.
    rewrite !skipn_app, !skipn_all, Nat.sub_diag. reflexivity.
  - destruct H as [_ H]. rewrite (IH _ H). now rewrite app_assoc.
Qed.

Lemma carried_seed (overlap : Z) (current seed : list string) (toks : Z) :
  overlap_seed count_tokens current overlap = (seed, toks) ->
  carried count_tokens overlap (Some current) = seed.
Proof. intros H. simpl. now rewrite H. Qed.

(** Besides [run_invariant]: the new sentences of the finalized lists and of
    [current] are the sentences read so far. *)
Lemma coverage_step (max_tokens overlap : Z) seen groups current toks
    (sentence : string) :
  run_invariant count_tokens max_tokens overlap seen (groups, current, toks) ->
  (current <> [] ->
   all_new count_tokens overlap None (groups ++ [current]) = seen) ->
  let '(groups', current', _) :=
    group_step count_tokens max_tokens overlap (groups, current, toks) sentence in
  all_new count_tokens overlap None (groups' ++ [current'])
  = seen ++ [sentence].
Proof.
  intros (Ht & Hinv) Hcov. unfold group_step, finalizes.
  destruct Hinv as [(-> & -> & ->) | (Hne & Hok & _)].
  - rewrite andb_false_r. reflexivity.
  - specialize (Hcov Hne).
    destruct current as [| c0 cur]; [congruence |]. cbn [nonnil].
    rewrite andb_true_r.
    destruct (max_tokens <? toks + count_tokens sentence).
    + destruct (overlap_seed count_tokens (c0 :: cur) overlap) as [seed t'] eqn:E.
      rewrite all_new_extend, Hcov. f_equal.
      unfold new_sentences. rewrite (carried_seed _ _ _ _ E).
      rewrite skipn_app, skipn_all, Nat.sub_diag. reflexivity.
    + rewrite (all_new_grow max_tokens overlap _ _ _ _ Hok). now rewrite Hcov.
Qed.

Lemma coverage_fold (max_tokens overlap : Z) (sentences : list string) :
  forall seen groups current toks,
    run_invariant count_tokens max_tokens overlap seen (groups, current, toks) ->
    (current <> [] ->
     all_new count_tokens overlap None (groups ++ [current]) = seen) ->
    let '(groups', current', _) :=
      fold_left (group_step count_tokens max_tokens overlap) sentences
        (groups, current, toks) in
    (sentences <> [] \/ current <> [] ->
     all_new count_tokens overlap None (groups' ++ [current'])
     = seen ++ sentences)
    /\ (List.length groups' + (if nonnil current' then 1 else 0)
        <= List.length groups + (if nonnil current then 1 else 0)
           + List.length sentences)%nat.
Proof.
  induction sentences as [| s l IH]; intros seen groups current toks Hinv Hcov.
  - simpl. split; [| lia]. intros [H | H]; [congruence |].
    rewrite app_nil_r. now apply Hcov.
  - cbn [fold_left].
    pose proof (coverage_step max_tokens overlap seen groups current toks s
                  Hinv Hcov) as Hstep.
    pose proof (run_invariant_step count_tokens max_tokens overlap seen
                  (groups, current, toks) s Hinv) as Hinv'.
    assert (Hcount :
      let '(groups', current', _) :=
        group_step count_tokens max_tokens overlap (groups, current, toks) s in
      (List.length groups' + (if nonnil current' then 1 else 0)
       <= List.length groups + (if nonnil current then 1 else 0) + 1)%nat).
    { unfold group_step.
      destruct (finalizes count_tokens max_tokens current toks s) eqn:Hf.
      - destruct (overlap_seed count_tokens current overlap) as [seed t'].
        unfold finalizes in Hf. apply andb_true_iff in Hf. destruct Hf as [_ Hf].
        rewrite Hf, length_app. destruct (seed ++ [s]); simpl; lia.
      - destruct (current ++ [s]); destruct current; simpl; lia. }
    destruct (group_step count_tokens max_tokens overlap (groups, current, toks) s)
      as [[groups1 current1] toks1].
    specialize (IH (seen ++ [s]) groups1 current1 toks1 Hinv' (fun _ => Hstep)).
    destruct (fold_left (group_step count_tokens max_tokens overlap) l
                (groups1, current1, toks1)) as [[groups2 current2] toks2].
    cbv beta iota in IH, Hcount |- *.
    destruct IH as [IHcov IHlen]. split.
    + intros _. rewrite <- app_assoc in IHcov. apply IHcov. right.
      destruct Hinv' as (_ & [(Hs & _) | (Hc & _)]); [| exact Hc].
      now destruct seen.
    + simpl List.length. lia.
Qed.

(** X8. Nothing of the text is lost or reordered by the splitter: reading
    the chunks in order and dropping from each the sentences carried over
    from the previous one gives back the sentences of the text, each one
    once. In particular there are never more chunks than sentences. *)
Theorem split_keeps_every_sentence_once :
  forall (text : string) (max_tokens overlap : Z),
    let groups := sentence_groups count_tokens text max_tokens overlap in
    all_new count_tokens overlap None groups = split_sentences text
    /\ (List.length groups <= List.length (split_sentences text))%nat.
Proof.
  intros text max_tokens overlap. unfold sentence_groups. cbv zeta.
  pose proof (split_from_nonnil text false false) as Hne.
  fold (split_sentences text) in Hne.
  assert (Hinv : run_invariant count_tokens max_tokens overlap [] ([], [], 0))
    by (simpl; split; [reflexivity | left; repeat split; reflexivity]).
  pose proof (coverage_fold max_tokens overlap (split_sentences text)
                [] [] [] 0 Hinv (fun H => False_ind _ (H eq_refl))) as H.
  destruct (fold_left (group_step count_tokens max_tokens overlap)
              (split_sentences text) ([], [], 0)) as [[groups current] toks].
  destruct H as [Hcov Hlen]. specialize (Hcov (or_introl Hne)).
  simpl in Hcov, Hlen.
  destruct current as [| c0 cur]; cbn [nonnil] in *.
  - assert (E : forall l prev,
               all_new count_tokens overlap prev (l ++ [[]])
               = all_new count_tokens overlap prev l).
    { induction l as [| x l IH]; intros prev; simpl.
      - unfold new_sentences. now rewrite skipn_nil.
      - now rewrite IH. }
    rewrite E in Hcov. split; [exact Hcov | lia].
  - split; [exact Hcov |]. rewrite length_app. simpl. lia.
Qed.

(** *** A text within the budget *)

Lemma fold_without_finalizing (max_tokens overlap : Z) :
  (forall s, 0 <= count_tokens s) ->
  forall rest p,
    sum_tokens count_tokens p + sum_tokens count_tokens rest <= max_tokens ->
    fold_left (split_step count_tokens max_tokens overlap) rest
      (mkSplit [] p (sum_tokens count_tokens p))
    = mkSplit [] (p ++ rest) (sum_tokens count_tokens (p ++ rest)).
Proof.
  intros Hpos. induction rest as [| s rest IH]; intros p Hsum; simpl.
  - now rewrite app_nil_r.
  - assert (Hrest : 0 <= sum_tokens count_tokens rest).
    { clear - Hpos. induction rest as [| x l IHl]; simpl; [lia |].
      specialize (Hpos x). lia. }
    unfold split_step at 2. unfold finalizes. cbn [sp_current sp_tokens sp_chunks].
    simpl in Hsum.
    destruct (Z.ltb_spec max_tokens
                (sum_tokens count_tokens p + count_tokens s)) as [Hlt | Hge];
      [lia |].
    cbn [andb sp_chunks sp_current sp_tokens].
    replace (sum_tokens count_tokens p + count_tokens s)
      with (sum_tokens count_tokens (p ++ [s]))
      by (rewrite sum_tokens_app; simpl; lia).
    rewrite IH.
    + now rewrite <- app_assoc.
    + rewrite sum_tokens_app. simpl. lia.
Qed.

(** X9. With an estimator that is never negative, a text whose sentence
    estimates sum to at most [max_tokens] comes back as one chunk: its
    sentences joined by single spaces, whatever the overlap. *)
Theorem split_within_budget_is_one_chunk :
  forall (text : string) (max_tokens overlap : Z),
    (forall s, 0 <= count_tokens s) ->
    sum_tokens count_tokens (split_sentences text) <= max_tokens ->
    split_text_by_tokens count_tokens text max_tokens overlap
    = [join " " (split_sentences text)].
Proof.
  intros text max_tokens overlap Hpos Hsum. unfold split_text_by_tokens. cbv zeta.
  change (mkSplit [] [] 0) with (mkSplit [] [] (sum_tokens count_tokens [])).
  rewrite (fold_without_finalizing max_tokens overlap Hpos) by (simpl; lia).
  cbn [sp_current sp_chunks app].
  pose proof (split_from_nonnil text false false) as Hne.
  fold (split_sentences text) in Hne.
  destruct (split_sentences text); [congruence | reflexivity].
Qed.

End SplitterCoverageProofs.

Lemma split_within_budget_is_one_chunk_witness :
  split_text_by_tokens Fallback.count_tokens
    "One short note. It has two sentences." 4000 200
  = [join " " (split_sentences "One short note. It has two sentences.")].
Proof.
  apply (split_within_budget_is_one_chunk Fallback.count_tokens
           "One short note. It has two sentences." 4000 200).
  - apply count_tokens_nonneg.
  - vm_compute. discriminate.
Defined.

(** ** Sections *)

Lemma join_cons (sep p : string) (l : list string) :
  l <> [] -> join sep (p :: l) = (p ++ sep ++ join sep l)%string.
Proof. destruct l; [congruence | reflexivity]. Qed.

Lemma append_assoc (a b c : string) :
  ((a ++ b) ++ c)%string = (a ++ b ++ c)%string.
Proof.
  induction a as [| x a IH]; [reflexivity |].
  change (String x ((a ++ b) ++ c)%string = String x (a ++ b ++ c)%string).
  now rewrite IH.
Qed.

Lemma join_app (sep : string) (l1 l2 : list string) :
  l1 <> [] -> l2 <> [] ->
  join sep (l1 ++ l2) = (join sep l1 ++ sep ++ join sep l2)%string.
Proof.
  intros H1 H2. induction l1 as [| p l1 IH]; [congruence |].
  destruct l1 as [| q l1].
  - simpl app. now rewrite join_cons.
  - change ((p :: q :: l1) ++ l2) with (p :: (q :: l1) ++ l2).
    rewrite join_cons by discriminate.
    rewrite IH by discriminate.
    rewrite (join_cons sep p (q :: l1)) by discriminate.
    now rewrite !append_assoc.
Qed.

Lemma blocks_to_text_app (l1 l2 : list TextBlock.t) :
  l1 <> [] -> l2 <> [] ->
  blocks_to_text (l1 ++ l2)
  = (blocks_to_text l1 ++ newline ++ blocks_to_text l2)%string.
Proof.
  intros H1 H2. unfold blocks_to_text. rewrite map_app.
  apply join_app; now destruct l1, l2.
Qed.

Lemma skipn_nonnil {A : Type} (n : nat) (l : list A) :
  (n < List.length l)%nat -> skipn n l <> [].
Proof.
  intros H E. pose proof (length_skipn n l) as Hl. rewrite E in Hl.
  simpl in Hl. lia.
Qed.

Lemma slice_split {A : Type} (l : list A) (a b : nat) :
  (a <= b)%nat -> skipn a l = slice l a b ++ skipn b l.
Proof.
  intros H. unfold slice.
  replace (skipn b l) with (skipn (b - a) (skipn a l)).
  - symmetry. apply firstn_skipn.
  - rewrite skipn_skipn. f_equal. lia.
Qed.

Section Sections.

Variable count_tokens : string -> Z.

Lemma build_sections_text (blocks : list TextBlock.t) :
  forall boundaries,
    boundaries <> [] ->
    strictly_increasing (map SectionBoundary.index boundaries) ->
    Forall (fun b => (SectionBoundary.index b < List.length blocks)%nat)
      boundaries ->
    join newline (map Sect.text (build_sections count_tokens blocks boundaries))
    = blocks_to_text (skipn (first_index boundaries) blocks).
Proof.
  induction boundaries as [| b rest IH]; [congruence |].
  intros _ Hinc Hrange. simpl in Hinc. destruct Hinc as [Hlt Hinc].
  inversion Hrange as [| ? ? Hb Hrest]; subst.
  destruct rest as [| b' rest].
  - simpl. unfold slice. rewrite firstn_all2; [reflexivity |].
    rewrite length_skipn. lia.
  - inversion Hlt as [| ? ? Hbb' _]; subst.
    inversion Hrest as [| ? ? Hb' _]; subst.
    change (build_sections count_tokens blocks (b :: b' :: rest))
      with (make_section count_tokens (SectionBoundary.heading b)
              (SectionBoundary.level b)
              (slice blocks (SectionBoundary.index b) (SectionBoundary.index b'))
            :: build_sections count_tokens blocks (b' :: rest)).
    cbn [map]. rewrite join_cons by (simpl; discriminate).
    rewrite IH by (auto; discriminate).
    cbn [first_index Sect.text make_section].
    rewrite (slice_split blocks (SectionBoundary.index b)
               (SectionBoundary.index b')) by lia.
    rewrite blocks_to_text_app; [reflexivity | | now apply skipn_nonnil].
    unfold slice. intros E.
    pose proof (length_firstn
                  (SectionBoundary.index b' - SectionBoundary.index b)
                  (skipn (SectionBoundary.index b) blocks)) as Hl.
    rewrite E, length_skipn in Hl. simpl in Hl. lia.
Qed.

(** X10. Building the sections loses no text. For boundaries at strictly
    increasing indices within the block sequence, the section texts joined
    by newlines are the text of the blocks from the first boundary on; with
    the preamble, which is kept when it is not blank, they are the text of
    the whole block sequence. *)
Theorem sections_cover_the_text :
  forall (blocks : list TextBlock.t) (boundaries : list SectionBoundary.t),
    boundaries <> [] ->
    strictly_increasing (map SectionBoundary.index boundaries) ->
    Forall (fun b => (SectionBoundary.index b < List.length blocks)%nat)
      boundaries ->
    join newline
      (map Sect.text
         (with_preamble count_tokens blocks boundaries
            (build_sections count_tokens blocks boundaries)))
    = blocks_to_text
        (if has_preamble blocks boundaries then blocks
         else skipn (first_index boundaries) blocks).
Proof.
  intros blocks boundaries Hne Hinc Hrange.
  pose proof (build_sections_text blocks boundaries Hne Hinc Hrange) as H.
  unfold with_preamble, has_preamble.
  destruct boundaries as [| first rest]; [congruence |].
  cbn [first_index] in *.
  inversion Hrange as [| ? ? Hfirst _]; subst.
  destruct (Nat.ltb_spec 0 (SectionBoundary.index first)) as [Hpos | Hzero];
    cbn [andb]; [| exact H].
  destruct (nonempty
              (strip (blocks_to_text (firstn (SectionBoundary.index first) blocks))));
    [| exact H].
  cbn [map]. rewrite join_cons.
  - rewrite H. cbn [Sect.text make_section].
    rewrite <- (firstn_skipn (SectionBoundary.index first) blocks) at 3.
    rewrite blocks_to_text_app; [reflexivity | | now apply skipn_nonnil].
    intros E.
    pose proof (length_firstn (SectionBoundary.index first) blocks) as Hl.
    rewrite E in Hl. simpl in Hl. lia.
  - simpl. destruct rest; discriminate.
Qed.

End Sections.

Lemma sections_cover_the_text_witness :
  join newline
    (map Sect.text
       (with_preamble Fallback.count_tokens sample_markdown
          (detect_boundaries sample_markdown)
          (build_sections Fallback.count_tokens sample_markdown
             (detect_boundaries sample_markdown))))
  = blocks_to_text sample_markdown.
Proof.
  apply (sections_cover_the_text Fallback.count_tokens sample_markdown
           (detect_boundaries sample_markdown)).
  - vm_compute. discriminate.
  - vm_compute. repeat constructor.
  - vm_compute. repeat constructor.
Defined.

(** ** Merging *)

Lemma join_snoc (sep x : string) (l : list string) :
  join sep (l ++ [x])
  = if nonnil l then (join sep l ++ sep ++ x)%string else x.
Proof.
  destruct l as [| p l]; [reflexivity |].
  cbn [nonnil]. apply (join_app sep (p :: l) [x]); discriminate.
Qed.

Section Merging.

Variable count_tokens : string -> Z.

Lemma split_text_nonnil (text : string) (max_tokens overlap : Z) :
  split_text_by_tokens count_tokens text max_tokens overlap <> [].
Proof.
  unfold split_text_by_tokens. cbv zeta.
  match goal with
  | |- (if nonnil ?c then _ else _) <> [] => destruct c; simpl; discriminate
  end.
Qed.

Lemma merge_step_small (max_tokens overlap : Z) (merged : list Sect.t)
    (buffer : option Sect.t) (section : Sect.t) :
  Sect.tokens section <= max_tokens ->
  merge_step count_tokens max_tokens overlap (merged, buffer) section
  = match buffer with
    | Some b =>
        if (Sect.tokens b <? 100)
           || (5 * (Sect.tokens b + Sect.tokens section) <? 4 * max_tokens)
        then (merged, Some (absorb b section))
        else (merged ++ [b], Some section)
    | None => (merged, Some section)
    end.
Proof.
  intros H. unfold merge_step.
  destruct (Z.ltb_spec max_tokens (Sect.tokens section)); [lia | reflexivity].
Qed.

(** Without an oversized section, a step of the loop keeps the texts held,
    joined by blank lines, and the sum of the token counts held. *)
Lemma merge_step_keeps (max_tokens overlap : Z) (seen : list Sect.t)
    (st : list Sect.t * option Sect.t) (section : Sect.t) :
  Sect.tokens section <= max_tokens ->
  join blank_line (map Sect.text (held st)) = join blank_line (map Sect.text seen) ->
  nonnil (held st) = nonnil seen ->
  section_tokens (held st) = section_tokens seen ->
  (List.length (held st) <= List.length seen)%nat ->
  let st' := merge_step count_tokens max_tokens overlap st section in
  join blank_line (map Sect.text (held st'))
  = join blank_line (map Sect.text (seen ++ [section]))
  /\ nonnil (held st') = nonnil (seen ++ [section])
  /\ section_tokens (held st') = section_tokens (seen ++ [section])
  /\ (List.length (held st') <= List.length (seen ++ [section]))%nat.
Proof.
  intros Hsmall Htext Hnil Htok Hlen. destruct st as [merged buffer].
  cbv zeta. rewrite merge_step_small by exact Hsmall.
  assert (Hsum : forall l x,
             section_tokens (l ++ [x]) = section_tokens l + Sect.tokens x).
  { induction l as [| y l IH]; intros x; simpl; [lia | rewrite IH; lia]. }
  assert (Hnn : forall (l : list Sect.t) x, nonnil (l ++ [x]) = true)
    by (intros [| ? ?] ?; reflexivity).
  assert (Hmapnn : forall l : list Sect.t, nonnil (map Sect.text l) = nonnil l)
    by (intros [| ? ?]; reflexivity).
  rewrite (map_app Sect.text seen). cbn [map].
  rewrite join_snoc, Hmapnn, Hsum, Hnn, length_app.
  destruct buffer as [b |]; unfold held in *; cbn [fst snd] in *.
  - destruct ((Sect.tokens b <? 100)
              || (5 * (Sect.tokens b + Sect.tokens section) <? 4 * max_tokens));
      cbn [fst snd].
    + (* the buffer absorbs the section *)
      rewrite Hsum in *. rewrite Hnn in *. rewrite <- Hnil.
      rewrite length_app in *. simpl List.length in *.
      split; [| split; [reflexivity | split; [simpl; lia | lia]]].
      rewrite <- Htext. rewrite !map_app. cbn [map Sect.text absorb].
      rewrite !join_snoc.
      destruct (nonnil (map Sect.text merged));
        now rewrite ?append_assoc.
    + (* the buffer is flushed *)
      rewrite !Hsum in *. rewrite !Hnn in *. rewrite <- Hnil.
      rewrite !length_app in *. simpl List.length in *.
      split; [| split; [reflexivity | split; [lia | lia]]].
      rewrite <- Htext. rewrite (map_app Sect.text (merged ++ [b])). cbn [map].
      rewrite join_snoc, Hmapnn, Hnn. reflexivity.
  - rewrite app_nil_r in *. rewrite Hsum, Hnn, length_app. simpl List.length.
    split; [| split; [reflexivity | split; [lia | lia]]].
    rewrite map_app. cbn [map]. rewrite join_snoc, Hmapnn, Hnil, Htext.
    reflexivity.
Qed.

Lemma merge_fold_keeps (max_tokens overlap : Z) (sections : list Sect.t) :
  Forall (fun s => Sect.tokens s <= max_tokens) sections ->
  forall seen st,
    join blank_line (map Sect.text (held st))
    = join blank_line (map Sect.text seen) ->
    nonnil (held st) = nonnil seen ->
    section_tokens (held st) = section_tokens seen ->
    (List.length (held st) <= List.length seen)%nat ->
    let st' := fold_left (merge_step count_tokens max_tokens overlap) sections st in
    join blank_line (map Sect.text (held st'))
    = join blank_line (map Sect.text (seen ++ sections))
    /\ section_tokens (held st') = section_tokens (seen ++ sections)
    /\ (List.length (held st') <= List.length (seen ++ sections))%nat.
Proof.
  induction 1 as [| s l Hs _ IH]; intros seen st Htext Hnil Htok Hlen; cbv zeta.
  - simpl. rewrite app_nil_r. auto.
  - cbn [fold_left].
    destruct (merge_step_keeps max_tokens overlap seen st s Hs Htext Hnil Htok Hlen)
      as (Ht' & Hn' & Hk' & Hl').
    specialize (IH (seen ++ [s]) _ Ht' Hn' Hk' Hl'). cbv zeta in IH.
    now rewrite <- app_assoc in IH.
Qed.

Lemma merge_sections_held (sections : list Sect.t) (max_tokens overlap : Z) :
  merge_sections count_tokens sections max_tokens overlap
  = held (fold_left (merge_step count_tokens max_tokens overlap) sections ([], None)).
Proof.
  unfold merge_sections, held.
  destruct (fold_left (merge_step count_tokens max_tokens overlap) sections
              ([], None)) as [merged [b |]]; simpl; [reflexivity |].
  now rewrite app_nil_r.
Qed.

(** X11. When no section exceeds [max_tokens], the merge pass only
    concatenates: the texts of the merged sections, joined by blank lines,
    are the texts of the sections joined by blank lines; the recorded token
    counts add up to the same total; and there are no more merged sections
    than sections. *)
Theorem merge_only_concatenates :
  forall (sections : list Sect.t) (max_tokens overlap : Z),
    Forall (fun s => Sect.tokens s <= max_tokens) sections ->
    let merged := merge_sections count_tokens sections max_tokens overlap in
    join blank_line (map Sect.text merged)
    = join blank_line (map Sect.text sections)
    /\ section_tokens merged = section_tokens sections
    /\ (List.length merged <= List.length sections)%nat.
Proof.
  intros sections max_tokens overlap Hsmall. cbv zeta.
  rewrite merge_sections_held.
  apply (merge_fold_keeps max_tokens overlap sections Hsmall [] ([], None));
    reflexivity || (simpl; lia).
Qed.

End Merging.

Lemma merge_only_concatenates_witness :
  join blank_line
    (map Sect.text (merge_sections Fallback.count_tokens sample_sections 4000 200))
  = join blank_line (map Sect.text sample_sections)
  /\ section_tokens (merge_sections Fallback.count_tokens sample_sections 4000 200)
     = section_tokens sample_sections
  /\ (List.length (merge_sections Fallback.count_tokens sample_sections 4000 200)
      <= List.length sample_sections)%nat.
Proof.
  apply (merge_only_concatenates Fallback.count_tokens sample_sections 4000 200).
  repeat constructor; vm_compute; discriminate.
Defined.

(** ** Page ranges of the structure-aware chunker *)

Lemma fold_left_min_le (ps : list Z) (p : Z) : fold_left Z.min ps p <= p.
Proof.
  revert p. induction ps as [| q ps IH]; intros p; simpl; [lia |].
  specialize (IH (Z.min p q)). lia.
Qed.

Lemma fold_left_min_lower (ps : list Z) (p m : Z) :
  m <= p -> Forall (fun q => m <= q) ps -> m <= fold_left Z.min ps p.
Proof.
  revert p. induction ps as [| q ps IH]; intros p Hp H; simpl; [exact Hp |].
  inversion H; subst. apply IH; [lia | assumption].
Qed.

Lemma fold_left_max_upper (ps : list Z) (p m : Z) :
  p <= m -> Forall (fun q => q <= m) ps -> fold_left Z.max ps p <= m.
Proof.
  revert p. induction ps as [| q ps IH]; intros p Hp H; simpl; [exact Hp |].
  inversion H; subst. apply IH; [lia | assumption].
Qed.

Lemma max_or_upper (pages : list Z) (x : Z) :
  In x pages -> x <= max_or 0 pages.
Proof.
  unfold max_or. destruct pages as [| p ps]; [contradiction |].
  revert p. induction ps as [| q ps IH]; intros p; simpl.
  - intros [<- | []]. lia.
  - intros [<- | [<- | H]].
    + pose proof (fold_left_max_ge ps (Z.max p q)). lia.
    + pose proof (fold_left_max_ge ps (Z.max p q)). lia.
    + apply (IH (Z.max p q)). now right.
Qed.

Lemma positive_pages_positive (blocks : list TextBlock.t) :
  Forall (fun p => 0 < p) (positive_pages blocks).
Proof.
  unfold positive_pages. rewrite Forall_forall. intros p H.
  apply filter_In in H. destruct H as [_ H]. now apply Z.ltb_lt in H.
Qed.

Lemma positive_pages_incl (sub blocks : list TextBlock.t) :
  (forall b, In b sub -> In b blocks) ->
  forall p, In p (positive_pages sub) -> In p (positive_pages blocks).
Proof.
  intros Hincl p H. unfold positive_pages in *. apply filter_In in H.
  destruct H as [H Hp]. apply in_map_iff in H. destruct H as (b & <- & Hb).
  apply filter_In. split; [| exact Hp]. apply in_map. now apply Hincl.
Qed.

Section StructurePages.

Variable count_tokens : string -> Z.

Lemma make_section_pages (blocks sub : list TextBlock.t) (heading : string)
    (level : Z) :
  (forall b, In b sub -> In b blocks) ->
  section_pages_ok blocks (make_section count_tokens heading level sub).
Proof.
  intros Hincl. unfold section_pages_ok, pages_in_order, document_pages.
  cbn [make_section Sect.start_page Sect.end_page].
  pose proof (positive_pages_positive sub) as Hpos.
  pose proof (positive_pages_incl sub blocks Hincl) as Hin.
  destruct (positive_pages sub) as [| p ps] eqn:E; cbn [min_or max_or].
  - pose proof (positive_pages_positive blocks) as Hb.
    destruct (positive_pages blocks) as [| q qs]; simpl; [lia |].
    inversion Hb; subst. pose proof (fold_left_max_ge qs q). lia.
  - inversion Hpos as [| ? ? Hp Hps]; subst.
    pose proof (fold_left_min_le ps p). pose proof (fold_left_max_ge ps p).
    assert (0 <= fold_left Z.min ps p).
    { apply fold_left_min_lower; [lia |].
      rewrite Forall_forall in *. intros q Hq. specialize (Hps q Hq). lia. }
    assert (fold_left Z.max ps p <= max_or 0 (positive_pages blocks)).
    { apply fold_left_max_upper.
      - apply max_or_upper, Hin. now left.
      - rewrite Forall_forall. intros q Hq. apply max_or_upper, Hin. now right. }
    lia.
Qed.

Lemma in_firstn {A : Type} (n : nat) (l : list A) (x : A) :
  In x (firstn n l) -> In x l.
Proof.
  intros H. rewrite <- (firstn_skipn n l). apply in_or_app. now left.
Qed.

Lemma in_skipn {A : Type} (n : nat) (l : list A) (x : A) :
  In x (skipn n l) -> In x l.
Proof.
  intros H. rewrite <- (firstn_skipn n l). apply in_or_app. now right.
Qed.

Lemma slice_incl {A : Type} (l : list A) (a b : nat) :
  forall x, In x (slice l a b) -> In x l.
Proof.
  intros x H. unfold slice in H.
  apply (in_skipn a), (in_firstn (b - a)), H.
Qed.

Lemma build_sections_pages (blocks : list TextBlock.t) :
  forall boundaries,
    Forall (section_pages_ok blocks)
      (build_sections count_tokens blocks boundaries).
Proof.
  induction boundaries as [| b rest IH]; simpl; constructor; [| exact IH].
  apply make_section_pages, slice_incl.
Qed.

Lemma with_preamble_pages (blocks : list TextBlock.t) boundaries sections :
  Forall (section_pages_ok blocks) sections ->
  Forall (section_pages_ok blocks)
    (with_preamble count_tokens blocks boundaries sections).
Proof.
  intros H. unfold with_preamble. destruct boundaries as [| first rest]; [exact H |].
  destruct (0 <? SectionBoundary.index first)%nat; [| exact H].
  destruct (nonempty _); [| exact H].
  constructor; [| exact H].
  apply make_section_pages. intros b. apply in_firstn.
Qed.

Lemma merge_step_pages (blocks : list TextBlock.t) (max_tokens overlap : Z)
    (st : list Sect.t * option Sect.t) (section : Sect.t) :
  Forall (section_pages_ok blocks) (held st) ->
  section_pages_ok blocks section ->
  Forall (section_pages_ok blocks)
    (held (merge_step count_tokens max_tokens overlap st section)).
Proof.
  destruct st as [merged buffer]. unfold held. cbn [fst snd].
  intros Hheld Hs. apply Forall_app in Hheld. destruct Hheld as [Hm Hb].
  unfold merge_step.
  destruct (max_tokens <? Sect.tokens section).
  - assert (Hsplit : forall l,
               Forall (section_pages_ok blocks)
                 (split_section count_tokens section l)).
    { intros l. unfold split_section. rewrite Forall_forall. intros x Hx.
      apply in_map_iff in Hx. destruct Hx as ([j t] & <- & _). exact Hs. }
    destruct buffer as [b |].
    + destruct (Sect.tokens b <? 100); cbn [fst snd]; rewrite app_nil_r;
        repeat (apply Forall_app; split); auto.
    + cbn [fst snd]. rewrite app_nil_r. apply Forall_app. auto.
  - destruct buffer as [b |].
    + inversion Hb as [| ? ? Hb' _]; subst.
      destruct ((Sect.tokens b <? 100)
                || (5 * (Sect.tokens b + Sect.tokens section) <? 4 * max_tokens));
        cbn [fst snd].
      * apply Forall_app. split; [exact Hm |]. constructor; [| constructor].
        unfold section_pages_ok, pages_in_order in *.
        cbn [absorb Sect.start_page Sect.end_page]. lia.
      * apply Forall_app. split; [| constructor; [exact Hs | constructor]].
        apply Forall_app. split; [exact Hm | constructor; [exact Hb' | constructor]].
    + cbn [fst snd]. apply Forall_app.
      split; [exact Hm | constructor; [exact Hs | constructor]].
Qed.

Lemma merge_sections_pages (blocks : list TextBlock.t) (max_tokens overlap : Z)
    (sections : list Sect.t) :
  Forall (section_pages_ok blocks) sections ->
  Forall (section_pages_ok blocks)
    (merge_sections count_tokens sections max_tokens overlap).
Proof.
  intros H. rewrite merge_sections_held.
  assert (Hinit : Forall (section_pages_ok blocks) (held ([], None)))
    by constructor.
  revert Hinit. generalize (@nil Sect.t, @None Sect.t).
  induction H as [| s l Hs _ IH]; intros st Hst; simpl; [exact Hst |].
  apply IH. now apply merge_step_pages.
Qed.

(** X12. In structure-aware mode every chunk has a well-formed page range,
    whatever the boundaries: [0 <= start_page <= end_page], and [end_page]
    is at most the largest page number of the document. Page 0 stands for
    blocks without page numbers. *)
Theorem structure_chunk_page_range :
  forall (blocks : list TextBlock.t) (boundaries : list SectionBoundary.t)
         (max_tokens overlap : Z),
    Forall (chunk_pages_ok blocks)
      (chunk_by_structure count_tokens blocks boundaries max_tokens overlap).
Proof.
  intros blocks boundaries max_tokens overlap. unfold chunk_by_structure.
  destruct boundaries as [| b bs]; [constructor |]. cbv zeta.
  pose proof (merge_sections_pages blocks max_tokens overlap _
                (with_preamble_pages blocks (sorted_by_index (b :: bs)) _
                   (build_sections_pages blocks (sorted_by_index (b :: bs)))))
    as H.
  unfold number_chunks. rewrite Forall_forall in *. intros c Hc.
  apply in_map_iff in Hc. destruct Hc as ([i s] & <- & Hs).
  apply (H s). clear - Hs.
  revert Hs. generalize 0%nat.
  induction (merge_sections count_tokens
               (with_preamble count_tokens blocks (sorted_by_index (b :: bs))
                  (build_sections count_tokens blocks (sorted_by_index (b :: bs))))
               max_tokens overlap) as [| x l IH]; intros n; simpl; [tauto |].
  intros [[= _ <-] | H]; [now left | right; eauto].
Qed.

End StructurePages.

(** ** What a processed file holds *)

Section Processed.

Variable count_tokens : string -> Z.
Variable page_offset : Z -> Z -> Z -> Z.

Lemma merge_step_held_nonnil (max_tokens overlap : Z)
    (st : list Sect.t * option Sect.t) (section : Sect.t) :
  held (merge_step count_tokens max_tokens overlap st section) <> [].
Proof.
  destruct st as [merged buffer]. unfold merge_step, held.
  assert (Hsnoc : forall (l : list Sect.t) x, l ++ [x] <> [])
    by (intros [| ? ?] ?; discriminate).
  destruct (max_tokens <? Sect.tokens section).
  - assert (Hsplit : forall l text,
               (l ++ split_section count_tokens section
                       (split_text_by_tokens count_tokens text max_tokens overlap))
               ++ [] <> []).
    { intros l text. rewrite app_nil_r.
      pose proof (split_text_nonnil count_tokens text max_tokens overlap) as H.
      unfold split_section.
      destruct (split_text_by_tokens count_tokens text max_tokens overlap);
        [congruence |].
      destruct l; discriminate. }
    destruct buffer as [b |]; [destruct (Sect.tokens b <? 100) |];
      cbn [fst snd]; apply Hsplit.
  - destruct buffer as [b |]; [destruct (_ || _) |]; cbn [fst snd]; apply Hsnoc.
Qed.

Lemma merge_sections_nonnil (sections : list Sect.t) (max_tokens overlap : Z) :
  sections <> [] ->
  merge_sections count_tokens sections max_tokens overlap <> [].
Proof.
  intros Hne. rewrite merge_sections_held.
  generalize (@nil Sect.t, @None Sect.t).
  induction sections as [| s l IH]; [congruence |]. intros st. cbn [fold_left].
  destruct l as [| s' l]; [apply merge_step_held_nonnil |].
  apply IH. discriminate.
Qed.

Lemma insert_by_index_nonnil b l : insert_by_index b l <> [].
Proof.
  destruct l as [| x l]; simpl; [discriminate |].
  destruct (_ <=? _)%nat; discriminate.
Qed.

Lemma chunk_by_structure_nonnil blocks boundaries max_tokens overlap :
  boundaries <> [] ->
  chunk_by_structure count_tokens blocks boundaries max_tokens overlap <> [].
Proof.
  intros Hne. unfold chunk_by_structure.
  destruct boundaries as [| b bs]; [congruence |]. cbv zeta.
  intros E. apply (f_equal (@List.length _)) in E.
  rewrite number_chunks_length in E. simpl in E.
  apply length_zero_iff_nil in E. revert E. apply merge_sections_nonnil.
  unfold with_preamble.
  pose proof (insert_by_index_nonnil b (sorted_by_index bs)) as Hs.
  change (sorted_by_index (b :: bs)) with (insert_by_index b (sorted_by_index bs)).
  destruct (insert_by_index b (sorted_by_index bs)) as [| first rest];
    [congruence |].
  destruct (0 <? SectionBoundary.index first)%nat; [| simpl; discriminate].
  destruct (nonempty _); simpl; discriminate.
Qed.

Lemma chunk_by_tokens_nonnil blocks max_tokens overlap :
  chunk_by_tokens count_tokens page_offset blocks max_tokens overlap <> [].
Proof.
  unfold chunk_by_tokens. cbv zeta. intros E.
  apply (f_equal (@List.length _)) in E. rewrite token_chunks_length in E.
  simpl in E. apply length_zero_iff_nil in E.
  now apply split_text_nonnil in E.
Qed.

(** X13. A file is skipped exactly when its extension is not supported or
    its blocks hold fewer than 50 characters in all. A file that is
    processed always has at least one chunk, in either mode, and reports the
    summed block lengths, the largest page number and the estimate of the
    whole text. *)
Theorem processed_file_has_chunks :
  forall (ext : string) (blocks : list TextBlock.t) (max_tokens overlap : Z),
    (extract_and_chunk count_tokens page_offset ext blocks max_tokens overlap
     = None
     <-> supported ext = false \/ sum_chars blocks < 50)
    /\ forall r,
         extract_and_chunk count_tokens page_offset ext blocks max_tokens overlap
         = Some r ->
         Result.chunks r <> []
         /\ Result.total_chars r = sum_chars blocks
         /\ Result.total_pages r = document_pages blocks
         /\ Result.total_tokens r = count_tokens (blocks_to_text blocks).
Proof.
  intros ext blocks max_tokens overlap. unfold extract_and_chunk, supported.
  destruct (existsb (String.eqb ext) SUPPORTED_EXTENSIONS); cbn [negb].
  - destruct (Z.ltb_spec (sum_chars blocks) 50) as [Hlt | Hge].
    + split; [split; [intros _; now right | reflexivity] | discriminate].
    + destruct (Nat.leb_spec 3
                  (List.length (high_confidence (detect_boundaries blocks))))
        as [H3 | H3].
      * split; [split; [discriminate | intros [H | H]; [discriminate | lia]] |].
        intros r [= <-]. cbn. repeat split.
        apply chunk_by_structure_nonnil.
        destruct (high_confidence (detect_boundaries blocks));
          [simpl in H3; lia | discriminate].
      * split; [split; [discriminate | intros [H | H]; [discriminate | lia]] |].
        intros r [= <-]. cbn. repeat split. apply chunk_by_tokens_nonnil.
  - split; [split; [intros _; now left | reflexivity] | discriminate].
Qed.

Lemma token_chunks_texts (tc tp ppc : Z) (i : nat) (off : Z) (l : list string) :
  map Chunk.text (token_chunks count_tokens page_offset tc tp ppc i off l) = l
  /\ Forall (fun c => Chunk.level c = 1
                      /\ Chunk.heading c
                         = ("Section " ++ str_of_nat (Z.to_nat (Chunk.id c)))%string)
       (token_chunks count_tokens page_offset tc tp ppc i off l).
Proof.
  revert i off. induction l as [| x l IH]; intros i off; cbn [token_chunks map].
  - split; constructor.
  - destruct (IH (S i) (off + len x)) as [Ht Hf].
    split; [cbn [Chunk.text]; now rewrite Ht |].
    constructor; [| exact Hf]. cbn [Chunk.level Chunk.heading Chunk.id].
    split; [reflexivity |].
    replace (Z.to_nat (Z.of_nat i + 1)) with (i + 1)%nat by lia. reflexivity.
Qed.

(** X14. In token-based mode the chunk texts are the pieces of the splitter
    on the whole text, the blocks joined by newlines, in the splitter's
    order; every chunk has level 1 and the heading "Section k", k being its
    id. *)
Theorem token_chunks_are_the_split :
  forall (blocks : list TextBlock.t) (max_tokens overlap : Z),
    let chunks :=
      chunk_by_tokens count_tokens page_offset blocks max_tokens overlap in
    map Chunk.text chunks
    = split_text_by_tokens count_tokens (blocks_to_text blocks) max_tokens overlap
    /\ Forall (fun c => Chunk.level c = 1
                        /\ Chunk.heading c
                           = ("Section " ++ str_of_nat (Z.to_nat (Chunk.id c)))%string)
         chunks.
Proof.
  intros blocks max_tokens overlap. apply token_chunks_texts.
Qed.

End Processed.

(** ** Chunk files *)

Lemma decimal_value_zeros (k : nat) (s : string) :
  decimal_value (zeros k ++ s) = decimal_value s.
Proof.
  induction k as [| k IH]; [reflexivity |].
  unfold decimal_value in *.
  change (zeros (S k) ++ s)%string with (String "0" (zeros k ++ s)%string).
  cbn [NilEmpty.uint_of_string].
  destruct (NilEmpty.uint_of_string (zeros k ++ s)) as [d |];
    destruct (NilEmpty.uint_of_string s) as [d' |]; simpl in *;
    try discriminate; try reflexivity.
  exact IH.
Qed.

Lemma decimal_value_str (n : nat) : decimal_value (str_of_nat n) = Some n.
Proof.
  unfold decimal_value, str_of_nat. rewrite NilEmpty.usu. simpl.
  now rewrite DecimalNat.Unsigned.of_to.
Qed.

(** The number is read back from its padded form. *)
Lemma decimal_value_format (width n : nat) :
  decimal_value (format_d width (Z.of_nat n)) = Some n.
Proof.
  unfold format_d. destruct (Z.ltb_spec (Z.of_nat n) 0) as [H | _]; [lia |].
  rewrite decimal_value_zeros, Zabs2Nat.id. apply decimal_value_str.
Qed.

Lemma format_d_injective (width : nat) (a b : Z) :
  0 <= a -> 0 <= b -> format_d width a = format_d width b -> a = b.
Proof.
  intros Ha Hb H. apply (f_equal decimal_value) in H.
  rewrite <- (Z2Nat.id a Ha), <- (Z2Nat.id b Hb) in H.
  rewrite !decimal_value_format in H. injection H as H. lia.
Qed.

Lemma append_cancel_r (x y s : string) :
  (x ++ s)%string = (y ++ s)%string -> x = y.
Proof.
  revert y. induction x as [| c x IH]; intros [| d y] H; simpl in H.
  - reflexivity.
  - apply (f_equal len) in H. rewrite len_String, len_append in H.
    pose proof (len_nonneg y). lia.
  - apply (f_equal len) in H. rewrite len_String, len_append in H.
    pose proof (len_nonneg x). lia.
  - injection H as -> H. f_equal. now apply IH.
Qed.

Lemma chunk_file_injective (a b : Z) :
  0 <= a -> 0 <= b -> chunk_file a = chunk_file b -> a = b.
Proof.
  intros Ha Hb H. unfold chunk_file in H.
  injection H as H. apply append_cancel_r in H.
  now apply (format_d_injective 3).
Qed.

Lemma find_app_none {A : Type} (f : A -> bool) (l1 l2 : list A) :
  find f l1 = None -> find f (l1 ++ l2) = find f l2.
Proof.
  induction l1 as [| x l1 IH]; simpl; [reflexivity |].
  destruct (f x); [discriminate | exact IH].
Qed.

Lemma find_app_some {A : Type} (f : A -> bool) (l1 l2 : list A) (x : A) :
  find f l1 = Some x -> find f (l1 ++ l2) = Some x.
Proof.
  induction l1 as [| y l1 IH]; simpl; [discriminate |].
  destruct (f y); [trivial | exact IH].
Qed.

Lemma find_none_iff {A : Type} (f : A -> bool) (l : list A) :
  (forall x, In x l -> f x = false) -> find f l = None.
Proof.
  induction l as [| x l IH]; intros H; simpl; [reflexivity |].
  rewrite (H x) by now left. apply IH. intros y Hy. apply H. now right.
Qed.

(** A file whose name was written once holds what was written to it. *)
Lemma written_once (writes : list FileWrite) (path content : string) :
  NoDup (map fst writes) ->
  In (path, content) writes ->
  written writes path = Some content.
Proof.
  unfold written. induction writes as [| [p c] ws IH]; intros Hnd Hin;
    [contradiction |].
  simpl map in Hnd. inversion Hnd as [| ? ? Hnot Hnd']; subst.
  simpl rev. destruct Hin as [[= -> ->] | Hin].
  - rewrite find_app_none.
    + simpl. now rewrite String.eqb_refl.
    + apply find_none_iff. intros [p' c'] Hx. apply in_rev in Hx. simpl.
      destruct (String.eqb_spec p' path) as [-> | _]; [| reflexivity].
      exfalso. apply Hnot. change path with (fst (path, c')). now apply in_map.
  - specialize (IH Hnd' Hin).
    destruct (find (fun w => String.eqb (fst w) path) (rev ws)) as [w |] eqn:E;
      [| discriminate].
    erewrite find_app_some by exact E. exact IH.
Qed.

Lemma NoDup_map_on {A B : Type} (f : A -> B) (l : list A) :
  (forall x y, In x l -> In y l -> f x = f y -> x = y) ->
  NoDup l -> NoDup (map f l).
Proof.
  intros Hinj Hnd. induction Hnd as [| x l Hx Hnd IH]; simpl; constructor.
  - intros H. apply in_map_iff in H. destruct H as (y & Hy & Hin).
    apply Hx. rewrite <- (Hinj y x); auto; [now right | now left].
  - apply IH. intros a b Ha Hb. apply Hinj; now right.
Qed.

Lemma ids_upto_spec (n : nat) (z : Z) :
  In z (ids_upto n) <-> 1 <= z <= Z.of_nat n.
Proof.
  unfold ids_upto. rewrite in_map_iff. split.
  - intros (k & <- & Hk). apply in_seq in Hk. lia.
  - intros H. exists (Z.to_nat z). split; [lia |]. apply in_seq. lia.
Qed.

Lemma ids_upto_NoDup (n : nat) : NoDup (ids_upto n).
Proof.
  unfold ids_upto. apply NoDup_map_on; [| apply seq_NoDup].
  intros x y _ _ H. lia.
Qed.

Lemma numbered_id (r : Result.t) (c : Chunk.t) :
  numbered r -> In c (Result.chunks r) ->
  1 <= Chunk.id c <= Z.of_nat (List.length (Result.chunks r)).
Proof.
  intros Hn Hc. apply ids_upto_spec. rewrite <- Hn. now apply in_map.
Qed.

Lemma numbered_chunks_by_id (r : Result.t) (c c' : Chunk.t) :
  numbered r -> In c (Result.chunks r) -> In c' (Result.chunks r) ->
  Chunk.id c = Chunk.id c' -> c = c'.
Proof.
  intros Hn. unfold numbered in Hn.
  pose proof (ids_upto_NoDup (List.length (Result.chunks r))) as Hnd.
  rewrite <- Hn in Hnd. clear Hn.
  induction (Result.chunks r) as [| x l IH]; [contradiction |].
  simpl in Hnd. inversion Hnd as [| ? ? Hx Hnd']; subst.
  intros [<- | Hc] [<- | Hc'] Hid.
  - reflexivity.
  - exfalso. apply Hx. rewrite Hid. now apply in_map.
  - exfalso. apply Hx. rewrite <- Hid. now apply in_map.
  - now apply IH.
Qed.

(** X15. Single-file output, for chunks numbered 1, 2, ..., as the chunkers
    number them: the chunk files have pairwise different names, so no file
    is written twice, and after the loop the file [chunk_NNN.txt] of every
    chunk holds the text of that chunk; the metadata lists the ids in
    order. *)
Theorem chunk_files_read_back :
  forall r : Result.t,
    numbered r ->
    NoDup (map fst (single_writes r))
    /\ (forall c,
          In c (Result.chunks r) ->
          written (single_writes r) (chunk_file (Chunk.id c))
          = Some (Chunk.text c))
    /\ map ChunkMeta.id (single_metadata r)
       = ids_upto (List.length (Result.chunks r)).
Proof.
  intros r Hn.
  assert (Hnd : NoDup (map fst (single_writes r))).
  { unfold single_writes. rewrite map_map. cbn [fst].
    rewrite <- (map_map Chunk.id chunk_file). rewrite Hn.
    apply NoDup_map_on; [| apply ids_upto_NoDup].
    intros a b Ha Hb. apply ids_upto_spec in Ha. apply ids_upto_spec in Hb.
    apply chunk_file_injective; lia. }
  split; [exact Hnd |]. split.
  - intros c Hc. apply written_once; [exact Hnd |].
    unfold single_writes.
    apply (in_map (fun c => (chunk_file (Chunk.id c), Chunk.text c))), Hc.
  - unfold single_metadata. rewrite map_map. cbn [ChunkMeta.id]. exact Hn.
Qed.

Lemma chunk_files_read_back_witness :
  exists r,
    extract_and_chunk Fallback.count_tokens double_page_offset ".pdf"
      sample_pdf 4 2 = Some r
    /\ written (single_writes r) "chunk_005.txt" = Some "Eeeeeeee. Ffffffff.".
Proof.
  eexists. split; [vm_compute; reflexivity |].
  refine (proj1 (proj2 (chunk_files_read_back _ _))
            (Chunk.mk 5 "Section 5" 1 "Eeeeeeee. Ffffffff." 4 2 1) _).
  - vm_compute. reflexivity.
  - vm_compute. tauto.
Defined.

(** ** Chunk files of a directory *)

Lemma all_digits_app (a b : string) :
  all_digits (a ++ b) = all_digits a && all_digits b.
Proof.
  induction a as [| c a IH]; [reflexivity |].
  change (String c a ++ b)%string with (String c (a ++ b)%string).
  cbn [all_digits]. now rewrite IH, andb_assoc.
Qed.

Lemma all_digits_zeros (k : nat) : all_digits (zeros k) = true.
Proof. induction k as [| k IH]; [reflexivity | exact IH]. Qed.

Lemma all_digits_str (n : nat) : all_digits (str_of_nat n) = true.
Proof.
  unfold str_of_nat. induction (Nat.to_uint n) as [| d IH | d IH | d IH | d IH
    | d IH | d IH | d IH | d IH | d IH | d IH]; [reflexivity | exact IH ..].
Qed.

Lemma all_digits_format (width : nat) (n : Z) :
  0 <= n -> all_digits (format_d width n) = true.
Proof.
  intros H. unfold format_d. destruct (Z.ltb_spec n 0); [lia |].
  now rewrite all_digits_app, all_digits_zeros, all_digits_str.
Qed.

(** Two strings of digits followed by an underscore and the same rest. *)
Lemma digits_before_underscore (a b r r' : string) :
  all_digits a = true -> all_digits b = true ->
  (a ++ String "_" r)%string = (b ++ String "_" r')%string ->
  a = b /\ r = r'.
Proof.
  revert b. induction a as [| c a IH]; intros [| d b] Ha Hb H; simpl in *.
  - injection H as ->. auto.
  - injection H as <- _. discriminate.
  - injection H as -> _. discriminate.
  - injection H as -> H.
    apply andb_true_iff in Ha. apply andb_true_iff in Hb.
    destruct (IH b (proj2 Ha) (proj2 Hb) H) as [-> ->]. auto.
Qed.

Lemma prefixed_chunk_file_injective (i j a b : Z) :
  0 <= i -> 0 <= j -> 0 <= a -> 0 <= b ->
  prefixed_chunk_file i a = prefixed_chunk_file j b -> i = j /\ a = b.
Proof.
  intros Hi Hj Ha Hb H. unfold prefixed_chunk_file in H.
  injection H as H.
  change ("_chunk_" ++ format_d 3 a ++ ".txt")%string
    with (String "_" ("chunk_" ++ format_d 3 a ++ ".txt")%string) in H.
  change ("_chunk_" ++ format_d 3 b ++ ".txt")%string
    with (String "_" ("chunk_" ++ format_d 3 b ++ ".txt")%string) in H.
  apply digits_before_underscore in H; try now apply all_digits_format.
  destruct H as [H1 H2]. split; [now apply (format_d_injective 2) |].
  now apply chunk_file_injective.
Qed.

Lemma seq_offset_map (g : Z) (n m : nat) :
  forall a,
    map (fun k => g + Z.of_nat k) (seq (a + n) m)
    = map (fun k => g + Z.of_nat n + Z.of_nat k) (seq a m).
Proof.
  induction m as [| m IH]; intros a; [reflexivity |].
  simpl. f_equal; [lia | apply (IH (S a))].
Qed.

Lemma ids_after_app (g : Z) (n m : nat) :
  ids_after g n ++ ids_after (g + Z.of_nat n) m = ids_after g (n + m).
Proof.
  unfold ids_after. rewrite seq_app, map_app. f_equal.
  symmetry. apply (seq_offset_map g n m 1).
Qed.

Lemma file_chunks_spec (file_idx : Z) (chunks : list Chunk.t) :
  forall g,
    let '(ws, ms, final) := file_chunks file_idx g chunks in
    ws = map (fun c => (prefixed_chunk_file file_idx (Chunk.id c), Chunk.text c))
           chunks
    /\ map ChunkMeta.id ms = ids_after g (List.length chunks)
    /\ map ChunkMeta.local_id ms = map (fun c => Some (Chunk.id c)) chunks
    /\ final = g + Z.of_nat (List.length chunks).
Proof.
  induction chunks as [| c rest IH]; intros g; simpl.
  - repeat split; try reflexivity. lia.
  - specialize (IH (g + 1)).
    destruct (file_chunks file_idx (g + 1) rest) as [[ws ms] final].
    destruct IH as (-> & Hids & Hloc & ->). simpl.
    rewrite Hids, Hloc. split; [reflexivity |]. split; [| split].
    + unfold ids_after. simpl. f_equal.
      rewrite <- !seq_shift, !map_map. apply map_ext. intros k. lia.
    + reflexivity.
    + lia.
Qed.

(** The names written from file index [file_idx] on. *)
Lemma multi_files_spec (results : list Result.t) :
  forall file_idx g,
    let '(ws, mss, total) := multi_files file_idx g results in
    (forall p t,
        In (p, t) ws <->
        exists i r c,
          nth_error results i = Some r /\ In c (Result.chunks r)
          /\ p = prefixed_chunk_file (file_idx + Z.of_nat i) (Chunk.id c)
          /\ t = Chunk.text c)
    /\ map ChunkMeta.id (List.concat mss) = ids_after g (total_chunk_count results)
    /\ map (map ChunkMeta.local_id) mss
       = map (fun r => map (fun c => Some (Chunk.id c)) (Result.chunks r))
           results
    /\ total = g + Z.of_nat (total_chunk_count results).
Proof.
  induction results as [| r rest IH]; intros file_idx g; simpl.
  - split; [| split; [| split]]; try reflexivity.
    + intros p t. split; [contradiction |].
      intros (i & r & c & H & _). destruct i; discriminate.
    + unfold total_chunk_count. simpl. lia.
  - pose proof (file_chunks_spec file_idx (Result.chunks r) g) as Hf.
    destruct (file_chunks file_idx g (Result.chunks r)) as [[ws ms] next].
    destruct Hf as (-> & Hids & Hloc & ->).
    specialize (IH (file_idx + 1) (g + Z.of_nat (List.length (Result.chunks r)))).
    destruct (multi_files (file_idx + 1)
                (g + Z.of_nat (List.length (Result.chunks r))) rest)
      as [[wss mss] total].
    destruct IH as (Hin & Hids' & Hloc' & ->).
    assert (Hcount : total_chunk_count (r :: rest)
                     = (List.length (Result.chunks r) + total_chunk_count rest)%nat).
    { unfold total_chunk_count. simpl. now rewrite length_app. }
    split; [| split; [| split]].
    + intros p t. rewrite in_app_iff, Hin, in_map_iff. split.
      * intros [(c & [= <- <-] & Hc) | (i & r' & c & Hn & Hc & -> & ->)].
        -- exists 0%nat, r, c. simpl. rewrite Z.add_0_r. auto.
        -- exists (S i), r', c. simpl nth_error. repeat split; auto.
           f_equal. lia.
      * intros ([| i] & r' & c & Hn & Hc & -> & ->); simpl in Hn.
        -- injection Hn as <-. left. exists c. rewrite Z.add_0_r. auto.
        -- right. exists i, r', c. repeat split; auto. f_equal. lia.
    + simpl List.concat. rewrite map_app, Hids, Hids', Hcount. apply ids_after_app.
    + simpl. now rewrite Hloc, Hloc'.
    + rewrite Hcount. lia.
Qed.

Lemma ids_after_zero (n : nat) : ids_after 0 n = ids_upto n.
Proof. unfold ids_after, ids_upto. apply map_ext. intros k. lia. Qed.

Lemma multi_names_NoDup (results : list Result.t) :
  Forall numbered results ->
  forall file_idx g,
    0 <= file_idx ->
    NoDup (map fst (fst (fst (multi_files file_idx g results)))).
Proof.
  induction 1 as [| r rest Hr Hrest IH]; intros file_idx g Hidx; simpl;
    [constructor |].
  pose proof (file_chunks_spec file_idx (Result.chunks r) g) as Hf.
  destruct (file_chunks file_idx g (Result.chunks r)) as [[ws ms] next].
  destruct Hf as (-> & _ & _ & ->).
  pose proof (multi_files_spec rest (file_idx + 1)
                (g + Z.of_nat (List.length (Result.chunks r)))) as Hs.
  specialize (IH (file_idx + 1)
                (g + Z.of_nat (List.length (Result.chunks r))) ltac:(lia)).
  destruct (multi_files (file_idx + 1)
              (g + Z.of_nat (List.length (Result.chunks r))) rest)
    as [[wss mss] total].
  destruct Hs as (Hin & _). cbn [fst] in *.
  rewrite map_app. apply NoDup_app.
  - rewrite map_map. cbn [fst].
    rewrite <- (map_map Chunk.id (prefixed_chunk_file file_idx)), Hr.
    apply NoDup_map_on; [| apply ids_upto_NoDup].
    intros a b Ha Hb E. apply ids_upto_spec in Ha. apply ids_upto_spec in Hb.
    apply prefixed_chunk_file_injective in E; lia || tauto.
  - exact IH.
  - intros p Hp Hp'. apply in_map_iff in Hp. destruct Hp as ([p1 t1] & <- & H1).
    apply in_map_iff in H1. destruct H1 as (c & [= <- <-] & Hc).
    apply in_map_iff in Hp'. destruct Hp' as ([p2 t2] & E & H2). cbn [fst] in E.
    subst p2. apply Hin in H2. destruct H2 as (i & r' & c' & Hn & Hc' & E & _).
    pose proof (numbered_id r c Hr Hc) as Hidc.
    assert (Hr' : numbered r').
    { rewrite Forall_forall in Hrest. apply Hrest. eapply nth_error_In, Hn. }
    pose proof (numbered_id r' c' Hr' Hc') as Hidc'.
    apply prefixed_chunk_file_injective in E; lia.
Qed.

(** X16. Directory output, for files whose chunks are numbered 1, 2, ...:
    the global ids of the chunk entries, read file after file, are
    1, 2, ..., [total_chunks], and [total_chunks] is the number of chunks
    of all the files; each entry keeps the chunk's own id as [local_id];
    the chunk files have pairwise different names, and after the loops the
    file [fII_chunk_NNN.txt] of the chunk [NNN] of the [II]-th file holds
    that chunk's text. *)
Theorem directory_chunks_numbered_and_read_back :
  forall results : list Result.t,
    Forall numbered results ->
    let '(writes, file_entries, total_chunks) :=
      write_multi_file_output results in
    map ChunkMeta.id (List.concat file_entries)
    = ids_upto (total_chunk_count results)
    /\ total_chunks = Z.of_nat (total_chunk_count results)
    /\ map (map ChunkMeta.local_id) file_entries
       = map (fun r => map (fun c => Some (Chunk.id c)) (Result.chunks r))
           results
    /\ NoDup (map fst writes)
    /\ (forall i r c,
          nth_error results i = Some r ->
          In c (Result.chunks r) ->
          written writes
            (prefixed_chunk_file (1 + Z.of_nat i) (Chunk.id c))
          = Some (Chunk.text c)).
Proof.
  intros results Hn. unfold write_multi_file_output.
  pose proof (multi_files_spec results 1 0) as Hs.
  pose proof (multi_names_NoDup results Hn 1 0 ltac:(lia)) as Hnd.
  destruct (multi_files 1 0 results) as [[ws mss] total]. cbn [fst] in Hnd.
  destruct Hs as (Hin & Hids & Hloc & ->).
  rewrite ids_after_zero in Hids.
  repeat split; auto.
  intros i r c Hr Hc. apply written_once; [exact Hnd |].
  apply Hin. now exists i, r, c.
Qed.

Lemma directory_chunks_numbered_and_read_back_witness :
  Forall numbered sample_results
  /\ let '(writes, file_entries, total_chunks) :=
       write_multi_file_output sample_results in
     map ChunkMeta.id (List.concat file_entries) = [1; 2; 3; 4; 5; 6]
     /\ total_chunks = 6
     /\ written writes "f02_chunk_001.txt"
        = option_map (fun c => Chunk.text c)
            (match nth_error sample_results 1 with
             | Some r => nth_error (Result.chunks r) 0
             | None => None
             end).
Proof.
  assert (Hn : Forall numbered sample_results)
    by (repeat constructor; vm_compute; reflexivity).
  split; [exact Hn |].
  pose proof (directory_chunks_numbered_and_read_back sample_results Hn) as H.
  destruct (write_multi_file_output sample_results)
    as [[writes file_entries] total_chunks] eqn:E.
  destruct H as (Hids & Htotal & _ & _ & Hread).
  split; [exact Hids |]. split; [exact Htotal |].
  destruct (nth_error sample_results 1) as [r |] eqn:Er; [| discriminate].
  destruct (nth_error (Result.chunks r) 0) as [c |] eqn:Ec;
    [| revert Ec; vm_compute in Er; injection Er as <-; discriminate].
  assert (Hid : Chunk.id c = 1)
    by (revert Ec; vm_compute in Er; injection Er as <-;
        intros Ec; vm_compute in Ec; injection Ec as <-; reflexivity).
  specialize (Hread 1%nat r c Er (nth_error_In _ _ Ec)).
  rewrite Hid in Hread. exact Hread.
Defined.

(** ** The first line of a chunk *)

Lemma replace_newlines_len (s : string) : len (replace_newlines s) = len s.
Proof.
  induction s as [| c s IH]; [reflexivity |].
  cbn [replace_newlines]. now rewrite !len_String, IH.
Qed.

Lemma replace_newlines_none (s : string) :
  no_newline (replace_newlines s) = true.
Proof.
  induction s as [| c s IH]; [reflexivity |].
  cbn [replace_newlines no_newline]. rewrite IH.
  destruct (is_newline c) eqn:E; [reflexivity | now rewrite E].
Qed.

Lemma substring_len (n : nat) (s : string) :
  len (substring 0 n s) <= Z.of_nat n.
Proof.
  revert s. induction n as [| n IH]; intros [| c s]; simpl substring;
    rewrite ?len_String; try (unfold len; simpl; lia).
  specialize (IH s). lia.
Qed.

Lemma lstrip_len (s : string) : len (lstrip s) <= len s.
Proof.
  induction s as [| c s IH]; [simpl; lia |].
  cbn [lstrip]. destruct (isspace c); rewrite ?len_String; lia.
Qed.

Lemma rstrip_len (s : string) : len (rstrip s) <= len s.
Proof.
  induction s as [| c s IH]; [simpl; lia |].
  rewrite rstrip_cons.
  destruct (rstrip s); [destruct (isspace c) |]; rewrite ?len_String in *;
    unfold len in *; simpl in *; lia.
Qed.

(** X17. The [first_line] of a chunk entry has at most 120 characters and
    no line feed. *)
Theorem first_line_short_single_line :
  forall text : string,
    len (first_line text) <= 120
    /\ no_newline (first_line text) = true.
Proof.
  intros text. unfold first_line. split.
  - rewrite replace_newlines_len. unfold strip.
    pose proof (rstrip_len (lstrip (substring 0 120 text))).
    pose proof (lstrip_len (substring 0 120 text)).
    pose proof (substring_len 120 text). lia.
  - apply replace_newlines_none.
Qed.

(** ** The blocks of a PDF *)

Lemma pages_to_blocks_shape (pages : list string) :
  forall i,
    Forall (fun b =>
              blank b = false
              /\ b = page_block (TextBlock.text b) (TextBlock.page b))
      (pages_to_blocks i pages).
Proof.
  induction pages as [| t rest IH]; intros i; simpl; [constructor |].
  destruct (nonempty (strip t)) eqn:E; [| apply IH].
  constructor; [| apply IH]. unfold blank. simpl. now rewrite E.
Qed.

Lemma pages_to_blocks_increasing (pages : list string) :
  forall i prev,
    prev <= Z.of_nat i -> pages_increasing prev (pages_to_blocks i pages).
Proof.
  induction pages as [| t rest IH]; intros i prev Hp; simpl; [exact I |].
  destruct (nonempty (strip t)).
  - simpl. split; [lia | apply IH; lia].
  - apply IH. lia.
Qed.

Lemma pages_to_blocks_nth (pages : list string) :
  forall i b,
    In b (pages_to_blocks i pages) ->
    exists k,
      nth_error pages k = Some (TextBlock.text b)
      /\ TextBlock.page b = Z.of_nat (i + k) + 1.
Proof.
  induction pages as [| t rest IH]; intros i b Hin; simpl in Hin;
    [contradiction |].
  assert (Hrest : In b (pages_to_blocks (S i) rest) ->
                  exists k,
                    nth_error (t :: rest) k = Some (TextBlock.text b)
                    /\ TextBlock.page b = Z.of_nat (i + k) + 1).
  { intros H. destruct (IH _ _ H) as (k & Hk & Hp).
    exists (S k). split; [exact Hk |]. rewrite Hp. lia. }
  destruct (nonempty (strip t)); [| now apply Hrest].
  destruct Hin as [<- | Hin]; [| now apply Hrest].
  exists 0%nat. split; [reflexivity |]. simpl. lia.
Qed.

(** What [extract_pdf] returns was made from the page texts of one of the
    backends, or is empty. *)
Lemma extract_pdf_from_pages (w : PdfWorld) (filepath : string) :
  exists pages, extract_pdf w filepath = pages_to_blocks 0 pages.
Proof.
  assert (H1 : exists pages, extract_pdf_pymupdf w filepath = pages_to_blocks 0 pages).
  { unfold extract_pdf_pymupdf. destruct (fitz w) as [open |]; [| now exists []].
    destruct (open filepath) as [pages |]; [now exists pages | now exists []]. }
  assert (H2 : exists pages,
             extract_pdf_pdfplumber w filepath = pages_to_blocks 0 pages).
  { unfold extract_pdf_pdfplumber.
    destruct (pdfplumber w) as [open |]; [| now exists []].
    destruct (open filepath) as [pages |]; [eauto | now exists []]. }
  assert (H3 : exists pages,
             extract_pdf_pdftotext w filepath = pages_to_blocks 0 pages).
  { unfold extract_pdf_pdftotext.
    destruct (which_pdftotext w); cbn [negb]; [| now exists []].
    destruct (run_pdftotext w filepath) as [[rc out] |]; [| now exists []].
    destruct ((rc =? 0) && nonempty (strip out)); [eauto | now exists []]. }
  unfold extract_pdf. cbn [extract_pdf_loop].
  destruct (100 <? sum_chars (extract_pdf_pymupdf w filepath)); [exact H1 |].
  destruct (100 <? sum_chars (extract_pdf_pdfplumber w filepath)); [exact H2 |].
  destruct (100 <? sum_chars (extract_pdf_pdftotext w filepath)); exact H3.
Qed.

Lemma increasing_positive (blocks : list TextBlock.t) :
  forall prev,
    0 <= prev -> pages_increasing prev blocks ->
    positive_pages blocks = map TextBlock.page blocks.
Proof.
  unfold positive_pages.
  induction blocks as [| b rest IH]; intros prev Hp H; [reflexivity |].
  destruct H as [Hlt H]. simpl.
  destruct (Z.ltb_spec 0 (TextBlock.page b)); [| lia].
  f_equal. apply (IH (TextBlock.page b)); [lia | exact H].
Qed.

Lemma last_cons_default {A : Type} (l : list A) :
  forall x d, last (x :: l) d = last l x.
Proof.
  induction l as [| y l IH]; intros x d; [reflexivity |].
  change (last (x :: y :: l) d) with (last (y :: l) d).
  now rewrite !IH.
Qed.

Lemma increasing_max_is_last (blocks : list TextBlock.t) :
  forall p,
    pages_increasing p blocks ->
    fold_left Z.max (map TextBlock.page blocks) p
    = last (map TextBlock.page blocks) p.
Proof.
  induction blocks as [| b rest IH]; intros p H; [reflexivity |].
  destruct H as [Hlt H]. cbn [map fold_left].
  rewrite Z.max_r by lia. rewrite (IH _ H).
  symmetry. apply last_cons_default.
Qed.

(** X18. The blocks of a PDF, whichever backend gave them: each one holds the
    text of a page that is not blank and carries no heading mark, style or
    confidence; the page numbers start at 1 or above and go up strictly, so
    no page gives two blocks; and the [total_pages] that [extract_and_chunk]
    reports is the page number of the last block. *)
Theorem pdf_blocks_one_per_nonblank_page :
  forall (w : PdfWorld) (filepath : string),
    let blocks := extract_pdf w filepath in
    Forall (fun b =>
              blank b = false
              /\ b = page_block (TextBlock.text b) (TextBlock.page b))
      blocks
    /\ pages_increasing 0 blocks
    /\ document_pages blocks = last (map TextBlock.page blocks) 0.
Proof.
  intros w filepath blocks. subst blocks.
  destruct (extract_pdf_from_pages w filepath) as [pages ->].
  pose proof (pages_to_blocks_increasing pages 0 0 ltac:(lia)) as Hinc.
  split; [apply pages_to_blocks_shape |]. split; [exact Hinc |].
  unfold document_pages.
  rewrite (increasing_positive _ 0 ltac:(lia) Hinc).
  destruct (pages_to_blocks 0 pages) as [| b rest]; [reflexivity |].
  destruct Hinc as [_ Hinc]. cbn [map max_or].
  rewrite (increasing_max_is_last _ _ Hinc). symmetry. apply last_cons_default.
Qed.

(** ** The pages of pdftotext *)

Lemma split_on_nonnil (sep : ascii) (s : string) : split_on sep s <> [].
Proof.
  destruct s as [| c r]; [discriminate |].
  cbn [split_on]. destruct (Ascii.eqb c sep); [discriminate |].
  destruct (split_on sep r); discriminate.
Qed.

Lemma split_on_length (sep : ascii) (s : string) :
  Z.of_nat (List.length (split_on sep s)) = 1 + count_char sep s.
Proof.
  induction s as [| c r IH]; [reflexivity |].
  pose proof (split_on_nonnil sep r) as Hne.
  cbn [split_on count_char]. destruct (Ascii.eqb c sep).
  - cbn [List.length]. lia.
  - destruct (split_on sep r); [congruence |]. cbn [List.length] in *. lia.
Qed.

Lemma split_on_pieces (sep : ascii) (s : string) :
  Forall (fun p => count_char sep p = 0) (split_on sep s).
Proof.
  induction s as [| c r IH]; [repeat constructor |].
  pose proof (split_on_nonnil sep r) as Hne.
  cbn [split_on]. destruct (Ascii.eqb c sep) eqn:E.
  - constructor; [reflexivity | exact IH].
  - destruct (split_on sep r) as [| p ps]; [congruence |].
    inversion IH; subst. constructor; [| assumption].
    cbn [count_char]. rewrite E. lia.
Qed.

(** [sep.join(s.split(sep))] is [s]. *)
Lemma split_on_join (sep : ascii) (s : string) :
  join (String sep EmptyString) (split_on sep s) = s.
Proof.
  induction s as [| c r IH]; [reflexivity |].
  pose proof (split_on_nonnil sep r) as Hne.
  cbn [split_on]. destruct (Ascii.eqb_spec c sep) as [-> | Hc].
  - destruct (split_on sep r) as [| p ps]; [congruence |].
    rewrite <- IH. reflexivity.
  - destruct (split_on sep r) as [| p ps]; [congruence |].
    rewrite <- IH. destruct ps; reflexivity.
Qed.

(** X19. A block that comes from pdftotext: the program ran with return
    code 0, the text of the block is the piece of its output between two
    form feeds (or the ends) whose rank is the page of the block, it holds
    no form feed, and the page is at most one more than the number of form
    feeds of the output. *)
Theorem pdftotext_block_is_form_feed_piece :
  forall (w : PdfWorld) (filepath : string) (b : TextBlock.t),
    In b (extract_pdf_pdftotext w filepath) ->
    exists stdout,
      which_pdftotext w = true
      /\ run_pdftotext w filepath = Some (0, stdout)
      /\ nth_error (split_on form_feed stdout)
           (Z.to_nat (TextBlock.page b - 1))
         = Some (TextBlock.text b)
      /\ 1 <= TextBlock.page b <= 1 + count_char form_feed stdout
      /\ count_char form_feed (TextBlock.text b) = 0.
Proof.
  intros w filepath b. unfold extract_pdf_pdftotext.
  destruct (which_pdftotext w); cbn [negb]; [| contradiction].
  destruct (run_pdftotext w filepath) as [[rc out] |]; [| contradiction].
  destruct (Z.eqb_spec rc 0) as [-> | _]; cbn [andb]; [| contradiction].
  destruct (nonempty (strip out)); [| contradiction].
  intros Hin. apply pages_to_blocks_nth in Hin. destruct Hin as (k & Hk & Hp).
  exists out. split; [reflexivity |]. split; [reflexivity |].
  replace (Z.to_nat (TextBlock.page b - 1)) with k by lia.
  split; [exact Hk |].
  assert (Hlt : (k < List.length (split_on form_feed out))%nat)
    by (apply nth_error_Some; congruence).
  pose proof (split_on_length form_feed out).
  split; [lia |].
  pose proof (split_on_pieces form_feed out) as Hall.
  rewrite Forall_forall in Hall. apply Hall. eapply nth_error_In, Hk.
Qed.

Lemma pdftotext_block_is_form_feed_piece_witness :
  In (page_block "Page three." 3)
    (extract_pdf_pdftotext sample_pdftotext_world "scan.pdf")
  /\ exists stdout,
       which_pdftotext sample_pdftotext_world = true
       /\ run_pdftotext sample_pdftotext_world "scan.pdf" = Some (0, stdout)
       /\ nth_error (split_on form_feed stdout) 2 = Some "Page three."
       /\ 1 <= 3 <= 1 + count_char form_feed stdout
       /\ count_char form_feed "Page three." = 0.
Proof.
  assert (Hin : In (page_block "Page three." 3)
                  (extract_pdf_pdftotext sample_pdftotext_world "scan.pdf"))
    by (vm_compute; auto).
  split; [exact Hin |].
  exact (pdftotext_block_is_form_feed_piece sample_pdftotext_world "scan.pdf"
           (page_block "Page three." 3) Hin).
Defined.

(** ** Markdown headings *)

Lemma detect_from_marked (blocks : list TextBlock.t) :
  forall i0 blank_count k block,
    nth_error blocks k = Some block ->
    marked_heading block = true ->
    In (SectionBoundary.mk (i0 + k)
          (clean_heading (strip (TextBlock.text block)))
          (TextBlock.heading_level block) (TextBlock.confidence block)
          (TextBlock.page block))
       (detect_from i0 blank_count blocks).
Proof.
  induction blocks as [| x rest IH]; intros i0 bc k block Hn Hm.
  - destruct k; discriminate.
  - destruct k as [| k]; simpl in Hn.
    + injection Hn as ->. simpl. rewrite Hm. left. f_equal. lia.
    + assert (Htail : forall bc',
                 In (SectionBoundary.mk (i0 + S k)
                       (clean_heading (strip (TextBlock.text block)))
                       (TextBlock.heading_level block)
                       (TextBlock.confidence block) (TextBlock.page block))
                    (detect_from (S i0) bc' rest)).
      { intros bc'. replace (i0 + S k)%nat with (S i0 + k)%nat by lia.
        now apply IH. }
      simpl. destruct (marked_heading x); [right; apply Htail |].
      destruct (nonempty (strip (TextBlock.text x))); cbn [negb]; [| apply Htail].
      destruct (classify (strip (TextBlock.text x)) bc) as [conf' lvl'].
      destruct (Qle_bool conf' 0); cbn [negb]; [apply Htail | right; apply Htail].
Qed.

Lemma lstrip_nonspace (c : ascii) (r : string) :
  isspace c = false -> lstrip (String c r) = String c r.
Proof. intros H. simpl. now rewrite H. Qed.

Lemma rstrip_nonempty (c : ascii) (r : string) :
  isspace c = false -> nonempty (rstrip (String c r)) = true.
Proof.
  intros H. rewrite rstrip_cons. destruct (rstrip r); [now rewrite H | reflexivity].
Qed.

Lemma heading_line_shape (text : string) (n : nat) :
  MD_HEADING_RE text = Some n ->
  (1 <= n <= 6)%nat /\ nonempty (strip text) = true.
Proof.
  unfold MD_HEADING_RE.
  destruct ((1 <=? String.length (take_while is_hash text))%nat
            && (String.length (take_while is_hash text) <=? 6)%nat) eqn:E;
    [| discriminate].
  apply andb_true_iff in E. destruct E as [E1 E2].
  apply Nat.leb_le in E1. apply Nat.leb_le in E2.
  destruct (drop_while is_hash text) as [| c r]; [discriminate |].
  destruct (isspace c && nonempty (drop_while is_newline r)); [| discriminate].
  intros [= <-]. split; [lia |].
  destruct text as [| h t]; [simpl in E1; lia |].
  cbn [take_while] in E1. destruct (is_hash h) eqn:Eh; [| simpl in E1; lia].
  unfold is_hash in Eh. apply Ascii.eqb_eq in Eh. subst h.
  unfold strip. rewrite lstrip_nonspace by reflexivity.
  now apply rstrip_nonempty.
Qed.

(** X20. A line of a Markdown file that starts with one to six hashes,
    white space and a title is a section boundary at its line index, of
    confidence 1, with the number of hashes as its level and the cleaned
    line as its heading. The same lines read as a plain text file carry no
    heading mark at all. *)
Theorem markdown_heading_is_boundary :
  forall (lines : list string) (i : nat) (text : string) (hashes : nat),
    nth_error lines i = Some text ->
    MD_HEADING_RE text = Some hashes ->
    In (SectionBoundary.mk i (clean_heading (strip text)) (Z.of_nat hashes) 1 0)
       (detect_boundaries (extract_text_file true (Some lines)))
    /\ (1 <= hashes <= 6)%nat
    /\ Forall (fun block => marked_heading block = false)
         (extract_text_file false (Some lines)).
Proof.
  intros lines i text n Hi Hre.
  destruct (heading_line_shape text n Hre) as [Hn Hne].
  split; [| split; [exact Hn |]].
  - assert (Hblock : nth_error (extract_text_file true (Some lines)) i
                     = Some (TextBlock.mk text 0 (Z.of_nat n) "markdown" 1)).
    { cbn [extract_text_file]. rewrite nth_error_map, Hi. cbn [option_map].
      unfold line_block. now rewrite Hne, Hre. }
    apply (detect_from_marked _ 0%nat 0 i _ Hblock).
    unfold marked_heading. cbn [TextBlock.confidence TextBlock.heading_level].
    apply andb_true_iff. split; [reflexivity | apply Z.ltb_lt; lia].
  - cbn [extract_text_file]. rewrite Forall_forall. intros block Hin.
    apply in_map_iff in Hin. destruct Hin as (t & <- & _).
    unfold line_block. destruct (negb (nonempty (strip t))); reflexivity.
Qed.

Lemma markdown_heading_is_boundary_witness :
  In (SectionBoundary.mk 2 "Beta" 1 1 0) (detect_boundaries sample_markdown).
Proof.
  exact (proj1 (markdown_heading_is_boundary
                  ["# Alpha"; "First words here."; "# Beta"; "More words here.";
                   "# Gamma"; "Last words here."]
                  2%nat "# Beta" 1%nat eq_refl eq_refl)).
Defined.

(** ** The blocks of a word-processor document *)

Lemma digit_not_space (c : ascii) : isdigit c = true -> isspace c = false.
Proof. destruct c as [[] [] [] [] [] [] [] []]; vm_compute; congruence. Qed.

Lemma digit_not_H (c : ascii) : isdigit c = true -> c <> "H"%char.
Proof. intros H ->. discriminate H. Qed.

Lemma digit_not_sign (c : ascii) :
  isdigit c = true -> c <> "-"%char /\ c <> "+"%char.
Proof. intros H. split; intros ->; discriminate H. Qed.

Lemma all_digits_no_space (s : string) :
  all_digits s = true -> no_space s = true.
Proof.
  induction s as [| c r IH]; [reflexivity |]. cbn [all_digits no_space].
  intros H. apply andb_true_iff in H. destruct H as [Hc Hr].
  now rewrite (digit_not_space c Hc), IH.
Qed.

Lemma no_space_rstrip (s : string) : no_space s = true -> rstrip s = s.
Proof.
  induction s as [| c r IH]; [reflexivity |]. cbn [no_space].
  intros H. apply andb_true_iff in H. destruct H as [Hc Hr].
  rewrite rstrip_cons, (IH Hr). apply negb_true_iff in Hc.
  destruct r; [now rewrite Hc | reflexivity].
Qed.

Lemma no_space_strip (s : string) : no_space s = true -> strip s = s.
Proof.
  intros H. unfold strip.
  assert (Hl : lstrip s = s).
  { destruct s as [| c r]; [reflexivity |]. cbn [no_space] in H.
    apply andb_true_iff in H. destruct H as [Hc _]. apply negb_true_iff in Hc.
    simpl. now rewrite Hc. }
  rewrite Hl. now apply no_space_rstrip.
Qed.

Lemma remove_from_digits (s : string) :
  all_digits s = true -> remove_from "Heading" s 0 = s.
Proof.
  induction s as [| c r IH]; [reflexivity |]. cbn [all_digits].
  intros H. apply andb_true_iff in H. destruct H as [Hc Hr].
  cbn [remove_from].
  change (String.prefix "Heading" (String c r))
    with (if ascii_dec "H" c then String.prefix "eading" r else false).
  destruct (ascii_dec "H" c) as [<- | _]; [discriminate Hc |].
  now rewrite (IH Hr).
Qed.

Lemma digits_of_digits (s : string) :
  forall prev_digit,
    all_digits s = true ->
    nonempty s = true \/ prev_digit = true ->
    digits_of s prev_digit = Some s.
Proof.
  induction s as [| c r IH]; intros prev Hd Hne.
  - destruct Hne as [Hne | ->]; [discriminate | reflexivity].
  - cbn [all_digits] in Hd. apply andb_true_iff in Hd. destruct Hd as [Hc Hr].
    cbn [digits_of]. rewrite Hc, (IH true Hr); [reflexivity | now right].
Qed.

Lemma str_of_nat_nonempty (k : nat) : (1 <= k)%nat -> nonempty (str_of_nat k) = true.
Proof.
  intros Hk. pose proof (decimal_value_str k) as H.
  destruct (str_of_nat k); [| reflexivity].
  vm_compute in H. injection H as H. lia.
Qed.

Lemma int_of_str_number (k : nat) :
  (1 <= k)%nat ->
  (String.length (str_of_nat k) <= 4300)%nat ->
  int_of_str (str_of_nat k) = Some (Z.of_nat k).
Proof.
  intros Hk Hlen. unfold int_of_str.
  pose proof (all_digits_str k) as Hd.
  pose proof (str_of_nat_nonempty k Hk) as Hne.
  rewrite (no_space_strip _ (all_digits_no_space _ Hd)).
  pose proof (digits_of_digits _ false Hd (or_introl Hne)) as Hds.
  pose proof (decimal_value_str k) as Hval. unfold decimal_value in Hval.
  apply Nat.leb_le in Hlen.
  destruct (str_of_nat k) as [| c r] eqn:E; [discriminate |].
  cbn [all_digits] in Hd. apply andb_true_iff in Hd.
  destruct (digit_not_sign c (proj1 Hd)) as [Hm Hp].
  assert (Hbody : (match String c r with
                   | String "-" r0 => (true, r0)
                   | String "+" r0 => (false, r0)
                   | _ => (false, String c r)
                   end) = (false, String c r)).
  { destruct c as [[] [] [] [] [] [] [] []]; try reflexivity; congruence. }
  rewrite Hbody, Hds, Hlen.
  destruct (NilEmpty.uint_of_string (String c r)); [| discriminate].
  cbn [option_map] in Hval. injection Hval as ->. reflexivity.
Qed.

(** The level that [paragraph_block] reads from a heading style. *)
Lemma heading_style_block (text name : string) (level : Z) :
  nonempty (strip text) = true ->
  heading_style_level name level ->
  paragraph_block (Docx.mkParagraph text (Docx.Named name))
  = Some (TextBlock.mk (strip text) 0 level name 1)
  /\ 0 < level.
Proof.
  intros Hne [[-> ->] | [[-> ->] | (k & Hk & Hlen & -> & ->)]];
    unfold paragraph_block; cbn [Docx.text Docx.style]; rewrite Hne; cbn [negb].
  - split; [reflexivity | lia].
  - split; [reflexivity | lia].
  - assert (Hp : String.prefix "Heading" ("Heading " ++ str_of_nat k) = true)
      by reflexivity.
    rewrite Hp.
    assert (Hrest : strip (remove_all "Heading" ("Heading " ++ str_of_nat k))
                    = str_of_nat k).
    { unfold remove_all.
      change (remove_from "Heading" ("Heading " ++ str_of_nat k) 0)
        with (String " " (remove_from "Heading" (str_of_nat k) 0)).
      rewrite (remove_from_digits _ (all_digits_str k)).
      unfold strip. change (lstrip (String " " (str_of_nat k)))
        with (lstrip (str_of_nat k)).
      apply (no_space_strip _ (all_digits_no_space _ (all_digits_str k))). }
    rewrite Hrest, (int_of_str_number k Hk Hlen). split; [reflexivity | lia].
Qed.

Lemma paragraph_blocks_nth (paragraphs : list Docx.Paragraph) :
  forall blocks i para,
    paragraph_blocks paragraphs = Some blocks ->
    nth_error paragraphs i = Some para ->
    exists block,
      paragraph_block para = Some block /\ nth_error blocks i = Some block.
Proof.
  induction paragraphs as [| p rest IH]; intros blocks i para Hb Hi.
  - destruct i; discriminate.
  - cbn [paragraph_blocks] in Hb.
    destruct (paragraph_block p) as [b |] eqn:Ep; [| discriminate].
    destruct (paragraph_blocks rest) as [bs |]; [| discriminate].
    injection Hb as <-. destruct i as [| i]; simpl in Hi.
    + injection Hi as <-. now exists b.
    + apply (IH bs i para eq_refl Hi).
Qed.





(** X21. A paragraph of a word-processor document that is not blank and has
    the style "Title", "Subtitle" or "Heading k" for a number k of 1 or
    more is a section boundary of confidence 1 at its paragraph index, with
    the level 1, 2 or k and its cleaned text as the heading, whatever the
    text looks like. *)
Theorem docx_heading_style_is_boundary :
  forall (DocxDocument : string -> option Docx.Document) (filepath : string)
         (doc : Docx.Document) (i : nat) (text name : string) (level : Z),
    DocxDocument filepath = Some doc ->
    paragraph_blocks (Docx.paragraphs doc) <> None ->
    nth_error (Docx.paragraphs doc) i
    = Some (Docx.mkParagraph text (Docx.Named name)) ->
    nonempty (strip text) = true ->
    heading_style_level name level ->
    In (SectionBoundary.mk i (clean_heading (strip text)) level 1 0)
       (detect_boundaries (extract_docx (Some DocxDocument) filepath)).
Proof.
  intros open filepath doc i text name level Hdoc Hok Hi Hne Hstyle.
  unfold extract_docx. rewrite Hdoc.
  destruct (paragraph_blocks (Docx.paragraphs doc)) as [blocks |] eqn:Eb;
    [| congruence].
  destruct (paragraph_blocks_nth _ _ _ _ Eb Hi) as (block & Hblock & Hnth).
  destruct (heading_style_block text name level Hne Hstyle) as [Hshape Hpos].
  rewrite Hshape in Hblock. injection Hblock as <-.
  assert (Hnth' : nth_error (blocks ++ map table_block (Docx.tables doc)) i
                  = Some (TextBlock.mk (strip text) 0 level name 1)).
  { rewrite nth_error_app1; [exact Hnth |]. apply nth_error_Some. congruence. }
  pose proof (detect_from_marked _ 0%nat 0 i _ Hnth') as H.
  cbn [TextBlock.text TextBlock.heading_level TextBlock.confidence
       TextBlock.page Nat.add] in H.
  rewrite strip_idempotent in H. apply H.
  unfold marked_heading. cbn [TextBlock.confidence TextBlock.heading_level].
  apply andb_true_iff. split; [reflexivity | now apply Z.ltb_lt].
Qed.

Lemma docx_heading_style_is_boundary_witness :
  In (SectionBoundary.mk 4 "Outlook" 2 1 0)
     (detect_boundaries
        (extract_docx (Some (fun _ => Some sample_docx)) "report.docx")).
Proof.
  apply (docx_heading_style_is_boundary (fun _ => Some sample_docx)
           "report.docx" sample_docx 4%nat "Outlook" "Heading 2" 2).
  - reflexivity.
  - vm_compute. discriminate.
  - reflexivity.
  - reflexivity.
  - right. right. exists 2%nat. split; [lia |].
    split; [apply Nat.leb_le; reflexivity |]. split; reflexivity.
Defined.








Lemma paragraph_blocks_raise (paragraphs : list Docx.Paragraph)
    (para : Docx.Paragraph) :
  In para paragraphs -> paragraph_block para = None ->
  paragraph_blocks paragraphs = None.
Proof.
  induction paragraphs as [| p rest IH]; intros Hin Hnone; [contradiction |].
  cbn [paragraph_blocks]. destruct Hin as [-> | Hin]; [now rewrite Hnone |].
  destruct (paragraph_block p); [| reflexivity].
  now rewrite (IH Hin Hnone).
Qed.

(** X23. One paragraph that is not blank and whose style has no name loses
    the whole document: [extract_docx] returns no block at all, the blocks
    of the paragraphs before it included, and [extract_and_chunk] then
    gives no result for the file, whatever the token estimator and the
    budget are. *)
Theorem docx_unnamed_style_loses_document :
  forall (DocxDocument : string -> option Docx.Document) (filepath : string)
         (doc : Docx.Document) (para : Docx.Paragraph),
    DocxDocument filepath = Some doc ->
    In para (Docx.paragraphs doc) ->
    nonempty (strip (Docx.text para)) = true ->
    Docx.style para = Docx.Unnamed ->
    extract_docx (Some DocxDocument) filepath = []
    /\ forall count_tokens page_offset max_tokens overlap,
         extract_and_chunk count_tokens page_offset ".docx"
           (extract_docx (Some DocxDocument) filepath) max_tokens overlap
         = None.
Proof.
  intros open filepath doc para Hdoc Hin Hne Hstyle.
  assert (E : extract_docx (Some open) filepath = []).
  { unfold extract_docx. rewrite Hdoc.
    rewrite (paragraph_blocks_raise _ para Hin); [reflexivity |].
    unfold paragraph_block. now rewrite Hne, Hstyle. }
  split; [exact E |]. intros. rewrite E. reflexivity.
Qed.

Lemma docx_unnamed_style_loses_document_witness :
  extract_docx (Some (fun _ => Some sample_docx_unnamed)) "report.docx" = []
  /\ forall count_tokens page_offset max_tokens overlap,
       extract_and_chunk count_tokens page_offset ".docx"
         (extract_docx (Some (fun _ => Some sample_docx_unnamed)) "report.docx")
         max_tokens overlap
       = None.
Proof.
  apply (docx_unnamed_style_loses_document (fun _ => Some sample_docx_unnamed)
           "report.docx" sample_docx_unnamed (Docx.mkParagraph "Appendix" Docx.Unnamed)
           eq_refl).
  - vm_compute. auto 10.
  - reflexivity.
  - reflexivity.
Defined.

(** ** The text of a plain text file *)

Lemma line_block_text (is_markdown : bool) (text : string) :
  nonempty (strip text) = true ->
  TextBlock.text (line_block is_markdown text) = text.
Proof.
  intros H. unfold line_block. rewrite H. cbn [negb].
  destruct (if is_markdown then MD_HEADING_RE text else None); reflexivity.
Qed.

(** X24. A text or Markdown file without blank lines is read back from its
    blocks: the text that the chunkers work on is the lines of the file
    joined by line feeds, heading lines and their hashes included, and the
    character total is the number of characters of the lines. *)
Theorem text_file_blocks_read_back :
  forall (is_markdown : bool) (lines : list string),
    Forall (fun line => nonempty (strip line) = true) lines ->
    let blocks := extract_text_file is_markdown (Some lines) in
    blocks_to_text blocks = join newline lines
    /\ sum_chars blocks = total_len lines
    /\ List.length blocks = List.length lines.
Proof.
  intros is_markdown lines H blocks. subst blocks.
  cbn [extract_text_file]. unfold blocks_to_text.
  assert (E : map TextBlock.text (map (line_block is_markdown) lines) = lines).
  { induction H as [| line rest Hl _ IH]; [reflexivity |].
    cbn [map]. now rewrite IH, (line_block_text _ _ Hl). }
  split; [now rewrite E |]. split; [| apply length_map].
  unfold sum_chars, total_len.
  induction H as [| line rest Hl Hrest IH]; [reflexivity |].
  cbn [map] in E. injection E as _ E.
  cbn [map fold_right]. rewrite (line_block_text _ _ Hl).
  specialize (IH E). cbn [map fold_right] in *. lia.
Qed.

Lemma text_file_blocks_read_back_witness :
  blocks_to_text sample_markdown
  = join newline
      ["# Alpha"; "First words here."; "# Beta"; "More words here.";
       "# Gamma"; "Last words here."].
Proof.
  refine (proj1 (text_file_blocks_read_back true
                   ["# Alpha"; "First words here."; "# Beta"; "More words here.";
                    "# Gamma"; "Last words here."] _)).
  repeat constructor.
Defined.
